(** * svc: a worker life-cycle manager

    Shallow embedding of package [svc] (svc.go, worker.go, options.go,
    logger.go) and the properties of its life cycle: registration,
    ordered initialisation, the run-phase race, bounded termination and
    the health probes.

    Conventions of the embedding.
    - A Go [error] is a value of [error]; the nil error is [None].
    - The maps [workers] and [workerInitRetryOpts] are [gmap string _].
    - Code that logs, faults or halts the process lives in the monad [M]:
      explicit state passing over [SVC], a trace of the events of the
      calling goroutine, and a result that is a value, a panic, a process
      exit or a wait that never ends.
    - [time.Duration] is an integer number of nanoseconds ([Z]); elapsed
      time is a natural number of nanoseconds ([N]). *)

From Stdlib Require Import String Ascii ZArith NArith Lia.
From stdpp Require Import base option list gmap strings fin_maps.

Local Open Scope string_scope.

(* ===================================================================== *)
(** ** Errors *)
(* ===================================================================== *)

(** An error value: the sentinel [context.Canceled], an error made of a
    text ([errors.New], [fmt.Errorf] without [%w]), or [fmt.Errorf] with a
    [%w] verb, which keeps the wrapped error reachable by [Unwrap]. *)
Inductive error : Type :=
| Canceled
| ErrText (msg : string)
| ErrWrap (prefix : string) (inner : error).

(** [err.Error()] *)
Fixpoint errorText (e : error) : string :=
  match e with
  | Canceled => "context canceled"
  | ErrText msg => msg
  | ErrWrap p inner => p ++ errorText inner
  end.

(** [errors.Is(e, context.Canceled)]: follows the [Unwrap] chain. *)
Fixpoint isCanceled (e : error) : bool :=
  match e with
  | Canceled => true
  | ErrText _ => false
  | ErrWrap _ inner => isCanceled inner
  end.

(** [fmt.Errorf("worker %s exited: %w", name, err)] *)
Definition errorfExited (name : string) (err : error) : error :=
  ErrWrap ("worker " ++ name ++ " exited: ") err.

(** [fmt.Errorf("worker %s: %s", n, err)] *)
Definition errorfWorker (n : string) (err : error) : error :=
  ErrText ("worker " ++ n ++ ": " ++ errorText err).

(** Does [needle] occur in [hay]? *)
Fixpoint contains (needle hay : string) : bool :=
  String.prefix needle hay ||
  match hay with
  | EmptyString => false
  | String _ rest => contains needle rest
  end.

(** An error carries a worker's name when the name occurs in its text. *)
Definition carriesName (name : string) (e : error) : bool :=
  contains name (errorText e).

Local Open Scope list_scope.

(* ===================================================================== *)
(** ** Workers (worker.go) *)
(* ===================================================================== *)

(** A value recovered from a panic: an [error] (the type assertion
    [r.(error)] succeeds) or any other value, kept as its [%v] text. *)
Inductive PanicValue : Type :=
| PanicError (err : error)
| PanicOther (text : string).

(** What a call of [Run()] does. *)
Inductive RunOutcome : Type :=
| RunReturns (err : option error)
| RunPanics (r : PanicValue)
| RunBlocks.

(** What a call of [Terminate()] does: it returns after [took]
    nanoseconds, or it never returns. *)
Inductive TerminateOutcome : Type :=
| TerminateReturns (err : option error) (took : N)
| TerminateBlocks.

(** [zerolog.Logger]; [newLogger] names it. *)
Inductive Logger : Type := MkLogger (name : string).

(** A worker, seen through the interfaces [Worker], [Aliver] and
    [Healther].  [Init k] is what the [k]-th call of [Init] returns.
    [Alive = None] means that the worker does not implement [Aliver];
    [Alive = Some r] that it does and [Alive()] returns [r]; likewise
    [Healthy] for [Healther].  A panic is one of the outcomes of [Run]
    only, the one method whose panics the supervisor has code for
    ([recoverWait]); [Init], [Terminate], [Alive] and [Healthy] are taken
    not to panic, and a registered worker is never the nil interface. *)
Record Worker : Type := {
  Init : nat -> option error;
  Run : RunOutcome;
  Terminate : TerminateOutcome;
  Alive : option (option error);
  Healthy : option (option error);
}.

(** [retry.Do(f, opts...)] of retry-go, for the options [opts]: it calls [f]
    some number of times and returns the final error.  The options are
    kept as the function they stand for. *)
Definition RetryOpts : Type := (nat -> option error) -> option error.

(* ===================================================================== *)
(** ** Events, results and the monad *)
(* ===================================================================== *)

Inductive Level : Type := DebugLevel | InfoLevel | WarnLevel | ErrorLevel | FatalLevel.

Inductive Signal : Type := SIGINT | SIGTERM | SIGHUP.

(** The case of the [select] in [Run] that fires. *)
Inductive Terminal : Type :=
| TError (err : error)
| TSignal (sig : Signal)
| TAllDone.

(** One call of [Terminate] made by the terminating goroutine: the worker,
    the time it starts and, when it returns, the time it ends and the error
    it returns.  Times count from the start of [terminateWorkers].  The log
    entries of the goroutine follow from the call: "Terminated with error"
    when [tcErr] is an error, then "Worker terminated". *)
Record TerminateCall : Type := {
  tcName : string;
  tcStart : N;
  tcEnd : option N;
  tcErr : option error;
}.

(** What [Run] and the other methods are seen to do, in the order of the
    calling goroutine: a log call; the end of a worker's [Init] step with
    its error; the start of a worker's goroutine; the case of the [select]
    that fires; the start of the terminating goroutine, with all the calls
    of [Terminate] it makes and the time of its [wg.Done()], when it gets
    there; the end of the wait of [waitGroupTimeout], with the time
    waited. *)
Inductive Event : Type :=
| ELog (lvl : Level) (msg : string) (field : option string)
| EInit (name : string) (res : option error)
| ELaunch (name : string)
| ESelect (t : Terminal)
| ETerminator (calls : list TerminateCall) (finished : option N)
| EWaited (elapsed : N).

(** The panics of the model: a method called on a nil pointer or a nil
    interface, [http.ServeMux] refusing a pattern, and a panic that nothing
    recovers in the terminating goroutine. *)
Inductive Fault : Type :=
| NilDereference
| MultipleRegistrations (pattern : string)
| GoroutinePanic.

(** How a call ends: it returns a value, it panics, the process exits
    ([os.Exit]), or it never returns. *)
Inductive Res (A : Type) : Type :=
| Val (a : A)
| Panicked (f : Fault)
| Exited (code : Z)
| Blocked.
Arguments Val {A} a.
Arguments Panicked {A} f.
Arguments Exited {A} code.
Arguments Blocked {A}.

(* ===================================================================== *)
(** ** The supervisor (svc.go) *)
(* ===================================================================== *)

(** The handlers that the options put on the router. *)
Inductive Handler : Type :=
| HPprof (name : string)
| HLive
| HReady.

(** [http.ServeMux]: the registered patterns, in registration order. *)
Definition ServeMux : Type := list (string * Handler).

Definition defaultTerminationGracePeriod : Z := 15 * 1000000000.
Definition defaultTerminationWaitPeriod : Z := 0 * 1000000000.

(** [type SVC struct].  [Router] and [logger] are pointers: [None] is nil.
    [signals] holds the signals waiting in the buffered channel (capacity
    3).  The fields [zapOpts], [stdLogger], [atom] and [loggerRedirectUndo]
    are not used by any function of the package and are left out. *)
Record SVC : Type := {
  Name : string;
  Version : string;
  Router : option ServeMux;
  TerminationGracePeriod : Z;
  TerminationWaitPeriod : Z;
  signals : list Signal;
  logger : option Logger;
  workers : gmap string Worker;
  workerInitRetryOpts : gmap string RetryOpts;
  workersAdded : list string;
  workersInitialized : list string;
}.

Definition setRouter (r : option ServeMux) (s : SVC) : SVC :=
  {| Name := Name s; Version := Version s; Router := r;
     TerminationGracePeriod := TerminationGracePeriod s;
     TerminationWaitPeriod := TerminationWaitPeriod s;
     signals := signals s; logger := logger s; workers := workers s;
     workerInitRetryOpts := workerInitRetryOpts s;
     workersAdded := workersAdded s;
     workersInitialized := workersInitialized s |}.

Definition setTerminationGracePeriod (d : Z) (s : SVC) : SVC :=
  {| Name := Name s; Version := Version s; Router := Router s;
     TerminationGracePeriod := d;
     TerminationWaitPeriod := TerminationWaitPeriod s;
     signals := signals s; logger := logger s; workers := workers s;
     workerInitRetryOpts := workerInitRetryOpts s;
     workersAdded := workersAdded s;
     workersInitialized := workersInitialized s |}.

Definition setTerminationWaitPeriod (d : Z) (s : SVC) : SVC :=
  {| Name := Name s; Version := Version s; Router := Router s;
     TerminationGracePeriod := TerminationGracePeriod s;
     TerminationWaitPeriod := d;
     signals := signals s; logger := logger s; workers := workers s;
     workerInitRetryOpts := workerInitRetryOpts s;
     workersAdded := workersAdded s;
     workersInitialized := workersInitialized s |}.

Definition setSignals (q : list Signal) (s : SVC) : SVC :=
  {| Name := Name s; Version := Version s; Router := Router s;
     TerminationGracePeriod := TerminationGracePeriod s;
     TerminationWaitPeriod := TerminationWaitPeriod s;
     signals := q; logger := logger s; workers := workers s;
     workerInitRetryOpts := workerInitRetryOpts s;
     workersAdded := workersAdded s;
     workersInitialized := workersInitialized s |}.

(** [s.workersAdded = append(s.workersAdded, name); s.workers[name] = w] *)
Definition addWorkerEntry (name : string) (w : Worker) (s : SVC) : SVC :=
  {| Name := Name s; Version := Version s; Router := Router s;
     TerminationGracePeriod := TerminationGracePeriod s;
     TerminationWaitPeriod := TerminationWaitPeriod s;
     signals := signals s; logger := logger s;
     workers := <[name := w]> (workers s);
     workerInitRetryOpts := workerInitRetryOpts s;
     workersAdded := workersAdded s ++ [name];
     workersInitialized := workersInitialized s |}.

(** [s.workerInitRetryOpts[name] = retryOpts] *)
Definition setInitRetryOpts (name : string) (opts : RetryOpts) (s : SVC) : SVC :=
  {| Name := Name s; Version := Version s; Router := Router s;
     TerminationGracePeriod := TerminationGracePeriod s;
     TerminationWaitPeriod := TerminationWaitPeriod s;
     signals := signals s; logger := logger s; workers := workers s;
     workerInitRetryOpts := <[name := opts]> (workerInitRetryOpts s);
     workersAdded := workersAdded s;
     workersInitialized := workersInitialized s |}.

(** [s.workersInitialized = append(s.workersInitialized, name)] *)
Definition appendInitialized (name : string) (s : SVC) : SVC :=
  {| Name := Name s; Version := Version s; Router := Router s;
     TerminationGracePeriod := TerminationGracePeriod s;
     TerminationWaitPeriod := TerminationWaitPeriod s;
     signals := signals s; logger := logger s; workers := workers s;
     workerInitRetryOpts := workerInitRetryOpts s;
     workersAdded := workersAdded s;
     workersInitialized := workersInitialized s ++ [name] |}.

(** *** The monad of the methods of [*SVC] *)

Definition M (A : Type) : Type := SVC -> list Event * SVC * Res A.

Definition ret {A} (a : A) : M A := fun s => ([], s, Val a).

Definition bind {A B} (m : M A) (k : A -> M B) : M B := fun s =>
  match m s with
  | (t1, s1, Val a) =>
      match k a s1 with (t2, s2, r) => (t1 ++ t2, s2, r) end
  | (t1, s1, Panicked f) => (t1, s1, Panicked f)
  | (t1, s1, Exited c) => (t1, s1, Exited c)
  | (t1, s1, Blocked) => (t1, s1, Blocked)
  end.

Notation "x <- m ;; k" := (bind m (fun x => k))
  (at level 100, m at next level, right associativity).
Notation "m ;; k" := (bind m (fun _ => k))
  (at level 100, right associativity).

Definition get : M SVC := fun s => ([], s, Val s).
Definition modify (f : SVC -> SVC) : M unit := fun s => ([], f s, Val tt).
Definition emit (e : Event) : M unit := fun s => ([e], s, Val tt).
Definition panic {A} (f : Fault) : M A := fun s => ([], s, Panicked f).
Definition block {A} : M A := fun s => ([], s, Blocked).

Definition trace {S A} (r : list Event * S * Res A) : list Event := r.1.1.
Definition final {S A} (r : list Event * S * Res A) : S := r.1.2.
Definition result {S A} (r : list Event * S * Res A) : Res A := r.2.

(** A leveled call on [s.logger], such as
    [s.logger.Info().Any("worker", name).Msg("...")].  The methods of
    [*zerolog.Logger] read the logger they are called on, so a nil logger
    is a nil pointer dereference; an event of level [Fatal] ends the
    process with [os.Exit(1)] once it is written. *)
Definition logMsg (lvl : Level) (msg : string) (field : option string) : M unit :=
  fun s =>
    match logger s with
    | None => ([], s, Panicked NilDereference)
    | Some _ =>
        match lvl with
        | FatalLevel => ([ELog lvl msg field], s, Exited 1)
        | _ => ([ELog lvl msg field], s, Val tt)
        end
    end.

(** [defer]: the deferred call runs when the body returns or panics, not
    when the process exits or the body never returns; a panic of the
    deferred call replaces the one of the body. *)
Definition defer {A} (body : M A) (deferred : M unit) : M A := fun s =>
  match body s with
  | (t1, s1, Val a) =>
      match deferred s1 with
      | (t2, s2, Val _) => (t1 ++ t2, s2, Val a)
      | (t2, s2, Panicked f) => (t1 ++ t2, s2, Panicked f)
      | (t2, s2, Exited c) => (t1 ++ t2, s2, Exited c)
      | (t2, s2, Blocked) => (t1 ++ t2, s2, Blocked)
      end
  | (t1, s1, Panicked f) =>
      match deferred s1 with
      | (t2, s2, Val _) => (t1 ++ t2, s2, Panicked f)
      | (t2, s2, Panicked f') => (t1 ++ t2, s2, Panicked f')
      | (t2, s2, Exited c) => (t1 ++ t2, s2, Exited c)
      | (t2, s2, Blocked) => (t1 ++ t2, s2, Blocked)
      end
  | (t1, s1, Exited c) => (t1, s1, Exited c)
  | (t1, s1, Blocked) => (t1, s1, Blocked)
  end.

(** *** Registration *)

Definition implements (cap : option (option error)) : bool :=
  match cap with Some _ => true | None => false end.

(** [func (s *SVC) AddWorker(name string, w Worker)] *)
Definition AddWorker (name : string) (w : Worker) : M unit :=
  s <- get ;;
  match workers s !! name with
  | Some _ => logMsg FatalLevel "Duplicate worker names!" (Some name)
  | None => ret tt
  end ;;
  (if implements (Healthy w) then ret tt
   else logMsg InfoLevel "Worker does not implement Healther interface" (Some name)) ;;
  (if implements (Alive w) then ret tt
   else logMsg InfoLevel "Worker does not implement Aliver interface" (Some name)) ;;
  modify (addWorkerEntry name w).

(** [func (s *SVC) AddWorkerWithInitRetry(name string, w Worker, retryOpts []retry.Option)] *)
Definition AddWorkerWithInitRetry (name : string) (w : Worker) (retryOpts : RetryOpts) : M unit :=
  AddWorker name w ;;
  modify (setInitRetryOpts name retryOpts).

(** [func (s *SVC) Logger() *zerolog.Logger]; the name [Logger] is taken by
    the type. *)
Definition SVC_Logger (s : SVC) : option Logger := logger s.

(** [func (s *SVC) newLogger(name string) *zerolog.Logger] (logger.go) *)
Definition newLogger (s : SVC) (name : string) : option Logger := Some (MkLogger name).

(** [func (s *SVC) Shutdown()]: a send on the buffered channel, which waits
    while the buffer is full. *)
Definition Shutdown : M unit :=
  s <- get ;;
  if (length (signals s) <? 3)%nat
  then modify (setSignals (signals s ++ [SIGTERM]))
  else block.

(** *** Termination *)

(** The loop [for _, name := range s.workersInitialized { defer ... }] of
    the terminating goroutine: each pass pushes one deferred call. *)
Definition pushDefers (names : list string) : list string :=
  fold_left (fun stack name => name :: stack) names [].

(** The deferred calls run from the top of the stack, one after the other,
    when the goroutine's function ends.  Each one looks the worker up and
    calls [Terminate]; a worker missing from the map is a nil interface, so
    the call panics, the deferred calls below still run, and the goroutine
    then brings the process down.  Under the whole stack lies [wg.Done()]:
    it runs at the time given back as [Some _], and never when a
    [Terminate] does not return.  The result is the calls made, the time
    of [wg.Done()], and whether a call panicked. *)
Fixpoint runDeferred (ws : gmap string Worker) (stack : list string) (now : N)
  : list TerminateCall * option N * bool :=
  match stack with
  | [] => ([], Some now, false)
  | name :: below =>
      match ws !! name with
      | None =>
          match runDeferred ws below now with
          | (calls, fin, _) => (calls, fin, true)
          end
      | Some w =>
          match Terminate w with
          | TerminateBlocks =>
              ([{| tcName := name; tcStart := now; tcEnd := None; tcErr := None |}],
               None, false)
          | TerminateReturns err took =>
              match runDeferred ws below (now + took)%N with
              | (calls, fin, crashed) =>
                  ({| tcName := name; tcStart := now; tcEnd := Some (now + took)%N;
                      tcErr := err |} :: calls, fin, crashed)
              end
          end
      end
  end.

(** The goroutine started by [terminateWorkers]:
    [time.Sleep(s.TerminationWaitPeriod)], the loop of defers, then the
    deferred calls.  [time.Sleep] of a negative duration returns at once. *)
Definition terminator (s : SVC) : list TerminateCall * option N * bool :=
  runDeferred (workers s) (pushDefers (workersInitialized s))
              (Z.to_N (TerminationWaitPeriod s)).

(** [func waitGroupTimeout(wg *sync.WaitGroup, d time.Duration)]: the
    [select] returns when the wait group is done or when [time.After(d)]
    fires, whichever comes first; the result is the time it has waited. *)
Definition waitGroupTimeout (finished : option N) (d : Z) : N :=
  match finished with
  | Some t => N.min t (Z.to_N d)
  | None => Z.to_N d
  end.

(** [func (s *SVC) terminateWorkers()].  The goroutine is not stopped when
    the wait ends: [ETerminator] records all the calls it makes, also those
    that start after [EWaited]. *)
Definition terminateWorkers : M unit :=
  logMsg InfoLevel "Terminating workers down service" (Some "termination_grace_period") ;;
  s <- get ;;
  match terminator s with
  | (calls, finished, crashed) =>
      emit (ETerminator calls finished) ;;
      (if crashed then panic GoroutinePanic else ret tt) ;;
      emit (EWaited (waitGroupTimeout finished (TerminationGracePeriod s))) ;;
      logMsg InfoLevel "All workers terminated" None
  end.

(** *** The run phase *)

(** What the goroutine of one worker does once [Run] has ended, in order:
    [wg.Done()], the log entry "recover panic", a send on the channel
    [errs]; [ANever] when [Run] does not end, [ACrash] when the deferred
    call itself panics, which brings the process down. *)
Inductive UnitAction : Type :=
| ADone
| ALogRecover (name : string) (err : error)
| ASend (err : error)
| ANever
| ACrash.

(** [func (s *SVC) recoverWait(name string, wg *sync.WaitGroup, errors chan<- error)],
    the deferred call of each worker's goroutine; [r] is what [recover()]
    returns. *)
Definition recoverWait (s : SVC) (name : string) (r : option PanicValue)
  : list UnitAction :=
  ADone ::
  match r with
  | None => []
  | Some (PanicError err) =>
      match logger s with
      | None => [ACrash]
      | Some _ => [ALogRecover name err; ASend err]
      end
  | Some (PanicOther text) => [ASend (ErrText text)]
  end.

(** The goroutine [go func(name string, w Worker) { ... }(name, w)] of
    [Run]. *)
Definition runUnit (s : SVC) (name : string) (w : Worker) : list UnitAction :=
  match Run w with
  | RunReturns None => recoverWait s name None
  | RunReturns (Some err) => ASend (errorfExited name err) :: recoverWait s name None
  | RunPanics r => recoverWait s name (Some r)
  | RunBlocks => [ANever]
  end.

(** The errors a goroutine offers on the channel [errs]. *)
Definition sends (acts : list UnitAction) : list error :=
  omap (fun a => match a with ASend e => Some e | _ => None end) acts.

(** A goroutine reaches [wg.Done()] on its own when no send comes before
    it: the channel has no buffer and [Run] receives once. *)
Definition doneUnaided (acts : list UnitAction) : bool :=
  match acts with
  | ADone :: _ => true
  | _ => false
  end.

Definition signalString (sig : Signal) : string :=
  match sig with
  | SIGINT => "interrupt"
  | SIGTERM => "terminated"
  | SIGHUP => "hangup"
  end.

(** Which case of the [select] of [Run] can fire: an error that some
    goroutine sends, a signal (one in the buffer, or one that the operating
    system delivers), or the wait group once every goroutine is done. *)
Definition selectable (s : SVC) (t : Terminal) : Prop :=
  match t with
  | TError err =>
      exists name w, workers s !! name = Some w /\ err ∈ sends (runUnit s name w)
  | TSignal _ => True
  | TAllDone =>
      forall name w, workers s !! name = Some w -> doneUnaided (runUnit s name w) = true
  end.

(** The loop [for _, name := range s.workersAdded] of [Run].  The result
    is [false] when the loop leaves [Run] by its [return]. *)
Fixpoint initWorkers (names : list string) : M bool :=
  match names with
  | [] => ret true
  | name :: rest =>
      logMsg DebugLevel "Initializing worker" (Some name) ;;
      s <- get ;;
      match workers s !! name with
      | None => panic NilDereference
      | Some w =>
          let err :=
            match workerInitRetryOpts s !! name with
            | Some opts => opts (Init w)
            | None => Init w 0
            end in
          emit (EInit name err) ;;
          match err with
          | Some _ =>
              logMsg ErrorLevel "Could not initialize worker" (Some name) ;;
              ret false
          | None =>
              modify (appendInitialized name) ;;
              initWorkers rest
          end
      end
  end.

(** The loop [for name, w := range s.workers] that starts the goroutines.
    They run side by side: the order of the [ELaunch] events has no
    meaning. *)
Definition launchWorkers : M unit := fun s =>
  (map (fun nw => ELaunch nw.1) (map_to_list (workers s)), s, Val tt).

(** The case of the [select] of [Run] that fires and what it receives.
    [first] is the case that the scheduler picks, [None] when neither a
    goroutine nor the operating system ever makes one ready; [buffer] is
    what the channel [s.signals] holds.  A receive from the channel takes
    the oldest signal of the buffer; when the buffer is empty the signal is
    the one that the operating system delivers through [signal.Notify].
    The [select] does not wait while the buffer holds a signal.  A signal
    of the operating system that arrives while the buffer holds one, and
    would queue behind it, is not part of the model. *)
Definition fires (first : option Terminal) (buffer : list Signal) : option Terminal :=
  match first, buffer with
  | Some (TSignal _), q :: _ => Some (TSignal q)
  | None, q :: _ => Some (TSignal q)
  | _, _ => first
  end.

(** The [select] of [Run].  The case [sig := <-s.signals] takes the signal
    that it receives out of the buffer. *)
Definition selectTerminal (first : option Terminal) : M unit :=
  s <- get ;;
  match fires first (signals s) with
  | None => block
  | Some t =>
      emit (ESelect t) ;;
      match t with
      | TError err =>
          (if negb (isCanceled err)
           then logMsg FatalLevel "Worker Init/Run failure" (Some (errorText err))
           else ret tt) ;;
          logMsg WarnLevel "Worker context canceled" (Some (errorText err))
      | TSignal sig =>
          modify (setSignals (tail (signals s))) ;;
          logMsg WarnLevel "Caught signal" (Some (signalString sig))
      | TAllDone => logMsg InfoLevel "All workers have finished" None
      end
  end.

(** The deferred function of [Run]: the shutdown path. *)
Definition shutdownPath : M unit :=
  logMsg InfoLevel "Shutting down service" (Some "termination_grace_period") ;;
  terminateWorkers ;;
  logMsg InfoLevel "Service shutdown completed" None.

(** [func (s *SVC) Run()].  The first log call comes before the [defer].
    The name [Run] is taken by the method of [Worker]. *)
Definition SVC_Run (first : option Terminal) : M unit :=
  logMsg InfoLevel "Starting up service" None ;;
  defer
    (s <- get ;;
     ok <- initWorkers (workersAdded s) ;;
     if ok : bool then
       launchWorkers ;;
       selectTerminal first
     else ret tt)
    shutdownPath.

(* ===================================================================== *)
(** ** Options and the constructor (options.go, svc.go) *)
(* ===================================================================== *)

(** [s.Router.HandleFunc(pattern, h)] and [s.Router.Handle(pattern, h)]: a
    nil router is dereferenced, and [http.ServeMux] panics on a pattern
    that is registered already. *)
Definition HandleFunc (pattern : string) (h : Handler) : M unit :=
  s <- get ;;
  match Router s with
  | None => panic NilDereference
  | Some mux =>
      if bool_decide (pattern ∈ mux.*1)
      then panic (MultipleRegistrations pattern)
      else modify (setRouter (Some (mux ++ [(pattern, h)])))
  end.

(** The options of options.go.  [Option] is the type of the functions from a pointer to [SVC] to [error]; each
    constructor stands for the closure that the function of that name
    returns. *)
Inductive Option : Type :=
| WithTerminationWaitPeriod (d : Z)
| WithTerminationGracePeriod (d : Z)
| WithRouter (router : option ServeMux)
| WithPProfHandlers
| WithHealthz.

Definition applyOption (o : Option) : M (option error) :=
  match o with
  | WithTerminationWaitPeriod d =>
      modify (setTerminationWaitPeriod d) ;; ret None
  | WithTerminationGracePeriod d =>
      modify (setTerminationGracePeriod d) ;; ret None
  | WithRouter router =>
      modify (setRouter router) ;; ret None
  | WithPProfHandlers =>
      HandleFunc "/debug/pprof/" (HPprof "index") ;;
      HandleFunc "/debug/pprof/cmdline" (HPprof "cmdline") ;;
      HandleFunc "/debug/pprof/profile" (HPprof "profile") ;;
      HandleFunc "/debug/pprof/symbol" (HPprof "symbol") ;;
      HandleFunc "/debug/pprof/trace" (HPprof "trace") ;;
      HandleFunc "/debug/pprof/allocs" (HPprof "allocs") ;;
      HandleFunc "/debug/pprof/block" (HPprof "block") ;;
      HandleFunc "/debug/pprof/goroutine" (HPprof "goroutine") ;;
      HandleFunc "/debug/pprof/heap" (HPprof "heap") ;;
      HandleFunc "/debug/pprof/mutex" (HPprof "mutex") ;;
      HandleFunc "/debug/pprof/threadcreate" (HPprof "threadcreate") ;;
      ret None
  | WithHealthz =>
      HandleFunc "/live" HLive ;;
      HandleFunc "/ready" HReady ;;
      ret None
  end.

(** The loop [for _, o := range opts] of [New]; [Some err] when an option
    returns an error. *)
Fixpoint applyOptions (opts : list Option) : M (option error) :=
  match opts with
  | [] => ret None
  | o :: rest =>
      err <- applyOption o ;;
      match err with
      | Some e => ret (Some e)
      | None => applyOptions rest
      end
  end.

(** The struct literal of [New].  It names no [logger]: the field has its
    zero value, nil. *)
Definition newSVC (name version : string) : SVC :=
  {| Name := name; Version := version;
     Router := Some [];
     TerminationGracePeriod := defaultTerminationGracePeriod;
     TerminationWaitPeriod := defaultTerminationWaitPeriod;
     signals := [];
     logger := None;
     workers := ∅;
     workerInitRetryOpts := ∅;
     workersAdded := [];
     workersInitialized := [] |}.

(** [func New(name, version string, opts ...Option)], which returns a
    pointer to [SVC] and an [error]. *)
Definition New (name version : string) (opts : list Option)
  : Res (option SVC * option error) :=
  match applyOptions opts (newSVC name version) with
  | (_, s, Val None) => Val (Some s, None)
  | (_, _, Val (Some err)) => Val (None, Some err)
  | (_, _, Panicked f) => Panicked f
  | (_, _, Exited c) => Exited c
  | (_, _, Blocked) => Blocked
  end.

(* ===================================================================== *)
(** ** The health probes (options.go, [WithHealthz]) *)
(* ===================================================================== *)

(** [http.ResponseWriter]: the header map of the handler, and what has
    gone out: the status code and the headers, fixed by the first
    [WriteHeader], and the body.  Setting a header after [WriteHeader]
    changes the map and not the response.  The content type that net/http
    guesses for a body sent without one is not part of the model. *)
Record ResponseWriter : Type := {
  header : gmap string string;
  wroteHeader : bool;
  status : Z;
  sentHeader : gmap string string;
  body : string;
}.

Definition newResponse : ResponseWriter :=
  {| header := ∅; wroteHeader := false; status := 0; sentHeader := ∅; body := "" |}.

(** [w.Header().Set(k, v)] *)
Definition headerSet (k v : string) (rw : ResponseWriter) : ResponseWriter :=
  {| header := <[k := v]> (header rw); wroteHeader := wroteHeader rw;
     status := status rw; sentHeader := sentHeader rw; body := body rw |}.

(** [w.WriteHeader(code)] *)
Definition writeHeader (code : Z) (rw : ResponseWriter) : ResponseWriter :=
  if wroteHeader rw then rw
  else {| header := header rw; wroteHeader := true; status := code;
          sentHeader := header rw; body := body rw |}.

(** [w.Write(b)]: sends the header with status 200 when none went out. *)
Definition write (b : string) (rw : ResponseWriter) : ResponseWriter :=
  let rw' := writeHeader 200 rw in
  {| header := header rw'; wroteHeader := wroteHeader rw'; status := status rw';
     sentHeader := sentHeader rw'; body := (body rw' ++ b)%string |}.

Definition newline : string := String (ascii_of_nat 10) EmptyString.
Definition dquote : string := String (ascii_of_nat 34) EmptyString.

(** [http.Error(w, msg, code)] *)
Definition httpError (msg : string) (code : Z) (rw : ResponseWriter) : ResponseWriter :=
  write (msg ++ newline)%string
    (writeHeader code
       (headerSet "X-Content-Type-Options" "nosniff"
          (headerSet "Content-Type" "text/plain; charset=utf-8" rw))).

(** What the server sends once the handler has returned: a handler that
    wrote nothing answers 200 with an empty body. *)
Definition finish (rw : ResponseWriter) : ResponseWriter := writeHeader 200 rw.

Definition StatusServiceUnavailable : Z := 503.
Definition StatusInternalServerError : Z := 500.

(** The body that the live probe writes on success. *)
Definition stillAlive : string :=
  ("{" ++ dquote ++ "status" ++ dquote ++ ": " ++ dquote ++ "Still Alive!"
       ++ dquote ++ "}")%string.

(** The loop of the live probe over [s.workers]; [iter] is the order in
    which [range] yields the entries of the map and [errs] the slice built
    so far. *)
Fixpoint liveErrs (iter : list (string * Worker)) (errs : list error) : list error :=
  match iter with
  | [] => errs
  | (n, w) :: rest =>
      match Alive w with
      | Some (Some err) => liveErrs rest (errs ++ [errorfWorker n err])
      | Some None => liveErrs rest errs
      | None => liveErrs rest errs
      end
  end.

(** The loop of the ready probe. *)
Fixpoint readyErrs (iter : list (string * Worker)) (errs : list error) : list error :=
  match iter with
  | [] => errs
  | (n, w) :: rest =>
      match Healthy w with
      | Some (Some err) => readyErrs rest (errs ++ [errorfWorker n err])
      | Some None => readyErrs rest errs
      | None => readyErrs rest errs
      end
  end.

(** [range] over a Go map yields every entry once, in an order that is not
    fixed. *)
Definition ranges (s : SVC) (iter : list (string * Worker)) : Prop :=
  iter ≡ₚ map_to_list (workers s).

Section Probes.
(** [json.Marshal(map[string]interface{}{"errors": errs})], from
    encoding/json: the bytes, or an error. *)
Variable jsonMarshal : list error -> string + error.

(** The handler of [/live]. *)
Definition liveHandler (s : SVC) (iter : list (string * Worker)) (rw : ResponseWriter)
  : list Event * ResponseWriter * Res unit :=
  let errs := liveErrs iter [] in
  if (length errs =? 0)%nat then
    ([], write stillAlive (headerSet "Content-Type" "application/json" rw), Val tt)
  else
    match logger s with
    | None => ([], rw, Panicked NilDereference)
    | Some _ =>
        let ev := ELog WarnLevel "liveliness probe failed" (Some "errors") in
        match jsonMarshal errs with
        | inr err =>
            ([ev], httpError (errorText err) StatusInternalServerError rw, Val tt)
        | inl b =>
            ([ev],
             write b (writeHeader StatusServiceUnavailable
                        (headerSet "Content-Type" "application/json" rw)),
             Val tt)
        end
    end.

(** The handler of [/ready]. *)
Definition readyHandler (s : SVC) (iter : list (string * Worker)) (rw : ResponseWriter)
  : list Event * ResponseWriter * Res unit :=
  let errs := readyErrs iter [] in
  if (0 <? length errs)%nat then
    match logger s with
    | None => ([], rw, Panicked NilDereference)
    | Some _ =>
        let ev := ELog WarnLevel "Ready check failed" (Some "errors") in
        match jsonMarshal errs with
        | inr err =>
            ([ev], httpError (errorText err) StatusInternalServerError rw, Val tt)
        | inl b =>
            ([ev],
             write b (headerSet "Content-Type" "application/json"
                        (writeHeader StatusServiceUnavailable rw)),
             Val tt)
        end
    end
  else ([], rw, Val tt).
End Probes.

(* ===================================================================== *)
(** ** Registrations and what a trace shows *)
(* ===================================================================== *)

(** One call of [AddWorker] or of [AddWorkerWithInitRetry]. *)
Inductive Registration : Type :=
| Add (name : string) (w : Worker)
| AddWithInitRetry (name : string) (w : Worker) (retryOpts : RetryOpts).

Definition regName (r : Registration) : string :=
  match r with
  | Add name _ => name
  | AddWithInitRetry name _ _ => name
  end.

Definition register (r : Registration) : M unit :=
  match r with
  | Add name w => AddWorker name w
  | AddWithInitRetry name w retryOpts => AddWorkerWithInitRetry name w retryOpts
  end.

(** The registrations made on a supervisor before [Run], in order. *)
Fixpoint registerAll (regs : list Registration) : M unit :=
  match regs with
  | [] => ret tt
  | r :: rest => register r ;; registerAll rest
  end.

(** A supervisor on which nothing is registered and that has not run. *)
Definition fresh (s : SVC) : Prop :=
  workers s = ∅ /\ workerInitRetryOpts s = ∅ /\
  workersAdded s = [] /\ workersInitialized s = [].

(** [s] is what the registrations [regs], all returning, make of a fresh
    supervisor. *)
Definition registered (regs : list Registration) (s : SVC) : Prop :=
  exists s0 t, fresh s0 /\ registerAll regs s0 = (t, s, Val tt).

(** The calls of [Terminate] that a trace shows, in the order they are
    made. *)
Definition terminateCalls (t : list Event) : list TerminateCall :=
  flat_map (fun e => match e with ETerminator calls _ => calls | _ => [] end) t.

Definition terminated (t : list Event) : list string :=
  map tcName (terminateCalls t).

(** The call did not finish, or did not start, before [now]. *)
Definition outstanding (now : N) (c : TerminateCall) : Prop :=
  match tcEnd c with
  | Some e => (now < e)%N
  | None => True
  end.

(** No two calls overlap: a call that comes later in the list starts when
    every earlier one has returned. *)
Definition sequential (calls : list TerminateCall) : Prop :=
  forall i j ci cj, (i < j)%nat ->
    calls !! i = Some ci -> calls !! j = Some cj ->
    exists e, tcEnd ci = Some e /\ (tcStart ci <= e)%N /\ (e <= tcStart cj)%N.

(** The calls follow one another from [now] on: each starts when the one
    before it has returned, and a call that does not return is the last. *)
Fixpoint chained (now : N) (calls : list TerminateCall) : Prop :=
  match calls with
  | [] => True
  | c :: rest =>
      (now <= tcStart c)%N /\
      match tcEnd c with
      | Some e => (tcStart c <= e)%N /\ chained e rest
      | None => rest = []
      end
  end.

(** Every registered worker's [Terminate] returns. *)
Definition terminatesAll (s : SVC) : Prop :=
  forall n w, workers s !! n = Some w -> Terminate w <> TerminateBlocks.

(** The outcome of the step [Init], under the retry options when the
    worker has some; [None] for a name that has no worker. *)
Definition initOf (s : SVC) (name : string) : option (option error) :=
  match workers s !! name with
  | None => None
  | Some w =>
      Some match workerInitRetryOpts s !! name with
           | Some opts => opts (Init w)
           | None => Init w 0
           end
  end.

(** The events of the loop of [Run] for workers whose [Init] returns nil. *)
Definition initEvents (names : list string) : list Event :=
  flat_map (fun n => [ELog DebugLevel "Initializing worker" (Some n); EInit n None]) names.

(** [s] with another slice [workersInitialized]. *)
Definition withInitialized (l : list string) (s : SVC) : SVC :=
  {| Name := Name s; Version := Version s; Router := Router s;
     TerminationGracePeriod := TerminationGracePeriod s;
     TerminationWaitPeriod := TerminationWaitPeriod s;
     signals := signals s; logger := logger s; workers := workers s;
     workerInitRetryOpts := workerInitRetryOpts s;
     workersAdded := workersAdded s;
     workersInitialized := l |}.

(** The first event of [Run]. *)
Definition startEvent : Event := ELog InfoLevel "Starting up service" None.

(** The events of one pass of the loop of [Run] that ends in [return]. *)
Definition failEvents (name : string) (e : error) : list Event :=
  [ELog DebugLevel "Initializing worker" (Some name); EInit name (Some e);
   ELog ErrorLevel "Could not initialize worker" (Some name)].

Definition launchEvents (s : SVC) : list Event :=
  map (fun nw => ELaunch nw.1) (map_to_list (workers s)).

(** The events of the [select] of [Run] when the case [t] fires, and whether
    that case ends the process. *)
Definition selectEvents (t : Terminal) : list Event :=
  ESelect t ::
  match t with
  | TError err =>
      if isCanceled err
      then [ELog WarnLevel "Worker context canceled" (Some (errorText err))]
      else [ELog FatalLevel "Worker Init/Run failure" (Some (errorText err))]
  | TSignal sig => [ELog WarnLevel "Caught signal" (Some (signalString sig))]
  | TAllDone => [ELog InfoLevel "All workers have finished" None]
  end.

Definition selectExits (t : Terminal) : bool :=
  match t with
  | TError err => negb (isCanceled err)
  | _ => false
  end.

(** The supervisor after the case [t] of the [select] has fired: a signal
    that is received leaves the buffer. *)
Definition received (t : Terminal) (s : SVC) : SVC :=
  setSignals match t with
             | TSignal _ => tail (signals s)
             | _ => signals s
             end s.

(** The events of the shutdown path when it runs to its end. *)
Definition shutdownEvents (s : SVC) : list Event :=
  match terminator s with
  | (calls, fin, _) =>
      [ELog InfoLevel "Shutting down service" (Some "termination_grace_period");
       ELog InfoLevel "Terminating workers down service" (Some "termination_grace_period");
       ETerminator calls fin;
       EWaited (waitGroupTimeout fin (TerminationGracePeriod s));
       ELog InfoLevel "All workers terminated" None;
       ELog InfoLevel "Service shutdown completed" None]
  end.

(** What a trace shows of each kind of event. *)
Definition initCalls (t : list Event) : list (string * option error) :=
  omap (fun e => match e with EInit n r => Some (n, r) | _ => None end) t.
Definition launches (t : list Event) : list string :=
  omap (fun e => match e with ELaunch n => Some n | _ => None end) t.
Definition selections (t : list Event) : list Terminal :=
  omap (fun e => match e with ESelect c => Some c | _ => None end) t.
Definition terminators (t : list Event) : list (list TerminateCall * option N) :=
  omap (fun e => match e with ETerminator calls fin => Some (calls, fin) | _ => None end) t.
Definition waits (t : list Event) : list N :=
  omap (fun e => match e with EWaited w => Some w | _ => None end) t.

(** The registry is consistent and nothing is initialised yet: the names
    of [workersAdded] are distinct and are the keys of [workers]. *)
Definition wellRegistered (s : SVC) : Prop :=
  workersInitialized s = [] /\ NoDup (workersAdded s) /\
  forall n, n ∈ workersAdded s <-> is_Some (workers s !! n).

(** The shapes that a run of a well registered supervisor takes. *)
Inductive RunShape (first : option Terminal) (s : SVC)
  : list Event * SVC * Res unit -> Prop :=
| ShapeNoLogger :
    logger s = None ->
    RunShape first s ([], s, Panicked NilDereference)
| ShapeBlocked :
    logger s <> None ->
    Forall (fun n => initOf s n = Some None) (workersAdded s) ->
    fires first (signals s) = None ->
    RunShape first s
      (startEvent :: initEvents (workersAdded s) ++ launchEvents s,
       withInitialized (workersAdded s) s, Blocked)
| ShapeExited (t : Terminal) :
    logger s <> None ->
    Forall (fun n => initOf s n = Some None) (workersAdded s) ->
    fires first (signals s) = Some t ->
    selectExits t = true ->
    RunShape first s
      (startEvent :: initEvents (workersAdded s) ++ launchEvents s ++ selectEvents t,
       received t (withInitialized (workersAdded s) s), Exited 1)
| ShapeShutdown (t : Terminal) :
    logger s <> None ->
    Forall (fun n => initOf s n = Some None) (workersAdded s) ->
    fires first (signals s) = Some t ->
    selectExits t = false ->
    RunShape first s
      (startEvent :: initEvents (workersAdded s) ++ launchEvents s ++ selectEvents t
         ++ shutdownEvents (withInitialized (workersAdded s) s),
       received t (withInitialized (workersAdded s) s), Val tt)
| ShapeInitFailed (pre post : list string) (name : string) (e : error) :
    logger s <> None ->
    workersAdded s = pre ++ name :: post ->
    Forall (fun n => initOf s n = Some None) pre ->
    initOf s name = Some (Some e) ->
    RunShape first s
      (startEvent :: initEvents pre ++ failEvents name e
         ++ shutdownEvents (withInitialized pre s),
       withInitialized pre s, Val tt).

(** A computation that leaves the logger and the workers as they are. *)
Definition keeps {A} (m : M A) : Prop :=
  forall s, logger (final (m s)) = logger s /\ workers (final (m s)) = workers s.

(** A registration that does not return: the process exits or panics. *)
Definition fatal {A} (r : Res A) : Prop :=
  match r with
  | Exited _ | Panicked _ => True
  | Val _ | Blocked => False
  end.

(** What has gone out on a response, headers apart. *)
Definition sent (rw : ResponseWriter) : bool * Z * string :=
  (wroteHeader rw, status rw, body rw).

(** The answer of a probe: the status and the body that go out when the
    handler returns; a handler that panics gives no answer. *)
Definition answer (r : list Event * ResponseWriter * Res unit) : option (Z * string) :=
  match r.2 with
  | Val _ => Some (status (finish r.1.2), body (finish r.1.2))
  | _ => None
  end.
Definition answerStatus (r : list Event * ResponseWriter * Res unit) : option Z :=
  fst <$> answer r.

(** The shape that the loops of the two probes share, over the capability
    [cap] that the probe reads. *)
Fixpoint probeErrs (cap : Worker -> option (option error))
    (iter : list (string * Worker)) (errs : list error) : list error :=
  match iter with
  | [] => errs
  | (n, w) :: rest =>
      match cap w with
      | Some (Some err) => probeErrs cap rest (errs ++ [errorfWorker n err])
      | _ => probeErrs cap rest errs
      end
  end.

(** [json.Marshal(map[string]interface{}{"errors": errs})] of
    encoding/json on the slices that the probes build.  Every element is an
    error made by [fmt.Errorf] without the verb [%w], a pointer to a struct
    that has no exported field, and such a value is encoded as the empty
    object [{}] whatever its text is.  So the bytes have one [{}] for each
    error and hold neither the names of the workers nor the texts of their
    errors; a nil slice is encoded as [null].  The call returns no error on
    these values. *)
Fixpoint moreObjects (n : nat) : string :=
  match n with
  | O => EmptyString
  | S k => (",{}" ++ moreObjects k)%string
  end.

Definition errorsJSON (n : nat) : string :=
  ("{" ++ dquote ++ "errors" ++ dquote ++ ":" ++
   match n with
   | O => "null"
   | S k => "[{}" ++ moreObjects k ++ "]"
   end ++ "}")%string.

Definition jsonMarshalErrors (errs : list error) : string + error :=
  inl (errorsJSON (length errs)).

(* ===================================================================== *)
(** ** Workers and supervisors of the examples *)
(* ===================================================================== *)

(** A worker that starts, runs until it is terminated, and is alive and
    healthy. *)
Definition steady : Worker :=
  {| Init := fun _ => None; Run := RunBlocks;
     Terminate := TerminateReturns None 5;
     Alive := Some None; Healthy := Some None |}.

(** A worker whose [Run] returns an error. *)
Definition lost : Worker :=
  {| Init := fun _ => None; Run := RunReturns (Some (ErrText "connection lost"));
     Terminate := TerminateReturns None 5;
     Alive := None; Healthy := None |}.

(** A worker whose [Run] returns [context.Canceled]. *)
Definition canceled : Worker :=
  {| Init := fun _ => None; Run := RunReturns (Some Canceled);
     Terminate := TerminateReturns None 5;
     Alive := None; Healthy := None |}.

(** A worker whose [Run] panics with an error. *)
Definition panicking : Worker :=
  {| Init := fun _ => None; Run := RunPanics (PanicError (ErrText "boom"));
     Terminate := TerminateReturns None 5;
     Alive := None; Healthy := None |}.

(** A worker whose [Init] returns an error. *)
Definition broken : Worker :=
  {| Init := fun _ => Some (ErrText "no configuration"); Run := RunBlocks;
     Terminate := TerminateReturns None 5;
     Alive := None; Healthy := None |}.

(** A worker whose [Terminate] never returns. *)
Definition stuck : Worker :=
  {| Init := fun _ => None; Run := RunBlocks;
     Terminate := TerminateBlocks;
     Alive := None; Healthy := None |}.

(** A worker that reports an error to both probes. *)
Definition sick : Worker :=
  {| Init := fun _ => None; Run := RunBlocks;
     Terminate := TerminateReturns None 5;
     Alive := Some (Some (ErrText "disk full"));
     Healthy := Some (Some (ErrText "disk full")) |}.

(** A supervisor with a logger and nothing registered. *)
Definition logged : SVC :=
  {| Name := "svc"; Version := "v1"; Router := Some [];
     TerminationGracePeriod := defaultTerminationGracePeriod;
     TerminationWaitPeriod := defaultTerminationWaitPeriod;
     signals := []; logger := Some (MkLogger "svc");
     workers := ∅; workerInitRetryOpts := ∅;
     workersAdded := []; workersInitialized := [] |}.

(** The same with a grace period of zero. *)
Definition hasty : SVC := setTerminationGracePeriod 0 logged.

(** Three attempts of [Init], which stop at the first nil. *)
Definition threeAttempts : RetryOpts := fun init =>
  match init 0%nat with
  | None => None
  | Some _ =>
      match init 1%nat with
      | None => None
      | Some _ => init 2%nat
      end
  end.

Definition lostRegs : list Registration := [Add "db" lost].
Definition lostSVC : SVC := final (registerAll lostRegs logged).
Definition lostError : error := errorfExited "db" (ErrText "connection lost").

Definition canceledRegs : list Registration := [Add "api" steady; Add "sub" canceled].
Definition canceledSVC : SVC := final (registerAll canceledRegs logged).
Definition canceledError : error := errorfExited "sub" Canceled.

Definition panickingRegs : list Registration := [Add "db" panicking].
Definition panickingSVC : SVC := final (registerAll panickingRegs logged).

Definition brokenRegs : list Registration :=
  [Add "api" steady; AddWithInitRetry "cache" broken threeAttempts; Add "db" steady].
Definition brokenSVC : SVC := final (registerAll brokenRegs logged).

Definition stuckRegs : list Registration := [Add "api" stuck; Add "db" steady].
Definition stuckSVC : SVC := final (registerAll stuckRegs hasty).

Definition sickRegs : list Registration := [Add "api" steady; Add "disk" sick].
Definition sickSVC : SVC := final (registerAll sickRegs logged).

(** A supervisor on which the name [ghost] was registered with the nil
    interface: the name is in [workersAdded] and the map has no worker for
    it. *)
Definition ghostSVC : SVC :=
  {| Name := "svc"; Version := "v1"; Router := Some [];
     TerminationGracePeriod := defaultTerminationGracePeriod;
     TerminationWaitPeriod := defaultTerminationWaitPeriod;
     signals := []; logger := Some (MkLogger "svc");
     workers := {[ "api" := steady; "db" := steady ]}; workerInitRetryOpts := ∅;
     workersAdded := ["api"; "db"; "ghost"; "cache"]; workersInitialized := [] |}.

(** The options of the examples and what they make of a new supervisor. *)
Definition periodOptions : list Option :=
  [WithTerminationGracePeriod 7; WithHealthz; WithTerminationWaitPeriod 3].
Definition periodSVC : SVC := final (applyOptions periodOptions (newSVC "svc" "v1")).

(** The worker of the minimal example program: [Init] and [Terminate]
    return nil, [Run] is [select {}], and it has neither capability. *)
Definition dummyWorker : Worker :=
  {| Init := fun _ => None; Run := RunBlocks;
     Terminate := TerminateReturns None 0;
     Alive := None; Healthy := None |}.

(** The worker of the second case of [TestHealthy] (options_test.go): its
    [Alive] returns an error.  The test leaves [Healthy] unset; the live
    probe does not call it. *)
Definition unwell : Worker :=
  {| Init := fun _ => None; Run := RunReturns None;
     Terminate := TerminateReturns None 0;
     Alive := Some (Some (ErrText "internal error, restart container"));
     Healthy := Some None |}.

(** The supervisor of that test: [New] with [WithHealthz], then
    [AddWorker]. *)
Definition healthzSVC : SVC :=
  final (applyOptions [WithHealthz] (newSVC "dummy-service" "v0.0.0")).
Definition unwellRegs : list Registration := [Add "dummy-worker" unwell].
Definition unwellSVC : SVC := final (registerAll unwellRegs healthzSVC).


(* ===================================================================== *)
(** ** The rest of svc.go and what the further properties speak of *)
(* ===================================================================== *)

(** How a call of [MustInit] ends: it returns its first argument, it panics
    with the error ([panic(err)]), or the [Fatal] log call ends the
    process. *)
Inductive MustInitOutcome : Type :=
| MustReturns (s : option SVC)
| MustPanics (err : error)
| MustExits (entry : Event).

(** [func MustInit(s *SVC, err error) *SVC]; a nil [s] is [None]. *)
Definition MustInit (s : option SVC) (err : option error) : MustInitOutcome :=
  match err with
  | Some e =>
      match s with
      | None => MustPanics e
      | Some s' =>
          match logger s' with
          | None => MustPanics e
          | Some _ =>
              MustExits (ELog FatalLevel "Service initialization failed"
                           (Some (errorText e)))
          end
      end
  | None => MustReturns s
  end.

(** How a program ends: as a call does, or in [panic(err)] with an error. *)
Inductive MainEnd : Type :=
| MainEnds (r : Res unit)
| MainPanicsWith (err : error).

(** [func main()] of the example programs: [s, err := svc.New(...)], then
    [svc.MustInit(s, err)], whose result is dropped, then the calls of
    [s.AddWorker] and [s.Run()].  The name, the version, the options and
    the registrations are those of the program; [first] is the case of the
    [select] that fires in [Run].  The result is what the program logs and
    how it ends. *)
Definition exampleMain (name version : string) (opts : list Option)
    (regs : list Registration) (first : option Terminal) : list Event * MainEnd :=
  match New name version opts with
  | Val (s, err) =>
      match MustInit s err with
      | MustPanics e => ([], MainPanicsWith e)
      | MustExits entry => ([entry], MainEnds (Exited 1))
      | MustReturns _ =>
          match s with
          | None => ([], MainEnds (Panicked NilDereference))
          | Some s1 =>
              let r := (registerAll regs ;; SVC_Run first) s1 in
              (trace r, MainEnds (result r))
          end
      end
  | Panicked f => ([], MainEnds (Panicked f))
  | Exited c => ([], MainEnds (Exited c))
  | Blocked => ([], MainEnds Blocked)
  end.

(** [k] calls of [Shutdown], one after the other. *)
Fixpoint shutdowns (k : nat) : M unit :=
  match k with
  | O => ret tt
  | S k' => Shutdown ;; shutdowns k'
  end.

(** The worker and the retry options of a registration. *)
Definition regWorker (r : Registration) : Worker :=
  match r with
  | Add _ w => w
  | AddWithInitRetry _ w _ => w
  end.

Definition regRetry (r : Registration) : option RetryOpts :=
  match r with
  | Add _ _ => None
  | AddWithInitRetry _ _ retryOpts => Some retryOpts
  end.

(** The worker implements both [Healther] and [Aliver]. *)
Definition reportsBoth (w : Worker) : bool :=
  implements (Healthy w) && implements (Alive w).

(** The routes that an option puts on the router, in the order of its
    calls of [HandleFunc] and [Handle]. *)
Definition optionRoutes (o : Option) : list (string * Handler) :=
  match o with
  | WithPProfHandlers =>
      [("/debug/pprof/", HPprof "index");
       ("/debug/pprof/cmdline", HPprof "cmdline");
       ("/debug/pprof/profile", HPprof "profile");
       ("/debug/pprof/symbol", HPprof "symbol");
       ("/debug/pprof/trace", HPprof "trace");
       ("/debug/pprof/allocs", HPprof "allocs");
       ("/debug/pprof/block", HPprof "block");
       ("/debug/pprof/goroutine", HPprof "goroutine");
       ("/debug/pprof/heap", HPprof "heap");
       ("/debug/pprof/mutex", HPprof "mutex");
       ("/debug/pprof/threadcreate", HPprof "threadcreate")]
  | WithHealthz => [("/live", HLive); ("/ready", HReady)]
  | _ => []
  end.

(** Calls of [HandleFunc] for a list of routes, one after the other. *)
Fixpoint handleAll (routes : list (string * Handler)) : M unit :=
  match routes with
  | [] => ret tt
  | (pattern, h) :: rest => HandleFunc pattern h ;; handleAll rest
  end.

Definition isRouterOption (o : Option) : bool :=
  match o with WithRouter _ => true | _ => false end.

Definition isGraceOption (o : Option) : bool :=
  match o with WithTerminationGracePeriod _ => true | _ => false end.

Definition isWaitOption (o : Option) : bool :=
  match o with WithTerminationWaitPeriod _ => true | _ => false end.

(** The time that the [Terminate] of the worker registered as [n] takes;
    zero when there is no such worker or its [Terminate] never returns. *)
Definition terminateTook (s : SVC) (n : string) : N :=
  match workers s !! n with
  | Some w =>
      match Terminate w with
      | TerminateReturns _ took => took
      | TerminateBlocks => 0%N
      end
  | None => 0%N
  end.

(** The sum of the times of a list of workers. *)
Definition totalTook (s : SVC) (names : list string) : N :=
  fold_right (fun n acc => (terminateTook s n + acc)%N) 0%N names.

(** A computation that returns or panics, and one that returns a nil error
    or panics: it neither returns an error, nor ends the process, nor
    waits for ever. *)
Definition returnsOrPanics {A} (m : M A) : Prop :=
  forall s, match result (m s) with
            | Val _ | Panicked _ => True
            | Exited _ | Blocked => False
            end.

Definition returnsNilOrPanics (m : M (option error)) : Prop :=
  forall s, match result (m s) with
            | Val None | Panicked _ => True
            | Val (Some _) | Exited _ | Blocked => False
            end.

(** A computation that leaves a field of the supervisor as it is. *)
Definition leaves {A B} (proj : SVC -> B) (m : M A) : Prop :=
  forall s, proj (final (m s)) = proj s.

(** The error that [recoverWait] sends for a recovered value. *)
Definition recoveredError (r : PanicValue) : error :=
  match r with
  | PanicError err => err
  | PanicOther text => ErrText text
  end.

(** The error that the loop of a probe appends for one entry of the map,
    if any: [fmt.Errorf("worker %s: %s", n, err)] for a worker whose
    capability [cap] returns [err]. *)
Definition reported (cap : Worker -> option (option error)) (nw : string * Worker)
  : option error :=
  match cap nw.2 with
  | Some (Some err) => Some (errorfWorker nw.1 err)
  | _ => None
  end.

(* ===================================================================== *)
(** ** Lists, texts and the monad *)
(* ===================================================================== *)

Lemma prefix_app (a b : string) : String.prefix a (a ++ b)%string = true.
Proof.
  induction a as [|c a IH].
  - destruct b; reflexivity.
  - change (String c a ++ b)%string with (String c (a ++ b)%string).
    cbn [String.prefix]. destruct (ascii_dec c c); [exact IH | congruence].
Qed.

Lemma contains_prefix (needle hay : string) :
  String.prefix needle hay = true -> contains needle hay = true.
Proof. intros H. destruct hay; cbn [contains]; rewrite H; reflexivity. Qed.

Lemma contains_app (needle a b : string) :
  contains needle (a ++ needle ++ b)%string = true.
Proof.
  induction a as [|c a IH].
  - change ("" ++ needle ++ b)%string with (needle ++ b)%string.
    apply contains_prefix, prefix_app.
  - change (String c a ++ needle ++ b)%string
      with (String c (a ++ needle ++ b)%string).
    cbn [contains]. rewrite IH. apply orb_true_r.
Qed.

Lemma append_assoc (a b c : string) : ((a ++ b) ++ c = a ++ (b ++ c))%string.
Proof.
  induction a as [|x a IH]; [reflexivity|].
  change (String x ((a ++ b) ++ c) = String x (a ++ b ++ c))%string.
  by rewrite IH.
Qed.

Lemma pushDefers_acc (names acc : list string) :
  fold_left (fun stack name => name :: stack) names acc = rev names ++ acc.
Proof.
  revert acc. induction names as [|n names IH]; intros acc; simpl; [done|].
  rewrite IH, <- app_assoc. reflexivity.
Qed.

Lemma pushDefers_rev (names : list string) : pushDefers names = rev names.
Proof. unfold pushDefers. rewrite pushDefers_acc. apply app_nil_r. Qed.

(* ===================================================================== *)
(** ** The terminating goroutine *)
(* ===================================================================== *)

Lemma chained_starts (calls : list TerminateCall) : forall now,
  chained now calls -> Forall (fun c => (now <= tcStart c)%N) calls.
Proof.
  induction calls as [|c rest IH]; intros now H; [constructor|].
  destruct H as [Hs Hrest]. constructor; [exact Hs|].
  destruct (tcEnd c) as [e|].
  - destruct Hrest as [He Hch]. apply IH in Hch.
    eapply Forall_impl; [exact Hch|]. intros c' Hc'. simpl in Hc'. lia.
  - subst rest. constructor.
Qed.

Lemma chained_sequential (calls : list TerminateCall) : forall now,
  chained now calls -> sequential calls.
Proof.
  induction calls as [|c rest IH]; intros now H i j ci cj Hij Hi Hj.
  - rewrite lookup_nil in Hi. discriminate.
  - destruct H as [Hs Hrest].
    destruct j as [|j]; [lia|]. simpl in Hj.
    destruct i as [|i]; simpl in Hi.
    + injection Hi as <-.
      destruct (tcEnd c) as [e|].
      * destruct Hrest as [He Hch]. exists e. split; [reflexivity|]. split; [exact He|].
        apply chained_starts in Hch. rewrite Forall_forall in Hch.
        apply Hch. eapply list_elem_of_lookup_2. exact Hj.
      * subst rest. rewrite lookup_nil in Hj. discriminate.
    + destruct (tcEnd c) as [e|].
      * destruct Hrest as [_ Hch]. eapply (IH _ Hch i j); [lia | exact Hi | exact Hj].
      * subst rest. rewrite lookup_nil in Hj. discriminate.
Qed.

Lemma runDeferred_chained (ws : gmap string Worker) (stack : list string) :
  forall now, chained now (runDeferred ws stack now).1.1.
Proof.
  induction stack as [|name below IH]; intros now; simpl; [exact I|].
  destruct (ws !! name) as [w|].
  - destruct (Terminate w) as [err took|].
    + specialize (IH (now + took)%N).
      destruct (runDeferred ws below (now + took)) as [[calls fin] crashed].
      simpl in *. split; [lia|]. split; [lia | exact IH].
    + simpl. split; [lia | reflexivity].
  - specialize (IH now).
    destruct (runDeferred ws below now) as [[calls fin] crashed]. exact IH.
Qed.

Lemma runDeferred_sublist (ws : gmap string Worker) (stack : list string) :
  forall now, map tcName (runDeferred ws stack now).1.1 `sublist_of` stack.
Proof.
  induction stack as [|name below IH]; intros now; simpl; [constructor|].
  destruct (ws !! name) as [w|].
  - destruct (Terminate w) as [err took|].
    + specialize (IH (now + took)%N).
      destruct (runDeferred ws below (now + took)) as [[calls fin] crashed].
      simpl in *. by constructor.
    + simpl. constructor. apply sublist_nil_l.
  - specialize (IH now).
    destruct (runDeferred ws below now) as [[calls fin] crashed].
    simpl in *. by constructor.
Qed.

Lemma runDeferred_present (ws : gmap string Worker) (stack : list string) :
  Forall (fun n => is_Some (ws !! n)) stack ->
  forall now, (runDeferred ws stack now).2 = false.
Proof.
  induction 1 as [|name below [w Hw] _ IH]; intros now; simpl; [reflexivity|].
  rewrite Hw. destruct (Terminate w) as [err took|]; [|reflexivity].
  specialize (IH (now + took)%N).
  destruct (runDeferred ws below (now + took)) as [[calls fin] crashed]. exact IH.
Qed.

Lemma runDeferred_all (ws : gmap string Worker) (stack : list string) :
  Forall (fun n => exists w, ws !! n = Some w /\ Terminate w <> TerminateBlocks) stack ->
  forall now, exists calls f,
    runDeferred ws stack now = (calls, Some f, false) /\
    map tcName calls = stack /\ (now <= f)%N /\
    Forall (fun c => exists e, tcEnd c = Some e /\ (e <= f)%N) calls.
Proof.
  induction 1 as [|name below (w & Hw & Hret) _ IH]; intros now; simpl.
  - exists [], now. repeat split; [lia | constructor].
  - rewrite Hw. destruct (Terminate w) as [err took|]; [|congruence].
    destruct (IH (now + took)%N) as (calls & f & -> & Hn & Hf & Hall).
    eexists _, f. split; [reflexivity|]. simpl. rewrite Hn.
    repeat split; [lia|]. constructor; [|exact Hall].
    simpl. exists (now + took)%N. split; [reflexivity | lia].
Qed.

(** What the shutdown path does on a supervisor that has a logger. *)
Lemma shutdownPath_logger (lg : Logger) (s : SVC) :
  logger s = Some lg ->
  shutdownPath s =
    match terminator s with
    | (calls, fin, true) =>
        ([ELog InfoLevel "Shutting down service" (Some "termination_grace_period");
          ELog InfoLevel "Terminating workers down service" (Some "termination_grace_period");
          ETerminator calls fin], s, Panicked GoroutinePanic)
    | (calls, fin, false) =>
        ([ELog InfoLevel "Shutting down service" (Some "termination_grace_period");
          ELog InfoLevel "Terminating workers down service" (Some "termination_grace_period");
          ETerminator calls fin;
          EWaited (waitGroupTimeout fin (TerminationGracePeriod s));
          ELog InfoLevel "All workers terminated" None;
          ELog InfoLevel "Service shutdown completed" None], s, Val tt)
    end.
Proof.
  intros Hlg. unfold shutdownPath, terminateWorkers, bind, logMsg, get, emit, ret, panic.
  cbv beta. repeat (rewrite Hlg; cbv beta iota).
  destruct (terminator s) as [[calls fin] [|]]; cbv beta iota;
    repeat (rewrite Hlg; cbv beta iota); reflexivity.
Qed.

Lemma shutdownPath_nil (s : SVC) :
  logger s = None -> shutdownPath s = ([], s, Panicked NilDereference).
Proof.
  intros Hlg. unfold shutdownPath, bind, logMsg. rewrite Hlg. reflexivity.
Qed.

Lemma shutdownPath_final (s : SVC) : final (shutdownPath s) = s.
Proof.
  destruct (logger s) as [lg|] eqn:Hlg.
  - rewrite (shutdownPath_logger lg s Hlg).
    destruct (terminator s) as [[calls fin] [|]]; reflexivity.
  - rewrite (shutdownPath_nil s Hlg). reflexivity.
Qed.

(* ===================================================================== *)
(** ** The initialisation loop and the shapes of a run *)
(* ===================================================================== *)

Lemma withInitialized_same (s : SVC) : withInitialized (workersInitialized s) s = s.
Proof. destruct s; reflexivity. Qed.

Lemma initWorkers_app (lg : Logger) (pre rest : list string) : forall s,
  logger s = Some lg ->
  Forall (fun n => initOf s n = Some None) pre ->
  initWorkers (pre ++ rest) s =
    match initWorkers rest (withInitialized (workersInitialized s ++ pre) s) with
    | (t, s', r) => (initEvents pre ++ t, s', r)
    end.
Proof.
  induction pre as [|n pre IH]; intros s Hlg Hok.
  - rewrite app_nil_r, withInitialized_same. simpl.
    destruct (initWorkers rest s) as [[t s'] r]. reflexivity.
  - inversion Hok as [|? ? Hn Hpre]; subst.
    unfold initOf in Hn. destruct (workers s !! n) as [w|] eqn:Hw; [|discriminate].
    injection Hn as Hn.
    change (initWorkers ((n :: pre) ++ rest) s) with
      ((logMsg DebugLevel "Initializing worker" (Some n) ;;
        s' <- get ;;
        match workers s' !! n with
        | None => panic NilDereference
        | Some w =>
            let err :=
              match workerInitRetryOpts s' !! n with
              | Some opts => opts (Init w)
              | None => Init w 0
              end in
            emit (EInit n err) ;;
            match err with
            | Some _ =>
                logMsg ErrorLevel "Could not initialize worker" (Some n) ;;
                ret false
            | None =>
                modify (appendInitialized n) ;;
                initWorkers (pre ++ rest)
            end
        end) s).
    unfold bind, logMsg, get at 1. cbv beta. rewrite Hlg. cbv beta iota.
    rewrite Hw. cbv beta iota zeta. rewrite Hn. unfold emit, modify. cbv beta iota.
    rewrite (IH (appendInitialized n s) Hlg Hpre).
    change (withInitialized
              (workersInitialized (appendInitialized n s) ++ pre)
              (appendInitialized n s))
      with (withInitialized ((workersInitialized s ++ [n]) ++ pre) s).
    rewrite <- (app_assoc (workersInitialized s) [n] pre). simpl.
    destruct (initWorkers rest _) as [[t s'] r]. reflexivity.
Qed.

Lemma initWorkers_ok (lg : Logger) (s : SVC) (names : list string) :
  logger s = Some lg ->
  Forall (fun n => initOf s n = Some None) names ->
  initWorkers names s =
    (initEvents names, withInitialized (workersInitialized s ++ names) s, Val true).
Proof.
  intros Hlg Hok.
  rewrite <- (app_nil_r names) at 1.
  rewrite (initWorkers_app lg names [] s Hlg Hok). simpl.
  rewrite app_nil_r. reflexivity.
Qed.

Lemma initWorkers_stop (lg : Logger) (s : SVC) (post : list string)
    (name : string) (e : error) :
  logger s = Some lg ->
  initOf s name = Some (Some e) ->
  initWorkers (name :: post) s = (failEvents name e, s, Val false).
Proof.
  intros Hlg Hn. unfold initOf in Hn. simpl.
  unfold bind, logMsg, get, emit, ret. cbv beta. rewrite Hlg. cbv beta iota.
  destruct (workers s !! name) as [w|]; [|discriminate].
  injection Hn as Hn. cbv beta iota zeta. rewrite Hn. cbv beta iota.
  rewrite Hlg. reflexivity.
Qed.

Lemma initWorkers_nil_worker (lg : Logger) (s : SVC) (post : list string)
    (name : string) :
  logger s = Some lg ->
  initOf s name = None ->
  initWorkers (name :: post) s =
    ([ELog DebugLevel "Initializing worker" (Some name)], s, Panicked NilDereference).
Proof.
  intros Hlg Hn. unfold initOf in Hn. simpl.
  unfold bind, logMsg, get, panic. cbv beta. rewrite Hlg. cbv beta iota.
  destruct (workers s !! name) as [w|]; [discriminate|]. reflexivity.
Qed.

Lemma initWorkers_fail (lg : Logger) (s : SVC) (pre post : list string)
    (name : string) (e : error) :
  logger s = Some lg ->
  Forall (fun n => initOf s n = Some None) pre ->
  initOf s name = Some (Some e) ->
  initWorkers (pre ++ name :: post) s =
    (initEvents pre ++ failEvents name e,
     withInitialized (workersInitialized s ++ pre) s, Val false).
Proof.
  intros Hlg Hok Hn.
  rewrite (initWorkers_app lg pre (name :: post) s Hlg Hok).
  rewrite (initWorkers_stop lg _ post name e); [reflexivity | exact Hlg | exact Hn].
Qed.

Lemma initWorkers_missing (lg : Logger) (s : SVC) (pre post : list string)
    (name : string) :
  logger s = Some lg ->
  Forall (fun n => initOf s n = Some None) pre ->
  initOf s name = None ->
  initWorkers (pre ++ name :: post) s =
    (initEvents pre ++ [ELog DebugLevel "Initializing worker" (Some name)],
     withInitialized (workersInitialized s ++ pre) s, Panicked NilDereference).
Proof.
  intros Hlg Hok Hn.
  rewrite (initWorkers_app lg pre (name :: post) s Hlg Hok).
  rewrite (initWorkers_nil_worker lg _ post name); [reflexivity | exact Hlg | exact Hn].
Qed.

(** The loop stops at the first name whose [Init] does not return nil. *)
Lemma init_cases (s : SVC) (names : list string) :
  Forall (fun n => initOf s n = Some None) names \/
  exists pre name post,
    names = pre ++ name :: post /\
    Forall (fun n => initOf s n = Some None) pre /\
    initOf s name <> Some None.
Proof.
  induction names as [|n names IH]; [left; constructor|].
  destruct (initOf s n) as [[e|]|] eqn:Hn.
  - right. exists [], n, names. repeat split; [constructor | congruence].
  - destruct IH as [IH | (pre & name & post & -> & Hpre & Hname)].
    + left. by constructor.
    + right. exists (n :: pre), name, post. repeat split; [by constructor | exact Hname].
  - right. exists [], n, names. repeat split; [constructor | congruence].
Qed.

Lemma setSignals_same (s : SVC) : setSignals (signals s) s = s.
Proof. destruct s; reflexivity. Qed.

Lemma selectTerminal_logger (lg : Logger) (first : option Terminal) (s : SVC)
    (t : Terminal) :
  logger s = Some lg ->
  fires first (signals s) = Some t ->
  selectTerminal first s =
    (selectEvents t, received t s, if selectExits t then Exited 1 else Val tt).
Proof.
  intros Hlg Hfires.
  unfold selectTerminal, bind at 1, get. cbv beta iota. rewrite Hfires.
  unfold received, selectEvents, selectExits, bind, emit, logMsg, ret, modify.
  destruct t as [err| |]; cbv beta iota; rewrite ?setSignals_same.
  - destruct (isCanceled err); cbn [negb]; cbv beta iota;
      repeat (rewrite Hlg; cbv beta iota); reflexivity.
  - cbn [logger setSignals]. rewrite Hlg. reflexivity.
  - rewrite Hlg. reflexivity.
Qed.

Lemma selectTerminal_waits (first : option Terminal) (s : SVC) :
  fires first (signals s) = None -> selectTerminal first s = ([], s, Blocked).
Proof.
  intros Hfires. unfold selectTerminal, bind, get. cbv beta iota. rewrite Hfires.
  reflexivity.
Qed.

(** The shutdown path does not look at the signals. *)
Lemma shutdownPath_setSignals (q : list Signal) (s : SVC) :
  shutdownPath (setSignals q s) =
    (trace (shutdownPath s), setSignals q s, result (shutdownPath s)).
Proof.
  destruct (logger s) as [lg|] eqn:Hlg.
  - rewrite (shutdownPath_logger lg (setSignals q s) Hlg), (shutdownPath_logger lg s Hlg).
    change (terminator (setSignals q s)) with (terminator s).
    change (TerminationGracePeriod (setSignals q s)) with (TerminationGracePeriod s).
    destruct (terminator s) as [[calls fin] [|]]; reflexivity.
  - rewrite (shutdownPath_nil (setSignals q s) Hlg), (shutdownPath_nil s Hlg). reflexivity.
Qed.

(** *** The shapes of a run *)

Lemma Run_nil_logger (first : option Terminal) (s : SVC) :
  logger s = None -> SVC_Run first s = ([], s, Panicked NilDereference).
Proof.
  intros Hlg. unfold SVC_Run, bind at 1, logMsg at 1. rewrite Hlg. reflexivity.
Qed.

(** Every [Init] returns nil and a case of the [select] fires. *)
Lemma Run_selected (lg : Logger) (first : option Terminal) (t : Terminal) (s : SVC) :
  logger s = Some lg ->
  Forall (fun n => initOf s n = Some None) (workersAdded s) ->
  fires first (signals s) = Some t ->
  let s1 := withInitialized (workersInitialized s ++ workersAdded s) s in
  SVC_Run first s =
    if selectExits t
    then (startEvent :: initEvents (workersAdded s) ++ launchEvents s ++ selectEvents t,
          received t s1, Exited 1)
    else ((startEvent :: initEvents (workersAdded s) ++ launchEvents s ++ selectEvents t)
            ++ trace (shutdownPath s1),
          received t s1, result (shutdownPath s1)).
Proof.
  intros Hlg Hok Hfires s1.
  unfold SVC_Run, bind at 1, logMsg at 1. rewrite Hlg. cbv beta iota.
  unfold defer, bind at 1 2, get at 1. cbv beta iota.
  rewrite (initWorkers_ok lg s (workersAdded s) Hlg Hok). fold s1.
  cbv beta iota. unfold bind, launchWorkers.
  rewrite (selectTerminal_logger lg first s1 t Hlg Hfires).
  destruct (selectExits t).
  - reflexivity.
  - unfold received at 1. rewrite shutdownPath_setSignals. fold (received t s1).
    destruct (shutdownPath s1) as [[t3 s3] r3]. unfold final, trace, result in *.
    simpl.
    destruct r3 as [[]| | |]; reflexivity.
Qed.

(** Every [Init] returns nil and no case of the [select] ever fires. *)
Lemma Run_blocked (lg : Logger) (first : option Terminal) (s : SVC) :
  logger s = Some lg ->
  Forall (fun n => initOf s n = Some None) (workersAdded s) ->
  fires first (signals s) = None ->
  SVC_Run first s =
    (startEvent :: initEvents (workersAdded s) ++ launchEvents s,
     withInitialized (workersInitialized s ++ workersAdded s) s, Blocked).
Proof.
  intros Hlg Hok Hfires.
  unfold SVC_Run, bind at 1, logMsg at 1. rewrite Hlg. cbv beta iota.
  unfold defer, bind at 1 2, get at 1. cbv beta iota.
  rewrite (initWorkers_ok lg s (workersAdded s) Hlg Hok).
  cbv beta iota. unfold bind, launchWorkers.
  rewrite selectTerminal_waits by exact Hfires. simpl.
  rewrite app_nil_r. reflexivity.
Qed.

(** The [Init] of [name] returns an error. *)
Lemma Run_init_failed (lg : Logger) (first : option Terminal) (s : SVC)
    (pre post : list string) (name : string) (e : error) :
  logger s = Some lg ->
  workersAdded s = pre ++ name :: post ->
  Forall (fun n => initOf s n = Some None) pre ->
  initOf s name = Some (Some e) ->
  let s1 := withInitialized (workersInitialized s ++ pre) s in
  SVC_Run first s =
    ((startEvent :: initEvents pre ++ failEvents name e) ++ trace (shutdownPath s1),
     s1, result (shutdownPath s1)).
Proof.
  intros Hlg Hadded Hok Hn s1.
  unfold SVC_Run, bind at 1, logMsg at 1. rewrite Hlg. cbv beta iota.
  unfold defer, bind at 1 2, get at 1. cbv beta iota. rewrite Hadded.
  rewrite (initWorkers_fail lg s pre post name e Hlg Hok Hn). fold s1.
  cbv beta iota. unfold ret.
  pose proof (shutdownPath_final s1) as Hf.
  destruct (shutdownPath s1) as [[t3 s3] r3]. unfold final, trace, result in *.
  simpl in Hf. subst s3. simpl. rewrite app_nil_r.
  destruct r3 as [[]| | |]; reflexivity.
Qed.

(** A registered name has no worker: the call of [Init] on the nil
    interface panics, and the shutdown path runs before the panic goes on. *)
Lemma Run_init_missing (lg : Logger) (first : option Terminal) (s : SVC)
    (pre post : list string) (name : string) :
  logger s = Some lg ->
  workersAdded s = pre ++ name :: post ->
  Forall (fun n => initOf s n = Some None) pre ->
  initOf s name = None ->
  let s1 := withInitialized (workersInitialized s ++ pre) s in
  SVC_Run first s =
    ((startEvent :: initEvents pre ++ [ELog DebugLevel "Initializing worker" (Some name)])
       ++ trace (shutdownPath s1),
     s1,
     match result (shutdownPath s1) with
     | Val _ => Panicked NilDereference
     | r => r
     end).
Proof.
  intros Hlg Hadded Hok Hn s1.
  unfold SVC_Run, bind at 1, logMsg at 1. rewrite Hlg. cbv beta iota.
  unfold defer, bind at 1 2, get at 1. cbv beta iota. rewrite Hadded.
  rewrite (initWorkers_missing lg s pre post name Hlg Hok Hn). fold s1.
  cbv beta iota.
  pose proof (shutdownPath_final s1) as Hf.
  destruct (shutdownPath s1) as [[t3 s3] r3]. unfold final, trace, result in *.
  simpl in Hf. subst s3.
  destruct r3; reflexivity.
Qed.

(* ===================================================================== *)
(** ** Registration *)
(* ===================================================================== *)

(** [AddWorker] on a name that is taken never returns. *)
Lemma AddWorker_taken (name : string) (w : Worker) (s : SVC) :
  is_Some (workers s !! name) ->
  AddWorker name w s =
    match logger s with
    | Some _ => ([ELog FatalLevel "Duplicate worker names!" (Some name)], s, Exited 1)
    | None => ([], s, Panicked NilDereference)
    end.
Proof.
  intros [w' Hw]. unfold AddWorker, bind at 1 2, get. cbv beta iota.
  rewrite Hw. unfold logMsg. destruct (logger s); reflexivity.
Qed.

(** [AddWorker] returns only on a free name, and then adds the entry. *)
Lemma AddWorker_returns (name : string) (w : Worker) (s s' : SVC) (t : list Event) :
  AddWorker name w s = (t, s', Val tt) ->
  workers s !! name = None /\ s' = addWorkerEntry name w s.
Proof.
  destruct (workers s !! name) as [w'|] eqn:Hw.
  - rewrite AddWorker_taken by (rewrite Hw; eauto).
    destruct (logger s); discriminate.
  - intros H. split; [reflexivity|].
    unfold AddWorker, bind, get, ret, modify, logMsg in H. cbv beta iota in H.
    rewrite Hw in H. cbv beta iota in H.
    destruct (logger s) as [lg|] eqn:Hlg;
      destruct (implements (Healthy w)), (implements (Alive w));
      cbv beta iota in H; repeat (rewrite Hlg in H; cbv beta iota in H);
      first [discriminate | injection H as _ <-; reflexivity].
Qed.

Lemma register_returns (r : Registration) (s s' : SVC) (t : list Event) :
  register r s = (t, s', Val tt) ->
  workers s !! regName r = None /\
  workersAdded s' = workersAdded s ++ [regName r] /\
  workersInitialized s' = workersInitialized s /\
  (forall n, is_Some (workers s' !! n) <-> n = regName r \/ is_Some (workers s !! n)).
Proof.
  assert (Hins : forall name w n,
    is_Some (workers (addWorkerEntry name w s) !! n) <->
    n = name \/ is_Some (workers s !! n)).
  { intros name w n. simpl. rewrite lookup_insert_is_Some. split.
    - intros [->|[_ H]]; auto.
    - intros [->|H]; [auto|]. destruct (decide (name = n)); auto. }
  destruct r as [name w | name w opts]; simpl.
  - intros H. apply AddWorker_returns in H as [Hfree ->].
    repeat split; [exact Hfree | apply Hins | apply Hins].
  - unfold AddWorkerWithInitRetry, bind, modify.
    destruct (AddWorker name w s) as [[t1 s1] [[]| | |]] eqn:HA; try discriminate.
    intros H. injection H as _ <-.
    apply AddWorker_returns in HA as [Hfree ->].
    repeat split; [exact Hfree | apply Hins | apply Hins].
Qed.

Lemma registerAll_wellRegistered (regs : list Registration) : forall s s' t,
  wellRegistered s ->
  registerAll regs s = (t, s', Val tt) ->
  wellRegistered s' /\ workersAdded s' = workersAdded s ++ map regName regs /\
  logger s' = logger s.
Proof.
  induction regs as [|r regs IH]; intros s s' t Hwf H.
  - injection H as _ <-. rewrite app_nil_r. auto.
  - simpl in H. unfold bind in H.
    destruct (register r s) as [[t1 s1] [[]| | |]] eqn:Hr; try discriminate.
    assert (Hl : logger s1 = logger s).
    { destruct r as [name w | name w opts]; simpl in Hr.
      - apply AddWorker_returns in Hr as [_ ->]. reflexivity.
      - unfold AddWorkerWithInitRetry, bind, modify in Hr.
        destruct (AddWorker name w s) as [[t0 s0] [[]| | |]] eqn:HA; try discriminate.
        injection Hr as _ <-. apply AddWorker_returns in HA as [_ ->]. reflexivity. }
    apply register_returns in Hr as (Hfree & Hadd & Hinit & Hkeys).
    destruct (registerAll regs s1) as [[t2 s2] r2] eqn:Hrest.
    injection H as _ <- ->.
    destruct Hwf as (Hi & Hnd & Hk).
    assert (Hwf1 : wellRegistered s1).
    { repeat split.
      - congruence.
      - rewrite Hadd. apply NoDup_app. repeat split; [exact Hnd | | apply NoDup_singleton].
        intros n Hn Hn'. apply list_elem_of_singleton in Hn' as ->.
        apply Hk in Hn. rewrite Hfree in Hn. by destruct Hn.
      - rewrite Hadd, elem_of_app, list_elem_of_singleton, Hkeys, Hk. tauto.
      - rewrite Hadd, elem_of_app, list_elem_of_singleton, Hkeys, Hk. tauto. }
    destruct (IH s1 s2 t2 Hwf1 Hrest) as (Hwf2 & Hadd2 & Hl2).
    repeat split; [apply Hwf2 | apply Hwf2 | apply Hwf2 | apply Hwf2 | | congruence].
    rewrite Hadd2, Hadd, <- app_assoc. reflexivity.
Qed.

Lemma fresh_wellRegistered (s : SVC) : fresh s -> wellRegistered s.
Proof.
  intros (Hw & _ & Ha & Hi). repeat split; [exact Hi | | |].
  - rewrite Ha. constructor.
  - rewrite Ha. intros H. by apply elem_of_nil in H.
  - rewrite Hw, lookup_empty. intros [? ?]. discriminate.
Qed.

Lemma registered_wellRegistered (regs : list Registration) (s : SVC) :
  registered regs s ->
  wellRegistered s /\ workersAdded s = map regName regs.
Proof.
  intros (s0 & t & Hfresh & H).
  destruct (registerAll_wellRegistered regs s0 s t (fresh_wellRegistered s0 Hfresh) H)
    as (Hwf & Hadd & _).
  destruct Hfresh as (_ & _ & Ha & _). rewrite Ha in Hadd. auto.
Qed.

(* ===================================================================== *)
(** ** The run of a well registered supervisor *)
(* ===================================================================== *)

Lemma initOf_present (s : SVC) (n : string) (r : option error) :
  initOf s n = Some r -> is_Some (workers s !! n).
Proof. unfold initOf. destruct (workers s !! n); [eauto | discriminate]. Qed.

Lemma shutdownPath_ok (lg : Logger) (s : SVC) :
  logger s = Some lg ->
  Forall (fun n => is_Some (workers s !! n)) (workersInitialized s) ->
  shutdownPath s = (shutdownEvents s, s, Val tt).
Proof.
  intros Hlg Hpresent. rewrite (shutdownPath_logger lg s Hlg). unfold shutdownEvents.
  assert (Hc : (terminator s).2 = false).
  { unfold terminator. apply runDeferred_present.
    rewrite pushDefers_rev. apply Forall_rev. exact Hpresent. }
  destruct (terminator s) as [[calls fin] crashed]. simpl in Hc. subst crashed.
  reflexivity.
Qed.

Lemma Run_shape (first : option Terminal) (s : SVC) :
  wellRegistered s -> RunShape first s (SVC_Run first s).
Proof.
  intros (Hinit & Hnd & Hkeys).
  destruct (logger s) as [lg|] eqn:Hlg.
  2:{ rewrite (Run_nil_logger first s Hlg). by constructor. }
  assert (Hlg' : logger s <> None) by congruence.
  destruct (init_cases s (workersAdded s)) as [Hok | (pre & name & post & Hadd & Hpre & Hname)].
  - assert (Hshut : shutdownPath (withInitialized (workersAdded s) s) =
        (shutdownEvents (withInitialized (workersAdded s) s),
         withInitialized (workersAdded s) s, Val tt)).
    { apply (shutdownPath_ok lg); [exact Hlg|]. simpl.
      eapply Forall_impl; [exact Hok|]. intros n Hn. eapply initOf_present, Hn. }
    destruct (fires first (signals s)) as [t|] eqn:Hfires.
    + pose proof (Run_selected lg first t s Hlg Hok Hfires) as HR. cbv zeta in HR.
      rewrite Hinit in HR. simpl in HR. rewrite HR.
      destruct (selectExits t) eqn:Hex.
      * by apply ShapeExited.
      * rewrite Hshut. unfold trace, result. simpl.
        rewrite <- !app_assoc. by apply ShapeShutdown.
    + rewrite (Run_blocked lg first s Hlg Hok Hfires), Hinit. simpl. by apply ShapeBlocked.
  - destruct (initOf s name) as [[e|]|] eqn:Hn; [|congruence|].
    + pose proof (Run_init_failed lg first s pre post name e Hlg Hadd Hpre Hn) as HR.
      cbv zeta in HR. rewrite Hinit in HR. simpl in HR. rewrite HR.
      rewrite (shutdownPath_ok lg (withInitialized pre s)); [|exact Hlg|].
      * unfold trace, result. simpl. rewrite <- !app_assoc.
        by eapply ShapeInitFailed.
      * simpl. eapply Forall_impl; [exact Hpre|]. intros n Hn'.
        eapply initOf_present, Hn'.
    + exfalso. assert (Hin : name ∈ workersAdded s).
      { rewrite Hadd. apply elem_of_app. right. apply list_elem_of_here. }
      apply Hkeys in Hin as [w Hw]. unfold initOf in Hn. rewrite Hw in Hn. discriminate.
Qed.

(* ===================================================================== *)
(** ** What the pieces of a trace show *)
(* ===================================================================== *)

Lemma elem_of_initCalls (t : list Event) (n : string) (r : option error) :
  EInit n r ∈ t <-> (n, r) ∈ initCalls t.
Proof.
  unfold initCalls. rewrite list_elem_of_omap. split.
  - intros H. exists (EInit n r). auto.
  - intros (e & He & Heq). destruct e; try discriminate. by injection Heq as -> ->.
Qed.

Lemma elem_of_launches (t : list Event) (n : string) :
  ELaunch n ∈ t <-> n ∈ launches t.
Proof.
  unfold launches. rewrite list_elem_of_omap. split.
  - intros H. exists (ELaunch n). auto.
  - intros (e & He & Heq). destruct e; try discriminate. by injection Heq as ->.
Qed.

Lemma elem_of_selections (t : list Event) (c : Terminal) :
  ESelect c ∈ t <-> c ∈ selections t.
Proof.
  unfold selections. rewrite list_elem_of_omap. split.
  - intros H. exists (ESelect c). auto.
  - intros (e & He & Heq). destruct e; try discriminate. by injection Heq as ->.
Qed.

Lemma elem_of_terminators (t : list Event) (calls : list TerminateCall) (fin : option N) :
  ETerminator calls fin ∈ t <-> (calls, fin) ∈ terminators t.
Proof.
  unfold terminators. rewrite list_elem_of_omap. split.
  - intros H. exists (ETerminator calls fin). auto.
  - intros (e & He & Heq). destruct e; try discriminate. by injection Heq as -> ->.
Qed.

Lemma elem_of_waits (t : list Event) (w : N) :
  EWaited w ∈ t <-> w ∈ waits t.
Proof.
  unfold waits. rewrite list_elem_of_omap. split.
  - intros H. exists (EWaited w). auto.
  - intros (e & He & Heq). destruct e; try discriminate. by injection Heq as ->.
Qed.

Lemma terminateCalls_terminators (t : list Event) :
  terminateCalls t = concat (terminators t).*1.
Proof.
  induction t as [|e t IH]; [reflexivity|].
  destruct e; simpl; rewrite ?IH; reflexivity.
Qed.

Section Pieces.
Context {B : Type} (f : Event -> option B).

Lemma omap_initEvents_log (names : list string) :
  (forall n r, f (EInit n r) = None) -> (forall l m x, f (ELog l m x) = None) ->
  omap f (initEvents names) = [].
Proof.
  intros Hi Hl. induction names as [|n names IH]; [reflexivity|].
  simpl. rewrite Hi, Hl. exact IH.
Qed.

Lemma omap_launchEvents (s : SVC) :
  (forall n, f (ELaunch n) = None) -> omap f (launchEvents s) = [].
Proof.
  intros Hl. unfold launchEvents. induction (map_to_list (workers s)) as [|nw l IH];
    [reflexivity|]. simpl. rewrite Hl. exact IH.
Qed.

Lemma omap_selectEvents (t : Terminal) :
  (forall c, f (ESelect c) = None) -> (forall l m x, f (ELog l m x) = None) ->
  omap f (selectEvents t) = [].
Proof.
  intros Hs Hl. unfold selectEvents. destruct t as [err|sig|]; simpl; rewrite Hs.
  - destruct (isCanceled err); simpl; rewrite Hl; reflexivity.
  - rewrite Hl. reflexivity.
  - rewrite Hl. reflexivity.
Qed.

Lemma omap_shutdownEvents (s : SVC) :
  (forall c x, f (ETerminator c x) = None) -> (forall w, f (EWaited w) = None) ->
  (forall l m x, f (ELog l m x) = None) ->
  omap f (shutdownEvents s) = [].
Proof.
  intros Ht Hw Hl. unfold shutdownEvents.
  destruct (terminator s) as [[calls fin] crashed]. simpl.
  rewrite Ht, Hw, !Hl. reflexivity.
Qed.
End Pieces.

Lemma initCalls_initEvents (names : list string) :
  initCalls (initEvents names) = map (fun n => (n, None)) names.
Proof. induction names as [|n names IH]; [reflexivity|]. simpl. f_equal. exact IH. Qed.

Lemma launches_launchEvents (s : SVC) :
  launches (launchEvents s) = (map_to_list (workers s)).*1.
Proof.
  unfold launchEvents. induction (map_to_list (workers s)) as [|nw l IH];
    [reflexivity|]. simpl. f_equal. exact IH.
Qed.

Lemma selections_selectEvents (t : Terminal) : selections (selectEvents t) = [t].
Proof. destruct t as [err|sig|]; [destruct (isCanceled err) eqn:E|..]; simpl; rewrite ?E; reflexivity. Qed.

Lemma terminators_shutdownEvents (s : SVC) :
  terminators (shutdownEvents s) = [(terminator s).1].
Proof. unfold shutdownEvents. destruct (terminator s) as [[calls fin] crashed]. reflexivity. Qed.

Lemma waits_shutdownEvents (s : SVC) :
  waits (shutdownEvents s) =
    [waitGroupTimeout (terminator s).1.2 (TerminationGracePeriod s)].
Proof. unfold shutdownEvents. destruct (terminator s) as [[calls fin] crashed]. reflexivity. Qed.

(** The projections of the pieces that show nothing of a kind. *)
Ltac nothing :=
  first [ apply omap_initEvents_log | apply omap_launchEvents
        | apply omap_selectEvents | apply omap_shutdownEvents ];
  intros; reflexivity.

Lemma initCalls_launchEvents s : initCalls (launchEvents s) = [].
Proof. unfold initCalls. nothing. Qed.
Lemma initCalls_selectEvents t : initCalls (selectEvents t) = [].
Proof. unfold initCalls. nothing. Qed.
Lemma initCalls_shutdownEvents s : initCalls (shutdownEvents s) = [].
Proof. unfold initCalls. nothing. Qed.
Lemma launches_initEvents names : launches (initEvents names) = [].
Proof. unfold launches. nothing. Qed.
Lemma launches_selectEvents t : launches (selectEvents t) = [].
Proof. unfold launches. nothing. Qed.
Lemma launches_shutdownEvents s : launches (shutdownEvents s) = [].
Proof. unfold launches. nothing. Qed.
Lemma selections_initEvents names : selections (initEvents names) = [].
Proof. unfold selections. nothing. Qed.
Lemma selections_launchEvents s : selections (launchEvents s) = [].
Proof. unfold selections. nothing. Qed.
Lemma selections_shutdownEvents s : selections (shutdownEvents s) = [].
Proof. unfold selections. nothing. Qed.
Lemma terminators_initEvents names : terminators (initEvents names) = [].
Proof. unfold terminators. nothing. Qed.
Lemma terminators_launchEvents s : terminators (launchEvents s) = [].
Proof. unfold terminators. nothing. Qed.
Lemma terminators_selectEvents t : terminators (selectEvents t) = [].
Proof. unfold terminators. nothing. Qed.
Lemma waits_initEvents names : waits (initEvents names) = [].
Proof. unfold waits. nothing. Qed.
Lemma waits_launchEvents s : waits (launchEvents s) = [].
Proof. unfold waits. nothing. Qed.
Lemma waits_selectEvents t : waits (selectEvents t) = [].
Proof. unfold waits. nothing. Qed.

Lemma initCalls_app t1 t2 : initCalls (t1 ++ t2) = initCalls t1 ++ initCalls t2.
Proof. apply omap_app. Qed.
Lemma launches_app t1 t2 : launches (t1 ++ t2) = launches t1 ++ launches t2.
Proof. apply omap_app. Qed.
Lemma selections_app t1 t2 : selections (t1 ++ t2) = selections t1 ++ selections t2.
Proof. apply omap_app. Qed.
Lemma terminators_app t1 t2 : terminators (t1 ++ t2) = terminators t1 ++ terminators t2.
Proof. apply omap_app. Qed.
Lemma waits_app t1 t2 : waits (t1 ++ t2) = waits t1 ++ waits t2.
Proof. apply omap_app. Qed.

Lemma initCalls_start t : initCalls (startEvent :: t) = initCalls t.
Proof. reflexivity. Qed.
Lemma launches_start t : launches (startEvent :: t) = launches t.
Proof. reflexivity. Qed.
Lemma selections_start t : selections (startEvent :: t) = selections t.
Proof. reflexivity. Qed.
Lemma terminators_start t : terminators (startEvent :: t) = terminators t.
Proof. reflexivity. Qed.
Lemma waits_start t : waits (startEvent :: t) = waits t.
Proof. reflexivity. Qed.

Lemma initCalls_failEvents n e : initCalls (failEvents n e) = [(n, Some e)].
Proof. reflexivity. Qed.
Lemma launches_failEvents n e : launches (failEvents n e) = [].
Proof. reflexivity. Qed.
Lemma selections_failEvents n e : selections (failEvents n e) = [].
Proof. reflexivity. Qed.
Lemma terminators_failEvents n e : terminators (failEvents n e) = [].
Proof. reflexivity. Qed.
Lemma waits_failEvents n e : waits (failEvents n e) = [].
Proof. reflexivity. Qed.

Create Rewrite HintDb shows.
#[local] Hint Rewrite
  initCalls_app launches_app selections_app terminators_app waits_app
  initCalls_start launches_start selections_start terminators_start waits_start
  initCalls_initEvents initCalls_failEvents initCalls_launchEvents
  initCalls_selectEvents initCalls_shutdownEvents
  launches_initEvents launches_failEvents launches_launchEvents
  launches_selectEvents launches_shutdownEvents
  selections_initEvents selections_failEvents selections_launchEvents
  selections_selectEvents selections_shutdownEvents
  terminators_initEvents terminators_failEvents terminators_launchEvents
  terminators_selectEvents terminators_shutdownEvents
  waits_initEvents waits_failEvents waits_launchEvents
  waits_selectEvents waits_shutdownEvents
  app_nil_l app_nil_r : shows.

Lemma terminator_sublist (s : SVC) :
  map tcName (terminator s).1.1 `sublist_of` rev (workersInitialized s).
Proof. unfold terminator. rewrite pushDefers_rev. apply runDeferred_sublist. Qed.

Lemma terminator_all (s : SVC) :
  Forall (fun n => is_Some (workers s !! n)) (workersInitialized s) ->
  terminatesAll s ->
  exists calls f,
    terminator s = (calls, Some f, false) /\
    map tcName calls = rev (workersInitialized s) /\
    Forall (fun c => exists e, tcEnd c = Some e /\ (e <= f)%N) calls.
Proof.
  intros Hpresent Hret. unfold terminator. rewrite pushDefers_rev.
  destruct (runDeferred_all (workers s) (rev (workersInitialized s)))
    with (now := Z.to_N (TerminationWaitPeriod s)) as (calls & f & H & Hn & _ & Hall).
  - apply Forall_rev. eapply Forall_impl; [exact Hpresent|].
    intros n [w Hw]. exists w. split; [exact Hw | eapply Hret, Hw].
  - exists calls, f. auto.
Qed.

Lemma terminated_shutdownEvents (t : list Event) (s : SVC) :
  terminators t = [(terminator s).1] ->
  terminated t = map tcName (terminator s).1.1.
Proof.
  intros H. unfold terminated. rewrite terminateCalls_terminators, H. simpl.
  rewrite app_nil_r. reflexivity.
Qed.

Lemma initialized_present (s : SVC) (names : list string) :
  Forall (fun n => initOf s n = Some None) names ->
  Forall (fun n => is_Some (workers (withInitialized names s) !! n))
         (workersInitialized (withInitialized names s)).
Proof.
  intros H. simpl. eapply Forall_impl; [exact H|].
  intros n Hn. eapply initOf_present, Hn.
Qed.

(* ===================================================================== *)
(** ** Initialisation: claims C3 and C4 *)
(* ===================================================================== *)

Lemma elem_of_ok_calls (names : list string) (n : string) :
  (n, None) ∈ map (fun n : string => (n, @None error)) names <-> n ∈ names.
Proof.
  split.
  - intros H. apply list_elem_of_fmap in H as (n' & Heq & Hn'). by injection Heq as ->.
  - intros H. apply list_elem_of_fmap. exists n. auto.
Qed.

(** The event [EInit] of a run carries what the worker's [Init] step
    returns. *)
Lemma Run_init_events (first : option Terminal) (s : SVC) (n : string)
    (r : option error) :
  wellRegistered s ->
  EInit n r ∈ trace (SVC_Run first s) -> initOf s n = Some r.
Proof.
  intros Hwf Hin. apply elem_of_initCalls in Hin.
  assert (Hok : forall names, Forall (fun n => initOf s n = Some None) names ->
            (n, r) ∈ map (fun n : string => (n, @None error)) names ->
            initOf s n = Some r).
  { intros names Hall H. apply list_elem_of_fmap in H as (n' & Heq & Hn').
    injection Heq as -> ->. rewrite Forall_forall in Hall. by apply Hall. }
  destruct (Run_shape first s Hwf) as [Hlg | Hlg Hall Hf | t Hlg Hall Hf Hex
    | t Hlg Hall Hf Hex | pre post name e Hlg Hadd Hpre Hname];
    unfold trace in *; cbn [fst snd] in *; autorewrite with shows in Hin.
  - by apply elem_of_nil in Hin.
  - by apply (Hok (workersAdded s)).
  - by apply (Hok (workersAdded s)).
  - by apply (Hok (workersAdded s)).
  - apply elem_of_app in Hin as [Hin | Hin]; [by apply (Hok pre)|].
    apply list_elem_of_singleton in Hin. by injection Hin as -> ->.
Qed.

(** C3.  When the [Init] step of a worker [name] returns an error in a run
    (the error that [retry.Do] returns, when the worker has retry options),
    no worker registered after [name] is initialised, no worker's [Run] is
    started and the [select] is not reached: the run goes to the shutdown
    path, which calls [Terminate] only on the workers initialised before
    [name] (on all of them, last first, when every [Terminate] returns),
    and [Run] returns. *)
Theorem init_failure_stops_startup (regs : list Registration)
    (first : option Terminal) (s : SVC) (name : string) (e : error) :
  registered regs s ->
  EInit name (Some e) ∈ trace (SVC_Run first s) ->
  initOf s name = Some (Some e) /\
  exists pre post,
    workersAdded s = pre ++ name :: post /\
    (forall n res, n ∈ post -> EInit n res ∉ trace (SVC_Run first s)) /\
    (forall n, ELaunch n ∉ trace (SVC_Run first s)) /\
    (forall c, ESelect c ∉ trace (SVC_Run first s)) /\
    workersInitialized (final (SVC_Run first s)) = pre /\
    length (terminators (trace (SVC_Run first s))) = 1%nat /\
    terminated (trace (SVC_Run first s)) `sublist_of` rev pre /\
    (terminatesAll s -> terminated (trace (SVC_Run first s)) = rev pre) /\
    result (SVC_Run first s) = Val tt.
Proof.
  intros Hreg Hin.
  destruct (registered_wellRegistered regs s Hreg) as [Hwf _].
  pose proof Hwf as (_ & Hnd & _).
  split; [exact (Run_init_events first s name (Some e) Hwf Hin)|].
  apply elem_of_initCalls in Hin.
  destruct (Run_shape first s Hwf) as [Hlg | Hlg Hok Hf | t Hlg Hok Hf Hex
    | t Hlg Hok Hf Hex | pre post name' e' Hlg Hadd Hpre Hname];
    unfold trace, final, result in *; cbn [fst snd] in *.
  - by apply elem_of_nil in Hin.
  - autorewrite with shows in Hin.
    apply list_elem_of_fmap in Hin as (n & Heq & _). discriminate.
  - autorewrite with shows in Hin.
    apply list_elem_of_fmap in Hin as (n & Heq & _). discriminate.
  - autorewrite with shows in Hin.
    apply list_elem_of_fmap in Hin as (n & Heq & _). discriminate.
  - autorewrite with shows in Hin.
    apply elem_of_app in Hin as [Hin | Hin].
    { apply list_elem_of_fmap in Hin as (n & Heq & _). discriminate. }
    apply list_elem_of_singleton in Hin. injection Hin as <- <-.
    exists pre, post. split; [exact Hadd|].
    rewrite Hadd in Hnd. apply NoDup_app in Hnd as (_ & Hdisj & Hnd').
    apply NoDup_cons in Hnd' as [Hnotin _].
    repeat split.
    + intros n res Hn Hev. apply elem_of_initCalls in Hev.
      autorewrite with shows in Hev. apply elem_of_app in Hev as [Hev | Hev].
      * apply list_elem_of_fmap in Hev as (n' & Heq & Hn'). injection Heq as -> _.
        apply (Hdisj n' Hn'). by apply list_elem_of_further.
      * apply list_elem_of_singleton in Hev. injection Hev as -> _. by apply Hnotin.
    + intros n Hev. apply elem_of_launches in Hev. autorewrite with shows in Hev.
      by apply elem_of_nil in Hev.
    + intros c Hev. apply elem_of_selections in Hev. autorewrite with shows in Hev.
      by apply elem_of_nil in Hev.
    + autorewrite with shows. reflexivity.
    + rewrite (terminated_shutdownEvents _ (withInitialized pre s))
        by (autorewrite with shows; reflexivity).
      apply (terminator_sublist (withInitialized pre s)).
    + intros Hret.
      rewrite (terminated_shutdownEvents _ (withInitialized pre s))
        by (autorewrite with shows; reflexivity).
      destruct (terminator_all (withInitialized pre s)) as (calls & f & -> & Hn & _);
        [by apply initialized_present | exact Hret | exact Hn].
Qed.

(** C4.  For registrations that all return (their names are then
    distinct), the supervisor registers the names in order, and after the
    initialisation loop of [Run] the slice [workersInitialized] holds
    exactly the names whose [Init] step returned nil in that run (the event
    [EInit] carries what the step returns), in registration order and once
    each; it holds every registered name when the supervisor has a logger
    and every [Init] step returns nil. *)
Theorem initialized_are_the_successful (regs : list Registration)
    (first : option Terminal) (s : SVC) :
  registered regs s ->
  workersAdded s = map regName regs /\
  NoDup (map regName regs) /\
  (forall n r, EInit n r ∈ trace (SVC_Run first s) -> initOf s n = Some r) /\
  (forall n, n ∈ workersInitialized (final (SVC_Run first s)) <->
             EInit n None ∈ trace (SVC_Run first s)) /\
  workersInitialized (final (SVC_Run first s)) `sublist_of` map regName regs /\
  NoDup (workersInitialized (final (SVC_Run first s))) /\
  (logger s <> None ->
   (forall n, n ∈ map regName regs -> initOf s n = Some None) ->
   workersInitialized (final (SVC_Run first s)) = map regName regs).
Proof.
  intros Hreg.
  destruct (registered_wellRegistered regs s Hreg) as [Hwf Hnames].
  pose proof Hwf as (Hinit & Hnd & _).
  split; [exact Hnames|]. split; [by rewrite <- Hnames|].
  split; [intros n r; by apply Run_init_events|].
  rewrite <- Hnames.
  destruct (Run_shape first s Hwf) as [Hlg | Hlg Hok Hf | t Hlg Hok Hf Hex
    | t Hlg Hok Hf Hex | pre post name e Hlg Hadd Hpre Hname];
    unfold trace, final, result; cbn [fst snd withInitialized workersInitialized].
  - rewrite Hinit. repeat split.
    + intros H. by apply elem_of_nil in H.
    + intros H. by apply elem_of_nil in H.
    + apply sublist_nil_l.
    + constructor.
    + intros Hlg'. congruence.
  - repeat split; try done.
    + intros H. apply elem_of_initCalls. autorewrite with shows.
      by apply elem_of_ok_calls.
    + intros H. apply elem_of_initCalls in H. autorewrite with shows in H.
      by apply elem_of_ok_calls in H.
  - repeat split; try done.
    + intros H. apply elem_of_initCalls. autorewrite with shows.
      by apply elem_of_ok_calls.
    + intros H. apply elem_of_initCalls in H. autorewrite with shows in H.
      by apply elem_of_ok_calls in H.
  - repeat split; try done.
    + intros H. apply elem_of_initCalls. autorewrite with shows.
      by apply elem_of_ok_calls.
    + intros H. apply elem_of_initCalls in H. autorewrite with shows in H.
      by apply elem_of_ok_calls in H.
  - repeat split.
    + intros H. apply elem_of_initCalls. autorewrite with shows.
      apply elem_of_app. left. by apply elem_of_ok_calls.
    + intros H. apply elem_of_initCalls in H. autorewrite with shows in H.
      apply elem_of_app in H as [H | H]; [by apply elem_of_ok_calls in H|].
      apply list_elem_of_singleton in H. discriminate.
    + rewrite Hadd. by apply sublist_inserts_r.
    + rewrite Hadd in Hnd. by apply NoDup_app in Hnd as (? & _).
    + intros _ Hall. exfalso.
      assert (Hin : name ∈ workersAdded s).
      { rewrite Hadd. apply elem_of_app. right. apply list_elem_of_here. }
      apply Hall in Hin. congruence.
Qed.

(* ===================================================================== *)
(** ** The run phase: claims C1 and C2 *)
(* ===================================================================== *)

Lemma terminated_none (t : list Event) : terminators t = [] -> terminated t = [].
Proof. intros H. unfold terminated. rewrite terminateCalls_terminators, H. reflexivity. Qed.

(** C1, as amended.  When [Run] receives a worker's error [err] from the
    channel, every registered worker is initialised, and what follows
    depends on the error.  For a cancellation ([errors.Is(err,
    context.Canceled)]) the shutdown path runs once, calls [Terminate] only
    on initialised workers, last first (on all of them when every
    [Terminate] returns), and [Run] returns.  For any other error the
    [Fatal] log call ends the process: no [Terminate] is called and [Run]
    does not return. *)
Theorem run_error_outcome (regs : list Registration) (first : option Terminal)
    (s : SVC) (err : error) :
  registered regs s ->
  ESelect (TError err) ∈ trace (SVC_Run first s) ->
  workersInitialized (final (SVC_Run first s)) = map regName regs /\
  if isCanceled err then
    result (SVC_Run first s) = Val tt /\
    length (terminators (trace (SVC_Run first s))) = 1%nat /\
    terminated (trace (SVC_Run first s)) `sublist_of` rev (map regName regs) /\
    (terminatesAll s ->
     terminated (trace (SVC_Run first s)) = rev (map regName regs))
  else
    result (SVC_Run first s) = Exited 1 /\
    terminated (trace (SVC_Run first s)) = [].
Proof.
  intros Hreg Hin.
  destruct (registered_wellRegistered regs s Hreg) as [Hwf Hnames].
  rewrite <- Hnames. apply elem_of_selections in Hin.
  destruct (Run_shape first s Hwf) as [Hlg | Hlg Hok Hf | t Hlg Hok Hf Hex
    | t Hlg Hok Hf Hex | pre post name e Hlg Hadd Hpre Hname];
    unfold trace, final, result in *; cbn [fst snd withInitialized workersInitialized] in *;
    autorewrite with shows in Hin.
  - by apply elem_of_nil in Hin.
  - by apply elem_of_nil in Hin.
  - apply list_elem_of_singleton in Hin as <-. split; [reflexivity|].
    simpl in Hex. apply negb_true_iff in Hex. rewrite Hex.
    split; [reflexivity|]. apply terminated_none. autorewrite with shows. reflexivity.
  - apply list_elem_of_singleton in Hin as <-. split; [reflexivity|].
    simpl in Hex. apply negb_false_iff in Hex. rewrite Hex.
    assert (Ht : terminated
        (startEvent :: initEvents (workersAdded s) ++ launchEvents s ++
           selectEvents (TError err) ++ shutdownEvents (withInitialized (workersAdded s) s)) =
        map tcName (terminator (withInitialized (workersAdded s) s)).1.1).
    { apply terminated_shutdownEvents. autorewrite with shows. reflexivity. }
    rewrite Ht. repeat split.
    + autorewrite with shows. reflexivity.
    + apply (terminator_sublist (withInitialized (workersAdded s) s)).
    + intros Hret.
      destruct (terminator_all (withInitialized (workersAdded s) s))
        as (calls & f & -> & Hn & _);
        [by apply initialized_present | exact Hret | exact Hn].
  - by apply elem_of_nil in Hin.
Qed.

(** A worker's goroutine is started only by a supervisor that has a
    logger. *)
Lemma launched_has_logger (first : option Terminal) (s : SVC) (name : string) :
  ELaunch name ∈ trace (SVC_Run first s) -> exists lg, logger s = Some lg.
Proof.
  destruct (logger s) as [lg|] eqn:Hlg; [eauto|].
  rewrite (Run_nil_logger first s Hlg). intros H. by apply elem_of_nil in H.
Qed.

(** An error that [Run] returns goes to the channel under the worker's
    name. *)
Lemma returned_error_carries_name (s : SVC) (name : string) (w : Worker) (err : error) :
  Run w = RunReturns (Some err) ->
  sends (runUnit s name w) = [errorfExited name err] /\
  carriesName name (errorfExited name err) = true.
Proof.
  intros HR. unfold runUnit. rewrite HR. split; [reflexivity|].
  unfold carriesName, errorfExited. cbn [errorText].
  rewrite !append_assoc.
  apply (contains_app name "worker " (" exited: " ++ errorText err)).
Qed.

(** C2, as amended.  When the [Run] of a started worker panics, the
    deferred [recoverWait] catches the panic: the goroutine does not bring
    the process down, it marks the wait group done and then sends one error
    on the channel, which [Run] can receive.  That error is the recovered
    value itself when it is an error, and an error made of its text
    otherwise; the worker's name is not added to it (under any other name
    the goroutine would send the same error), and is written only to the
    log entry of a recovered error. *)
Theorem panic_is_forwarded (first : option Terminal) (s : SVC)
    (name : string) (w : Worker) (r : PanicValue) :
  workers s !! name = Some w ->
  ELaunch name ∈ trace (SVC_Run first s) ->
  Run w = RunPanics r ->
  (ACrash ∉ runUnit s name w) /\
  doneUnaided (runUnit s name w) = true /\
  sends (runUnit s name w) =
    [match r with PanicError err => err | PanicOther text => ErrText text end] /\
  selectable s (TError match r with PanicError err => err | PanicOther text => ErrText text end) /\
  (forall name', sends (runUnit s name' w) = sends (runUnit s name w)) /\
  (forall n err, ALogRecover n err ∈ runUnit s name w -> n = name /\ r = PanicError err).
Proof.
  intros Hw Hlaunch HR.
  destruct (launched_has_logger first s name Hlaunch) as [lg Hlg].
  assert (Hany : forall n, runUnit s n w =
    ADone :: match r with
             | PanicError err => [ALogRecover n err; ASend err]
             | PanicOther text => [ASend (ErrText text)]
             end).
  { intros n. unfold runUnit, recoverWait. rewrite HR, Hlg. reflexivity. }
  pose proof (Hany name) as Hunit.
  assert (Hsends : forall n, sends (runUnit s n w) =
    [match r with PanicError err => err | PanicOther text => ErrText text end]).
  { intros n. rewrite Hany. destruct r; reflexivity. }
  repeat split.
  - rewrite Hunit. destruct r; intros Hc;
      repeat (apply elem_of_cons in Hc as [Hc | Hc]; [discriminate|]);
      by apply elem_of_nil in Hc.
  - rewrite Hunit. reflexivity.
  - apply Hsends.
  - exists name, w. split; [exact Hw|]. rewrite Hsends. apply list_elem_of_here.
  - intros name'. by rewrite !Hsends.
  - rewrite Hunit in H. destruct r;
      repeat (apply elem_of_cons in H as [H | H]; [try discriminate|]);
      try (by apply elem_of_nil in H); by injection H.
  - rewrite Hunit in H. destruct r;
      repeat (apply elem_of_cons in H as [H | H]; [try discriminate|]);
      try (by apply elem_of_nil in H). by injection H as _ ->.
Qed.

(* ===================================================================== *)
(** ** Termination: claims C8 and C10 *)
(* ===================================================================== *)

Lemma runDeferred_prefix (ws : gmap string Worker) (stack : list string) :
  Forall (fun n => is_Some (ws !! n)) stack ->
  forall now, map tcName (runDeferred ws stack now).1.1 `prefix_of` stack.
Proof.
  induction 1 as [|name below [w Hw] _ IH]; intros now; simpl; [done|].
  rewrite Hw. destruct (Terminate w) as [err took|].
  - specialize (IH (now + took)%N).
    destruct (runDeferred ws below (now + took)) as [[calls fin] crashed].
    simpl in *. by apply prefix_cons.
  - simpl. apply prefix_cons, prefix_nil.
Qed.

Lemma runDeferred_head (ws : gmap string Worker) (name : string) (below : list string)
    (now : N) :
  is_Some (ws !! name) ->
  exists c rest, (runDeferred ws (name :: below) now).1.1 = c :: rest /\
                 tcName c = name /\ tcStart c = now.
Proof.
  intros [w Hw]. simpl. rewrite Hw. destruct (Terminate w) as [err took|].
  - destruct (runDeferred ws below (now + took)) as [[calls fin] crashed].
    simpl. eauto.
  - simpl. eauto.
Qed.

Lemma runDeferred_finished (ws : gmap string Worker) (stack : list string) :
  forall now f, (runDeferred ws stack now).1.2 = Some f ->
  (now <= f)%N /\
  Forall (fun c => exists e, tcEnd c = Some e /\ (e <= f)%N)
         (runDeferred ws stack now).1.1.
Proof.
  induction stack as [|name below IH]; intros now f; simpl.
  - intros [= <-]. split; [lia | constructor].
  - destruct (ws !! name) as [w|].
    + destruct (Terminate w) as [err took|]; [|discriminate].
      specialize (IH (now + took)%N f).
      destruct (runDeferred ws below (now + took)) as [[calls fin] crashed].
      simpl in *. intros Hf. destruct (IH Hf) as [Hle Hall].
      split; [lia|]. constructor; [|exact Hall]. simpl. eauto.
    + specialize (IH now f).
      destruct (runDeferred ws below now) as [[calls fin] crashed]. exact IH.
Qed.

Lemma runDeferred_blocks (ws : gmap string Worker) (stack : list string)
    (n : string) (w : Worker) :
  n ∈ stack -> ws !! n = Some w -> Terminate w = TerminateBlocks ->
  forall now, (runDeferred ws stack now).1.2 = None.
Proof.
  intros Hin Hw Hb. induction stack as [|name below IH]; intros now.
  - by apply elem_of_nil in Hin.
  - simpl. destruct (ws !! name) as [w'|] eqn:Hw'.
    + destruct (Terminate w') as [err took|] eqn:Ht; [|reflexivity].
      apply elem_of_cons in Hin as [-> | Hin]; [congruence|].
      specialize (IH Hin (now + took)%N).
      destruct (runDeferred ws below (now + took)) as [[calls fin] crashed]. exact IH.
    + apply elem_of_cons in Hin as [-> | Hin]; [congruence|].
      specialize (IH Hin now).
      destruct (runDeferred ws below now) as [[calls fin] crashed]. exact IH.
Qed.

(** The event [ETerminator] of a run is the schedule of the terminating
    goroutine for the workers that the run initialised. *)
Lemma Run_terminator (regs : list Registration) (first : option Terminal) (s : SVC)
    (calls : list TerminateCall) (fin : option N) :
  registered regs s ->
  ETerminator calls fin ∈ trace (SVC_Run first s) ->
  exists names q,
    Forall (fun n => initOf s n = Some None) names /\
    SVC_Run first s =
      (trace (SVC_Run first s), withInitialized names (setSignals q s), Val tt) /\
    (terminator (withInitialized names s)).1 = (calls, fin) /\
    waits (trace (SVC_Run first s)) =
      [waitGroupTimeout fin (TerminationGracePeriod s)].
Proof.
  intros Hreg Hin.
  destruct (registered_wellRegistered regs s Hreg) as [Hwf _].
  apply elem_of_terminators in Hin.
  destruct (Run_shape first s Hwf) as [Hlg | Hlg Hok Hf | t Hlg Hok Hf Hex
    | t Hlg Hok Hf Hex | pre post name e Hlg Hadd Hpre Hname];
    unfold trace in *; cbn [fst snd] in *; autorewrite with shows in Hin;
    try (by apply elem_of_nil in Hin).
  - apply list_elem_of_singleton in Hin.
    exists (workersAdded s), (signals (received t s)).
    split; [exact Hok|]. split; [reflexivity|]. split; [by rewrite <- Hin|].
    autorewrite with shows. rewrite <- Hin. reflexivity.
  - apply list_elem_of_singleton in Hin. exists pre, (signals s).
    split; [exact Hpre|]. split; [by rewrite setSignals_same|].
    split; [by rewrite <- Hin|].
    autorewrite with shows. rewrite <- Hin. reflexivity.
Qed.

(** C10.  The calls of [Terminate] that the shutdown of a run makes are
    strictly sequential: a later call starts when every earlier one has
    returned.  They go through the initialised workers from the last to the
    first: the names of the calls are an initial part of the reversed slice
    [workersInitialized] (it stops at a [Terminate] that never returns, and
    is the whole reversed slice when every [Terminate] returns), and the
    worker initialised last is the first one terminated. *)
Theorem terminations_sequential_in_reverse (regs : list Registration)
    (first : option Terminal) (s : SVC) (calls : list TerminateCall) (fin : option N) :
  registered regs s ->
  ETerminator calls fin ∈ trace (SVC_Run first s) ->
  sequential calls /\
  map tcName calls `prefix_of` rev (workersInitialized (final (SVC_Run first s))) /\
  (forall l x, workersInitialized (final (SVC_Run first s)) = l ++ [x] ->
     exists c rest, calls = c :: rest /\ tcName c = x) /\
  (terminatesAll s ->
     map tcName calls = rev (workersInitialized (final (SVC_Run first s)))).
Proof.
  intros Hreg Hin.
  destruct (Run_terminator regs first s calls fin Hreg Hin)
    as (names & q & Hok & HR & Hterm & _).
  rewrite HR. unfold final. cbn [fst snd withInitialized workersInitialized].
  pose proof (initialized_present s names Hok) as Hpresent.
  assert (Hcalls : calls = (terminator (withInitialized names s)).1.1) by by rewrite Hterm.
  repeat split.
  - rewrite Hcalls. unfold terminator.
    eapply chained_sequential, runDeferred_chained.
  - rewrite Hcalls. unfold terminator. rewrite pushDefers_rev.
    apply runDeferred_prefix. apply Forall_rev. exact Hpresent.
  - intros l x Hl. rewrite Hcalls. unfold terminator. rewrite pushDefers_rev.
    cbn [withInitialized workersInitialized]. rewrite Hl, rev_app_distr. simpl.
    destruct (runDeferred_head (workers s) x (rev l)
                (Z.to_N (TerminationWaitPeriod s))) as (c & rest & Hc & Hname & _).
    + simpl in Hpresent. rewrite Hl in Hpresent.
      apply Forall_app in Hpresent as [_ Hx]. by inversion Hx.
    + exists c, rest. split; [exact Hc | exact Hname].
  - intros Hret.
    destruct (terminator_all (withInitialized names s) Hpresent Hret)
      as (calls' & f & Ht & Hn & _).
    rewrite Hcalls, Ht. exact Hn.
Qed.

(** C8.  The wait of the shutdown path is bounded by the termination grace
    period: once the terminating goroutine is started, [Run] waits no
    longer than the grace period (a negative one counts as zero), and then
    returns.  When the grace period ends while a call of [Terminate] is
    still to return, the wait lasts exactly the grace period.  Nothing
    cancels the goroutine: the calls it makes are the same under every
    grace period.  In particular, when the [Terminate] of an initialised
    worker never returns, the goroutine never finishes and [Run] still
    returns after the grace period, at once when that period is zero. *)
Theorem shutdown_wait_is_bounded (regs : list Registration)
    (first : option Terminal) (s : SVC) (calls : list TerminateCall) (fin : option N) :
  registered regs s ->
  ETerminator calls fin ∈ trace (SVC_Run first s) ->
  exists waited,
    waits (trace (SVC_Run first s)) = [waited] /\
    (waited <= Z.to_N (TerminationGracePeriod s))%N /\
    result (SVC_Run first s) = Val tt /\
    ((exists c, c ∈ calls /\ outstanding (Z.to_N (TerminationGracePeriod s)) c) ->
     waited = Z.to_N (TerminationGracePeriod s)) /\
    (forall d, (terminator (setTerminationGracePeriod d (final (SVC_Run first s)))).1
               = (calls, fin)) /\
    (forall n w, n ∈ workersInitialized (final (SVC_Run first s)) ->
       workers s !! n = Some w -> Terminate w = TerminateBlocks ->
       fin = None /\ waited = Z.to_N (TerminationGracePeriod s) /\
       (TerminationGracePeriod s = 0%Z -> waited = 0%N)).
Proof.
  intros Hreg Hin.
  destruct (Run_terminator regs first s calls fin Hreg Hin)
    as (names & q & Hok & HR & Hterm & Hwaits).
  exists (waitGroupTimeout fin (TerminationGracePeriod s)).
  split; [exact Hwaits|]. rewrite HR. unfold final, result.
  cbn [fst snd withInitialized workersInitialized].
  assert (Hbound : (waitGroupTimeout fin (TerminationGracePeriod s)
                    <= Z.to_N (TerminationGracePeriod s))%N).
  { unfold waitGroupTimeout. destruct fin; lia. }
  assert (Hblocks : forall n w, n ∈ names -> workers s !! n = Some w ->
            Terminate w = TerminateBlocks -> fin = None).
  { intros n w Hn Hw Hb.
    assert (Hfin : fin = (terminator (withInitialized names s)).1.2) by by rewrite Hterm.
    rewrite Hfin. unfold terminator. rewrite pushDefers_rev.
    apply (runDeferred_blocks _ _ n w); [|exact Hw|exact Hb].
    cbn [withInitialized workersInitialized].
    apply list_elem_of_In, (proj1 (in_rev names n)), list_elem_of_In, Hn. }
  repeat split; try done.
  - intros (c & Hc & Hout). unfold waitGroupTimeout.
    destruct fin as [f|]; [|reflexivity].
    assert (Hf : (terminator (withInitialized names s)).1.2 = Some f) by by rewrite Hterm.
    apply runDeferred_finished in Hf as [_ Hall].
    fold (terminator (withInitialized names s)) in Hall. rewrite Hterm in Hall.
    rewrite Forall_forall in Hall. destruct (Hall c Hc) as (e & He & Hle).
    unfold outstanding in Hout. rewrite He in Hout. lia.
  - by apply (Hblocks n w).
  - rewrite (Hblocks n w) by done. reflexivity.
  - intros Hz. rewrite (Hblocks n w) by done. simpl. by rewrite Hz.
Qed.

(* ===================================================================== *)
(** ** Registration and construction: claims C5 and C9 *)
(* ===================================================================== *)

Lemma registerAll_keys (regs : list Registration) : forall s s' t,
  registerAll regs s = (t, s', Val tt) ->
  forall n, n ∈ map regName regs \/ is_Some (workers s !! n) ->
            is_Some (workers s' !! n).
Proof.
  induction regs as [|r regs IH]; intros s s' t H n Hn.
  - injection H as _ <-. destruct Hn as [Hn | Hn]; [by apply elem_of_nil in Hn | exact Hn].
  - simpl in H. unfold bind in H.
    destruct (register r s) as [[t1 s1] [[]| | |]] eqn:Hr; try discriminate.
    destruct (registerAll regs s1) as [[t2 s2] r2] eqn:Hrest.
    injection H as _ <- ->.
    apply register_returns in Hr as (_ & _ & _ & Hkeys).
    apply (IH s1 s2 t2 Hrest). simpl in Hn.
    destruct Hn as [Hn | Hn].
    + apply elem_of_cons in Hn as [-> | Hn]; [|by left].
      right. apply Hkeys. by left.
    + right. apply Hkeys. by right.
Qed.

Lemma AddWorkerWithInitRetry_taken (name : string) (w : Worker) (opts : RetryOpts)
    (s : SVC) :
  is_Some (workers s !! name) ->
  AddWorkerWithInitRetry name w opts s = AddWorker name w s.
Proof.
  intros Hw. unfold AddWorkerWithInitRetry, bind.
  rewrite (AddWorker_taken name w s Hw). destruct (logger s); reflexivity.
Qed.

(** C5.  Once a name is registered on a supervisor, through [AddWorker] or
    [AddWorkerWithInitRetry] and whatever is registered after it, a second
    registration of that name, by either function and with any worker,
    does not return and registers nothing: on a supervisor with a logger
    the [Fatal] entry for the duplicate name is written and the process
    exits with status 1, during the call itself; with a nil logger that log
    call panics. *)
Theorem duplicate_registration_is_fatal (regs : list Registration) (s0 s : SVC)
    (t : list Event) (name : string) (w : Worker) (opts : RetryOpts) :
  registerAll regs s0 = (t, s, Val tt) ->
  name ∈ map regName regs ->
  fatal (result (AddWorker name w s)) /\
  fatal (result (AddWorkerWithInitRetry name w opts s)) /\
  final (AddWorker name w s) = s /\
  final (AddWorkerWithInitRetry name w opts s) = s /\
  (logger s <> None ->
   AddWorker name w s =
     ([ELog FatalLevel "Duplicate worker names!" (Some name)], s, Exited 1) /\
   AddWorkerWithInitRetry name w opts s =
     ([ELog FatalLevel "Duplicate worker names!" (Some name)], s, Exited 1)).
Proof.
  intros Hregs Hname.
  assert (Htaken : is_Some (workers s !! name)).
  { apply (registerAll_keys regs s0 s t Hregs). by left. }
  rewrite (AddWorkerWithInitRetry_taken name w opts s Htaken).
  rewrite (AddWorker_taken name w s Htaken).
  destruct (logger s) as [lg|]; repeat split; try exact I; congruence.
Qed.

Lemma keeps_ret {A} (a : A) : keeps (ret a).
Proof. intros s. split; reflexivity. Qed.

Lemma keeps_panic {A} (f : Fault) : keeps (@panic A f).
Proof. intros s. split; reflexivity. Qed.

Lemma keeps_get : keeps get.
Proof. intros s. split; reflexivity. Qed.

Lemma keeps_bind {A B} (m : M A) (k : A -> M B) :
  keeps m -> (forall a, keeps (k a)) -> keeps (bind m k).
Proof.
  intros Hm Hk s. unfold bind. specialize (Hm s).
  destruct (m s) as [[t1 s1] [a| | |]]; unfold final in *; simpl in *; try exact Hm.
  specialize (Hk a s1). destruct (k a s1) as [[t2 s2] r]. unfold final in Hk.
  simpl in *. destruct Hm as [Hm1 Hm2], Hk as [Hk1 Hk2]. split; congruence.
Qed.

Lemma keeps_setRouter (r : option ServeMux) : keeps (modify (setRouter r)).
Proof. intros s. split; reflexivity. Qed.

Lemma keeps_setWait (d : Z) : keeps (modify (setTerminationWaitPeriod d)).
Proof. intros s. split; reflexivity. Qed.

Lemma keeps_setGrace (d : Z) : keeps (modify (setTerminationGracePeriod d)).
Proof. intros s. split; reflexivity. Qed.

Lemma keeps_HandleFunc (pattern : string) (h : Handler) : keeps (HandleFunc pattern h).
Proof.
  unfold HandleFunc. apply keeps_bind; [apply keeps_get|]. intros s.
  destruct (Router s) as [mux|]; [|apply keeps_panic].
  destruct (bool_decide _); [apply keeps_panic | apply keeps_setRouter].
Qed.

Create HintDb keeps.
#[local] Hint Resolve keeps_ret keeps_panic keeps_get keeps_setRouter keeps_setWait
  keeps_setGrace keeps_HandleFunc : keeps.

Lemma keeps_applyOption (o : Option) : keeps (applyOption o).
Proof.
  destruct o; simpl; repeat (apply keeps_bind; [auto with keeps | intros ?]);
    auto with keeps.
Qed.

Lemma keeps_applyOptions (opts : list Option) : keeps (applyOptions opts).
Proof.
  induction opts as [|o opts IH]; simpl; [apply keeps_ret|].
  apply keeps_bind; [apply keeps_applyOption|]. intros [e|]; [apply keeps_ret | exact IH].
Qed.

(** C9.  The supervisor that [New] returns, for any name, version and list
    of the options of options.go, has a nil logger, so [Logger()] returns
    nil, and no worker.  On it, the log call that [AddWorker] makes for a
    worker without [Healther] or without [Aliver] dereferences the nil
    logger: the call panics and registers nothing. *)
Theorem New_leaves_logger_nil (name version : string) (opts : list Option)
    (s : SVC) (err : option error) :
  New name version opts = Val (Some s, err) ->
  err = None /\
  logger s = None /\
  SVC_Logger s = None /\
  workers s = ∅ /\
  (forall n w, implements (Healthy w) && implements (Alive w) = false ->
     AddWorker n w s = ([], s, Panicked NilDereference)).
Proof.
  intros HN. unfold New in HN.
  destruct (keeps_applyOptions opts (newSVC name version)) as [Hl Hw].
  destruct (applyOptions opts (newSVC name version)) as [[t s'] [[e|]| | |]];
    try discriminate.
  injection HN as <- <-. unfold final in *. simpl in Hl, Hw.
  repeat split; try done.
  intros n w Hcap. unfold AddWorker, bind, get, logMsg, ret. cbv beta iota.
  rewrite Hw, lookup_empty. cbv beta iota.
  destruct (implements (Healthy w)), (implements (Alive w)); try discriminate;
    cbv beta iota; repeat (rewrite Hl; cbv beta iota); reflexivity.
Qed.

(* ===================================================================== *)
(** ** The health probes: claims C6 and C7 *)
(* ===================================================================== *)

Lemma liveErrs_probe (iter : list (string * Worker)) : forall errs,
  liveErrs iter errs = probeErrs Alive iter errs.
Proof.
  induction iter as [|[n w] iter IH]; intros errs; simpl; [reflexivity|].
  destruct (Alive w) as [[err|]|]; apply IH.
Qed.

Lemma readyErrs_probe (iter : list (string * Worker)) : forall errs,
  readyErrs iter errs = probeErrs Healthy iter errs.
Proof.
  induction iter as [|[n w] iter IH]; intros errs; simpl; [reflexivity|].
  destruct (Healthy w) as [[err|]|]; apply IH.
Qed.

Section ProbeLoop.
Variable cap : Worker -> option (option error).

Lemma probeErrs_acc (iter : list (string * Worker)) : forall errs,
  probeErrs cap iter errs = errs ++ probeErrs cap iter [].
Proof.
  induction iter as [|[n w] iter IH]; intros errs; simpl.
  - by rewrite app_nil_r.
  - destruct (cap w) as [[err|]|]; [|apply IH|apply IH].
    rewrite (IH (errs ++ _)), (IH [_]), <- app_assoc. reflexivity.
Qed.

Lemma elem_of_probeErrs (iter : list (string * Worker)) (e : error) :
  e ∈ probeErrs cap iter [] <->
  exists n w err, (n, w) ∈ iter /\ cap w = Some (Some err) /\ e = errorfWorker n err.
Proof.
  induction iter as [|[n w] iter IH]; simpl.
  - split; [intros H; by apply elem_of_nil in H|].
    intros (n & w & err & H & _). by apply elem_of_nil in H.
  - assert (Hskip : cap w = None \/ cap w = Some None ->
      (e ∈ probeErrs cap iter [] <->
       exists n0 w0 err, (n0, w0) ∈ (n, w) :: iter /\ cap w0 = Some (Some err) /\
                         e = errorfWorker n0 err)).
    { intros Hc. rewrite IH. split.
      - intros (n0 & w0 & err & Hin & Hcap & He). exists n0, w0, err.
        split; [by apply list_elem_of_further | auto].
      - intros (n0 & w0 & err & Hin & Hcap & He).
        apply elem_of_cons in Hin as [[= -> ->] | Hin]; [destruct Hc; congruence|].
        exists n0, w0, err. auto. }
    destruct (cap w) as [[err|]|] eqn:Hcap; [|apply Hskip; auto|apply Hskip; auto].
    rewrite probeErrs_acc. simpl. rewrite elem_of_cons, IH. split.
    + intros [-> | (n0 & w0 & err0 & Hin & Hc & He)].
      * exists n, w, err. split; [apply list_elem_of_here | auto].
      * exists n0, w0, err0. split; [by apply list_elem_of_further | auto].
    + intros (n0 & w0 & err0 & Hin & Hc & He).
      apply elem_of_cons in Hin as [[= -> ->] | Hin].
      * left. congruence.
      * right. exists n0, w0, err0. auto.
Qed.

Lemma probeErrs_skip (iter : list (string * Worker)) : forall errs,
  probeErrs cap (filter (fun nw => implements (cap nw.2) = true) iter) errs =
  probeErrs cap iter errs.
Proof.
  induction iter as [|[n w] iter IH]; intros errs; [reflexivity|].
  rewrite filter_cons. simpl.
  destruct (cap w) as [[err|]|] eqn:Hcap; simpl.
  - destruct (decide (true = true)); [|done]. simpl. rewrite Hcap. apply IH.
  - destruct (decide (true = true)); [|done]. simpl. rewrite Hcap. apply IH.
  - destruct (decide (false = true)); [done|]. apply IH.
Qed.
End ProbeLoop.

Lemma probeErrs_omap (cap : Worker -> option (option error))
    (iter : list (string * Worker)) :
  probeErrs cap iter [] = omap (reported cap) iter.
Proof.
  induction iter as [|[n w] iter IH]; [reflexivity|].
  cbn [probeErrs omap list_omap]. unfold reported at 1. cbn [fst snd].
  destruct (cap w) as [[err|]|]; try exact IH.
  rewrite probeErrs_acc, IH. reflexivity.
Qed.

Lemma probeErrs_order (cap : Worker -> option (option error))
    (iter1 iter2 : list (string * Worker)) :
  iter1 ≡ₚ iter2 -> probeErrs cap iter1 [] ≡ₚ probeErrs cap iter2 [].
Proof. intros H. rewrite !probeErrs_omap. by apply omap_Permutation. Qed.


(** The text of a collected error: the name of the worker, then the text
    of what its capability returned. *)
Lemma errorfWorker_text (n : string) (err : error) :
  errorfWorker n err = ErrText ("worker " ++ n ++ ": " ++ errorText err)%string.
Proof. reflexivity. Qed.

Lemma elem_of_ranges (s : SVC) (iter : list (string * Worker)) (n : string) (w : Worker) :
  ranges s iter -> (n, w) ∈ iter <-> workers s !! n = Some w.
Proof. intros H. unfold ranges in H. rewrite H. apply elem_of_map_to_list. Qed.

(** *** What the handlers send *)

Lemma sent_headerSet (k v : string) (rw : ResponseWriter) :
  sent (headerSet k v rw) = sent rw.
Proof. reflexivity. Qed.

Lemma sent_writeHeader (code : Z) (rw : ResponseWriter) :
  sent (writeHeader code rw) =
    if wroteHeader rw then sent rw else (true, code, body rw).
Proof. unfold writeHeader. destruct (wroteHeader rw); reflexivity. Qed.

Lemma sent_write (b : string) (rw : ResponseWriter) :
  sent (write b rw) =
    if wroteHeader rw then (true, status rw, (body rw ++ b)%string)
    else (true, 200%Z, (body rw ++ b)%string).
Proof.
  unfold write, sent. cbn [wroteHeader status body].
  unfold writeHeader. destruct (wroteHeader rw) eqn:E; cbn [wroteHeader status body];
    rewrite ?E; reflexivity.
Qed.

Lemma wroteHeader_sent (rw : ResponseWriter) : wroteHeader rw = (sent rw).1.1.
Proof. reflexivity. Qed.

Lemma status_sent (rw : ResponseWriter) : status rw = (sent rw).1.2.
Proof. reflexivity. Qed.

Lemma body_sent (rw : ResponseWriter) : body rw = (sent rw).2.
Proof. reflexivity. Qed.

(** The status and the body that go out for a response that the handler
    returns. *)
Lemma answer_returned (t : list Event) (rw : ResponseWriter) :
  answer (t, rw, Val tt) =
    Some (if wroteHeader rw then (status rw, body rw) else (200%Z, body rw)).
Proof.
  unfold answer, finish. cbn [fst snd].
  rewrite (status_sent (writeHeader _ _)), (body_sent (writeHeader _ _)), sent_writeHeader.
  destruct (wroteHeader rw); reflexivity.
Qed.

Lemma sent_httpError (msg : string) (code : Z) (rw : ResponseWriter) :
  wroteHeader rw = false ->
  sent (httpError msg code rw) = (true, code, (body rw ++ msg ++ newline)%string).
Proof.
  intros Hrw. unfold httpError.
  rewrite sent_write, (wroteHeader_sent (writeHeader _ _)),
    (status_sent (writeHeader _ _)), (body_sent (writeHeader _ _)), sent_writeHeader.
  rewrite (wroteHeader_sent (headerSet _ _ _)), (body_sent (headerSet _ _ _)),
    !sent_headerSet.
  unfold sent. cbn [fst snd]. rewrite Hrw. reflexivity.
Qed.

Section Answers.
Variable jsonMarshal : list error -> string + error.

Lemma liveHandler_result (s : SVC) (iter : list (string * Worker)) (rw : ResponseWriter) :
  result (liveHandler jsonMarshal s iter rw) =
    match liveErrs iter [], logger s with
    | _ :: _, None => Panicked NilDereference
    | _, _ => Val tt
    end.
Proof.
  unfold liveHandler, result.
  destruct (liveErrs iter []) as [|e errs]; cbn [length Nat.eqb snd]; [reflexivity|].
  destruct (logger s); [|reflexivity].
  destruct (jsonMarshal (e :: errs)); reflexivity.
Qed.

Lemma readyHandler_result (s : SVC) (iter : list (string * Worker)) (rw : ResponseWriter) :
  result (readyHandler jsonMarshal s iter rw) =
    match readyErrs iter [], logger s with
    | _ :: _, None => Panicked NilDereference
    | _, _ => Val tt
    end.
Proof.
  unfold readyHandler, result.
  destruct (readyErrs iter []) as [|e errs]; cbn [length Nat.ltb Nat.leb snd];
    [reflexivity|].
  destruct (logger s); [|reflexivity].
  destruct (jsonMarshal (e :: errs)); reflexivity.
Qed.

Lemma liveHandler_answer (s : SVC) (iter : list (string * Worker)) (rw : ResponseWriter) :
  wroteHeader rw = false ->
  answer (liveHandler jsonMarshal s iter rw) =
    match liveErrs iter [] with
    | [] => Some (200%Z, (body rw ++ stillAlive)%string)
    | errs =>
        match logger s with
        | None => None
        | Some _ =>
            match jsonMarshal errs with
            | inl b => Some (StatusServiceUnavailable, (body rw ++ b)%string)
            | inr err =>
                Some (StatusInternalServerError,
                      (body rw ++ errorText err ++ newline)%string)
            end
        end
    end.
Proof.
  intros Hrw. unfold liveHandler.
  destruct (liveErrs iter []) as [|e errs]; cbn [length Nat.eqb].
  - rewrite answer_returned.
    rewrite (wroteHeader_sent (write _ _)), (status_sent (write _ _)),
      (body_sent (write _ _)), sent_write.
    rewrite (wroteHeader_sent (headerSet _ _ _)), (body_sent (headerSet _ _ _)),
      sent_headerSet.
    unfold sent. cbn [fst snd]. rewrite Hrw. reflexivity.
  - destruct (logger s); [|reflexivity].
    destruct (jsonMarshal (e :: errs)) as [b|err].
    + rewrite answer_returned.
      rewrite (wroteHeader_sent (write _ _)), (status_sent (write _ _)),
        (body_sent (write _ _)), sent_write.
      rewrite (wroteHeader_sent (writeHeader _ _)), (status_sent (writeHeader _ _)),
        (body_sent (writeHeader _ _)), sent_writeHeader.
      rewrite (wroteHeader_sent (headerSet _ _ _)), (body_sent (headerSet _ _ _)),
        sent_headerSet.
      unfold sent. cbn [fst snd]. rewrite Hrw. reflexivity.
    + rewrite answer_returned.
      rewrite (wroteHeader_sent (httpError _ _ _)), (status_sent (httpError _ _ _)),
        (body_sent (httpError _ _ _)), (sent_httpError _ _ _ Hrw).
      reflexivity.
Qed.

Lemma readyHandler_answer (s : SVC) (iter : list (string * Worker)) (rw : ResponseWriter) :
  wroteHeader rw = false ->
  answer (readyHandler jsonMarshal s iter rw) =
    match readyErrs iter [] with
    | [] => Some (200%Z, body rw)
    | errs =>
        match logger s with
        | None => None
        | Some _ =>
            match jsonMarshal errs with
            | inl b => Some (StatusServiceUnavailable, (body rw ++ b)%string)
            | inr err =>
                Some (StatusInternalServerError,
                      (body rw ++ errorText err ++ newline)%string)
            end
        end
    end.
Proof.
  intros Hrw. unfold readyHandler.
  destruct (readyErrs iter []) as [|e errs]; cbn [length Nat.ltb Nat.leb].
  - rewrite answer_returned, Hrw. reflexivity.
  - destruct (logger s); [|reflexivity].
    destruct (jsonMarshal (e :: errs)) as [b|err].
    + rewrite answer_returned.
      rewrite (wroteHeader_sent (write _ _)), (status_sent (write _ _)),
        (body_sent (write _ _)), sent_write.
      rewrite (wroteHeader_sent (headerSet _ _ _)), (status_sent (headerSet _ _ _)),
        (body_sent (headerSet _ _ _)), sent_headerSet, sent_writeHeader, Hrw.
      reflexivity.
    + rewrite answer_returned.
      rewrite (wroteHeader_sent (httpError _ _ _)), (status_sent (httpError _ _ _)),
        (body_sent (httpError _ _ _)), (sent_httpError _ _ _ Hrw).
      reflexivity.
Qed.
End Answers.

(** The answers with the encoder of encoding/json. *)
Lemma liveHandler_reports (s : SVC) (iter : list (string * Worker)) (rw : ResponseWriter) :
  wroteHeader rw = false ->
  answer (liveHandler jsonMarshalErrors s iter rw) =
    match liveErrs iter [] with
    | [] => Some (200%Z, (body rw ++ stillAlive)%string)
    | errs =>
        match logger s with
        | None => None
        | Some _ =>
            Some (StatusServiceUnavailable, (body rw ++ errorsJSON (length errs))%string)
        end
    end.
Proof.
  intros Hrw. rewrite (liveHandler_answer jsonMarshalErrors s iter rw Hrw).
  destruct (liveErrs iter []) as [|e errs]; [reflexivity|].
  destruct (logger s); reflexivity.
Qed.

Lemma readyHandler_reports (s : SVC) (iter : list (string * Worker)) (rw : ResponseWriter) :
  wroteHeader rw = false ->
  answer (readyHandler jsonMarshalErrors s iter rw) =
    match readyErrs iter [] with
    | [] => Some (200%Z, body rw)
    | errs =>
        match logger s with
        | None => None
        | Some _ =>
            Some (StatusServiceUnavailable, (body rw ++ errorsJSON (length errs))%string)
        end
    end.
Proof.
  intros Hrw. rewrite (readyHandler_answer jsonMarshalErrors s iter rw Hrw).
  destruct (readyErrs iter []) as [|e errs]; [reflexivity|].
  destruct (logger s); reflexivity.
Qed.

(** With errors to report and no logger, a probe panics in its log call,
    before it touches the response. *)
Lemma liveHandler_nil_logger (jsonMarshal : list error -> string + error)
    (s : SVC) (iter : list (string * Worker)) (rw : ResponseWriter) :
  liveErrs iter [] <> [] -> logger s = None ->
  liveHandler jsonMarshal s iter rw = ([], rw, Panicked NilDereference).
Proof.
  intros Herrs Hlg. unfold liveHandler.
  destruct (liveErrs iter []) as [|e errs]; [done|].
  cbn [length Nat.eqb]. rewrite Hlg. reflexivity.
Qed.

Lemma readyHandler_nil_logger (jsonMarshal : list error -> string + error)
    (s : SVC) (iter : list (string * Worker)) (rw : ResponseWriter) :
  readyErrs iter [] <> [] -> logger s = None ->
  readyHandler jsonMarshal s iter rw = ([], rw, Panicked NilDereference).
Proof.
  intros Herrs Hlg. unfold readyHandler.
  destruct (readyErrs iter []) as [|e errs]; [done|].
  cbn [length Nat.ltb Nat.leb]. rewrite Hlg. reflexivity.
Qed.

(** C6.  The live probe calls [Alive] only on the workers that implement
    [Aliver]: the errors it collects are those of the workers whose [Alive]
    returns one, each with the text "worker <name>: <error>", and the
    workers without the capability change nothing.  It answers 200 exactly
    when it collects no error, which is when no worker implements [Aliver]
    or every [Alive] returns nil.  When it has collected errors it does not
    report them as the claim says.  On a supervisor without a logger, which
    is what [New] returns, it panics in the log call and sends no answer,
    where the test of the probe expects 503.  On a supervisor with a logger
    it answers 503 with what the encoder returns (500 with the text of the
    encoder's error), and what the encoder of encoding/json returns for
    these errors tells how many there are and neither the names of the
    workers nor the errors. *)
Theorem live_probe_verdict (jsonMarshal : list error -> string + error)
    (s : SVC) (iter : list (string * Worker)) (rw : ResponseWriter) :
  ranges s iter ->
  wroteHeader rw = false ->
  (forall e, e ∈ liveErrs iter [] <->
     exists n w err, workers s !! n = Some w /\ Alive w = Some (Some err) /\
                     e = ErrText ("worker " ++ n ++ ": " ++ errorText err)%string) /\
  (liveErrs iter [] = [] <->
     forall n w, workers s !! n = Some w -> Alive w = None \/ Alive w = Some None) /\
  liveErrs (filter (fun nw => implements (Alive nw.2) = true) iter) [] = liveErrs iter [] /\
  (answerStatus (liveHandler jsonMarshal s iter rw) = Some 200%Z <-> liveErrs iter [] = []) /\
  (liveErrs iter [] = [] ->
     answer (liveHandler jsonMarshal s iter rw) = Some (200%Z, (body rw ++ stillAlive)%string)) /\
  (liveErrs iter [] <> [] ->
     (logger s = None ->
        liveHandler jsonMarshal s iter rw = ([], rw, Panicked NilDereference) /\
        answer (liveHandler jsonMarshal s iter rw) = None) /\
     (logger s <> None ->
        answer (liveHandler jsonMarshalErrors s iter rw) =
          Some (StatusServiceUnavailable,
                (body rw ++ errorsJSON (length (liveErrs iter [])))%string) /\
        (forall b, jsonMarshal (liveErrs iter []) = inl b ->
           answer (liveHandler jsonMarshal s iter rw) =
             Some (StatusServiceUnavailable, (body rw ++ b)%string)) /\
        (forall err, jsonMarshal (liveErrs iter []) = inr err ->
           answer (liveHandler jsonMarshal s iter rw) =
             Some (StatusInternalServerError,
                   (body rw ++ errorText err ++ newline)%string)))).
Proof.
  intros Hiter Hrw.
  assert (Hmem : forall e, e ∈ liveErrs iter [] <->
     exists n w err, workers s !! n = Some w /\ Alive w = Some (Some err) /\
                     e = ErrText ("worker " ++ n ++ ": " ++ errorText err)%string).
  { intros e. rewrite liveErrs_probe, elem_of_probeErrs. split.
    - intros (n & w & err & Hin & Hcap & ->). exists n, w, err.
      split; [by apply (elem_of_ranges s iter)|]. split; [exact Hcap|].
      apply errorfWorker_text.
    - intros (n & w & err & Hin & Hcap & ->). exists n, w, err.
      split; [by apply (elem_of_ranges s iter)|]. split; [exact Hcap|].
      symmetry. apply errorfWorker_text. }
  split; [exact Hmem|]. split; [|split].
  - split.
    + intros Hnil n w Hw. destruct (Alive w) as [[err|]|] eqn:Hcap; auto.
      exfalso.
      assert (Hin : ErrText ("worker " ++ n ++ ": " ++ errorText err)%string
                      ∈ liveErrs iter []).
      { apply Hmem. exists n, w, err. auto. }
      rewrite Hnil in Hin. by apply elem_of_nil in Hin.
    + intros Hall. destruct (liveErrs iter []) as [|e errs] eqn:He; [reflexivity|].
      exfalso.
      destruct (proj1 (Hmem e) (list_elem_of_here _ _)) as (n & w & err & Hw & Hcap & _).
      destruct (Hall n w Hw); congruence.
  - rewrite !liveErrs_probe. apply probeErrs_skip.
  - split; [|split].
    + unfold answerStatus. rewrite (liveHandler_answer jsonMarshal s iter rw Hrw).
      destruct (liveErrs iter []) as [|e errs]; simpl; [done|].
      destruct (logger s) as [lg|]; simpl; [|split; discriminate].
      destruct (jsonMarshal (e :: errs)); simpl; split; discriminate.
    + intros Hnil. rewrite (liveHandler_answer jsonMarshal s iter rw Hrw), Hnil.
      reflexivity.
    + intros Hsome. split.
      * intros Hlg. rewrite (liveHandler_nil_logger jsonMarshal s iter rw Hsome Hlg).
        split; reflexivity.
      * intros Hlg. rewrite (liveHandler_reports s iter rw Hrw).
        rewrite (liveHandler_answer jsonMarshal s iter rw Hrw).
        destruct (liveErrs iter []) as [|e errs]; [done|].
        destruct (logger s) as [lg|]; [|done].
        split; [reflexivity|]. split; intros x Hx; rewrite Hx; reflexivity.
Qed.



(* ===================================================================== *)
(** ** The claims on the examples *)
(* ===================================================================== *)

Lemma terminatesAll_list (s : SVC) :
  Forall (fun nw => Terminate nw.2 <> TerminateBlocks) (map_to_list (workers s)) ->
  terminatesAll s.
Proof.
  intros H n w Hw. apply elem_of_map_to_list in Hw.
  rewrite Forall_forall in H. exact (H (n, w) Hw).
Qed.

(** The registrations of an example return on the supervisor they start
    from. *)
Ltac by_registration s0 regs :=
  exists s0, (trace (registerAll regs s0));
  split; [repeat split; reflexivity | vm_compute; reflexivity].

(** An event is in the trace of an example. *)
Ltac in_trace :=
  vm_compute; repeat first [apply list_elem_of_here | apply list_elem_of_further].

(** Every [Terminate] of an example returns. *)
Ltac all_terminate :=
  apply terminatesAll_list; vm_compute;
  repeat (constructor; [discriminate|]); constructor.

(** C1 fails as stated: the worker [db] returns an error that is not a
    cancellation, [Run] receives it, and the process exits in the [Fatal]
    log call: the one initialised worker is never terminated and [Run]
    does not return. *)
Lemma failed_run_skips_shutdown :
  registered lostRegs lostSVC /\
  Run lost = RunReturns (Some (ErrText "connection lost")) /\
  selectable lostSVC (TError lostError) /\
  ESelect (TError lostError) ∈ trace (SVC_Run (Some (TError lostError)) lostSVC) /\
  workersInitialized (final (SVC_Run (Some (TError lostError)) lostSVC)) = ["db"] /\
  terminated (trace (SVC_Run (Some (TError lostError)) lostSVC)) = [] /\
  result (SVC_Run (Some (TError lostError)) lostSVC) = Exited 1.
Proof.
  split; [by_registration logged lostRegs|].
  split; [reflexivity|].
  split; [exists "db", lost; split; [reflexivity | in_trace]|].
  split; [in_trace|].
  repeat split; vm_compute; reflexivity.
Qed.

Lemma run_error_outcome_witness :
  registered canceledRegs canceledSVC /\
  ESelect (TError canceledError)
    ∈ trace (SVC_Run (Some (TError canceledError)) canceledSVC) /\
  result (SVC_Run (Some (TError canceledError)) canceledSVC) = Val tt /\
  terminated (trace (SVC_Run (Some (TError canceledError)) canceledSVC)) = ["sub"; "api"].
Proof.
  assert (Hreg : registered canceledRegs canceledSVC)
    by by_registration logged canceledRegs.
  assert (Hin : ESelect (TError canceledError)
    ∈ trace (SVC_Run (Some (TError canceledError)) canceledSVC)) by in_trace.
  split; [exact Hreg|]. split; [exact Hin|].
  destruct (run_error_outcome canceledRegs (Some (TError canceledError)) canceledSVC
              canceledError Hreg Hin) as [_ (Hres & _ & _ & Hall)].
  split; [exact Hres|]. apply Hall. all_terminate.
Defined.

(** C2 fails as stated: the worker [db] panics with the error "boom"; the
    error that its goroutine sends is that error, and the name of the
    worker does not occur in it. *)
Lemma panic_error_lacks_name :
  workers panickingSVC !! "db" = Some panicking /\
  ELaunch "db" ∈ trace (SVC_Run (Some (TSignal SIGTERM)) panickingSVC) /\
  Run panicking = RunPanics (PanicError (ErrText "boom")) /\
  sends (runUnit panickingSVC "db" panicking) = [ErrText "boom"] /\
  carriesName "db" (ErrText "boom") = false.
Proof.
  split; [reflexivity|]. split; [in_trace|]. repeat split; vm_compute; reflexivity.
Qed.

Lemma panic_is_forwarded_witness :
  workers panickingSVC !! "db" = Some panicking /\
  ELaunch "db" ∈ trace (SVC_Run (Some (TSignal SIGTERM)) panickingSVC) /\
  Run panicking = RunPanics (PanicError (ErrText "boom")) /\
  selectable panickingSVC (TError (ErrText "boom")).
Proof.
  assert (Hw : workers panickingSVC !! "db" = Some panicking) by reflexivity.
  assert (Hin : ELaunch "db" ∈ trace (SVC_Run (Some (TSignal SIGTERM)) panickingSVC))
    by in_trace.
  split; [exact Hw|]. split; [exact Hin|]. split; [reflexivity|].
  exact (proj1 (proj2 (proj2 (proj2
    (panic_is_forwarded (Some (TSignal SIGTERM)) panickingSVC "db" panicking
       (PanicError (ErrText "boom")) Hw Hin eq_refl))))).
Defined.

Lemma init_failure_stops_startup_witness :
  registered brokenRegs brokenSVC /\
  EInit "cache" (Some (ErrText "no configuration"))
    ∈ trace (SVC_Run (Some (TSignal SIGINT)) brokenSVC) /\
  terminated (trace (SVC_Run (Some (TSignal SIGINT)) brokenSVC)) = ["api"] /\
  result (SVC_Run (Some (TSignal SIGINT)) brokenSVC) = Val tt.
Proof.
  assert (Hreg : registered brokenRegs brokenSVC) by by_registration logged brokenRegs.
  assert (Hin : EInit "cache" (Some (ErrText "no configuration"))
    ∈ trace (SVC_Run (Some (TSignal SIGINT)) brokenSVC)) by in_trace.
  split; [exact Hreg|]. split; [exact Hin|].
  destruct (init_failure_stops_startup brokenRegs (Some (TSignal SIGINT)) brokenSVC
              "cache" (ErrText "no configuration") Hreg Hin)
    as (_ & pre & post & Hadd & _ & _ & _ & Hinit & _ & _ & Hall & Hres).
  split; [|exact Hres].
  rewrite Hall by all_terminate. rewrite <- Hinit. vm_compute. reflexivity.
Defined.

Lemma initialized_are_the_successful_witness :
  registered brokenRegs brokenSVC /\
  workersAdded brokenSVC = ["api"; "cache"; "db"] /\
  NoDup (workersInitialized (final (SVC_Run (Some (TSignal SIGINT)) brokenSVC))).
Proof.
  assert (Hreg : registered brokenRegs brokenSVC) by by_registration logged brokenRegs.
  split; [exact Hreg|].
  destruct (initialized_are_the_successful brokenRegs (Some (TSignal SIGINT)) brokenSVC Hreg)
    as (Hadd & _ & _ & _ & _ & Hnd & _).
  split; [exact Hadd | exact Hnd].
Defined.

Lemma duplicate_registration_is_fatal_witness :
  registerAll sickRegs logged = (trace (registerAll sickRegs logged), sickSVC, Val tt) /\
  "disk" ∈ map regName sickRegs /\
  AddWorkerWithInitRetry "disk" steady threeAttempts sickSVC =
    ([ELog FatalLevel "Duplicate worker names!" (Some "disk")], sickSVC, Exited 1).
Proof.
  assert (Hreg : registerAll sickRegs logged =
    (trace (registerAll sickRegs logged), sickSVC, Val tt)) by (vm_compute; reflexivity).
  assert (Hin : "disk" ∈ map regName sickRegs) by in_trace.
  split; [exact Hreg|]. split; [exact Hin|].
  destruct (duplicate_registration_is_fatal sickRegs logged sickSVC _ "disk" steady
              threeAttempts Hreg Hin) as (_ & _ & _ & _ & Hlogged).
  apply Hlogged. discriminate.
Defined.

Lemma New_leaves_logger_nil_witness :
  New "svc" "v1" [WithHealthz; WithTerminationGracePeriod 0; WithPProfHandlers]
    = Val (Some (final (applyOptions
                          [WithHealthz; WithTerminationGracePeriod 0; WithPProfHandlers]
                          (newSVC "svc" "v1"))), None) /\
  SVC_Logger (final (applyOptions
                       [WithHealthz; WithTerminationGracePeriod 0; WithPProfHandlers]
                       (newSVC "svc" "v1"))) = None.
Proof.
  assert (HN : New "svc" "v1" [WithHealthz; WithTerminationGracePeriod 0; WithPProfHandlers]
    = Val (Some (final (applyOptions
                          [WithHealthz; WithTerminationGracePeriod 0; WithPProfHandlers]
                          (newSVC "svc" "v1"))), None)) by (vm_compute; reflexivity).
  split; [exact HN|].
  exact (proj1 (proj2 (proj2 (New_leaves_logger_nil _ _ _ _ _ HN)))).
Defined.

Lemma live_probe_verdict_witness :
  New "dummy-service" "v0.0.0" [WithHealthz] = Val (Some healthzSVC, None) /\
  registerAll unwellRegs healthzSVC = ([], unwellSVC, Val tt) /\
  ranges unwellSVC (map_to_list (workers unwellSVC)) /\
  wroteHeader newResponse = false /\
  liveErrs (map_to_list (workers unwellSVC)) [] =
    [ErrText "worker dummy-worker: internal error, restart container"] /\
  liveHandler jsonMarshalErrors unwellSVC (map_to_list (workers unwellSVC)) newResponse =
    ([], newResponse, Panicked NilDereference).
Proof.
  assert (Hr : ranges unwellSVC (map_to_list (workers unwellSVC)))
    by (unfold ranges; reflexivity).
  split; [vm_compute; reflexivity|]. split; [vm_compute; reflexivity|].
  split; [exact Hr|]. split; [reflexivity|]. split; [vm_compute; reflexivity|].
  destruct (live_probe_verdict jsonMarshalErrors unwellSVC (map_to_list (workers unwellSVC))
              newResponse Hr eq_refl) as (_ & _ & _ & _ & _ & Hfail).
  destruct Hfail as [Hpanic _]; [vm_compute; discriminate|].
  apply Hpanic. vm_compute. reflexivity.
Defined.




Lemma shutdown_wait_is_bounded_witness :
  registered stuckRegs stuckSVC /\
  ETerminator [{| tcName := "db"; tcStart := 0; tcEnd := Some 5%N; tcErr := None |};
               {| tcName := "api"; tcStart := 5; tcEnd := None; tcErr := None |}] None
    ∈ trace (SVC_Run (Some (TSignal SIGTERM)) stuckSVC) /\
  waits (trace (SVC_Run (Some (TSignal SIGTERM)) stuckSVC)) = [0%N] /\
  result (SVC_Run (Some (TSignal SIGTERM)) stuckSVC) = Val tt.
Proof.
  assert (Hreg : registered stuckRegs stuckSVC) by by_registration hasty stuckRegs.
  assert (Hin : ETerminator [{| tcName := "db"; tcStart := 0; tcEnd := Some 5%N; tcErr := None |};
               {| tcName := "api"; tcStart := 5; tcEnd := None; tcErr := None |}] None
    ∈ trace (SVC_Run (Some (TSignal SIGTERM)) stuckSVC)) by in_trace.
  split; [exact Hreg|]. split; [exact Hin|].
  destruct (shutdown_wait_is_bounded stuckRegs (Some (TSignal SIGTERM)) stuckSVC _ _
              Hreg Hin) as (waited & Hw & Hle & Hres & _).
  split; [|exact Hres]. rewrite Hw. f_equal.
  change (TerminationGracePeriod stuckSVC) with 0%Z in Hle. simpl in Hle. lia.
Defined.

Lemma terminations_sequential_in_reverse_witness :
  registered canceledRegs canceledSVC /\
  ETerminator [{| tcName := "sub"; tcStart := 0; tcEnd := Some 5%N; tcErr := None |};
               {| tcName := "api"; tcStart := 5; tcEnd := Some 10%N; tcErr := None |}] (Some 10%N)
    ∈ trace (SVC_Run (Some TAllDone) canceledSVC) /\
  sequential [{| tcName := "sub"; tcStart := 0; tcEnd := Some 5%N; tcErr := None |};
              {| tcName := "api"; tcStart := 5; tcEnd := Some 10%N; tcErr := None |}].
Proof.
  assert (Hreg : registered canceledRegs canceledSVC)
    by by_registration logged canceledRegs.
  assert (Hin : ETerminator [{| tcName := "sub"; tcStart := 0; tcEnd := Some 5%N; tcErr := None |};
               {| tcName := "api"; tcStart := 5; tcEnd := Some 10%N; tcErr := None |}] (Some 10%N)
    ∈ trace (SVC_Run (Some TAllDone) canceledSVC)) by in_trace.
  split; [exact Hreg|]. split; [exact Hin|].
  exact (proj1 (terminations_sequential_in_reverse canceledRegs (Some TAllDone)
                  canceledSVC _ _ Hreg Hin)).
Defined.

(** *** The code on the examples *)

(** Two workers start and a third one's [Init] fails under its retry
    options: the run goes through the first two names, launches nothing and
    terminates the one worker it initialised. *)
Example broken_run :
  initCalls (trace (SVC_Run (Some (TSignal SIGINT)) brokenSVC)) =
    [("api", None); ("cache", Some (ErrText "no configuration"))] /\
  launches (trace (SVC_Run (Some (TSignal SIGINT)) brokenSVC)) = [] /\
  terminateCalls (trace (SVC_Run (Some (TSignal SIGINT)) brokenSVC)) =
    [{| tcName := "api"; tcStart := 0; tcEnd := Some 5%N; tcErr := None |}] /\
  workersInitialized (final (SVC_Run (Some (TSignal SIGINT)) brokenSVC)) = ["api"].
Proof. repeat split; vm_compute; reflexivity. Qed.

(** A worker whose [Alive] returns "disk full": the live probe collects
    that error under the worker's name and answers 503 with one empty
    object for it. *)
Example sick_live_probe :
  liveErrs (map_to_list (workers sickSVC)) [] = [ErrText "worker disk: disk full"] /\
  answer (liveHandler jsonMarshalErrors sickSVC (map_to_list (workers sickSVC)) newResponse)
    = Some (StatusServiceUnavailable, errorsJSON 1).
Proof. split; vm_compute; reflexivity. Qed.

(** The supervisor that [New] returns cannot run: the first log call of
    [Run] is on the nil logger. *)
Example new_supervisor_run :
  SVC_Run (Some (TSignal SIGINT)) (newSVC "svc" "v1") =
    ([], newSVC "svc" "v1", Panicked NilDereference).
Proof. reflexivity. Qed.

(** With a grace period of zero, [Run] returns at once while the
    [Terminate] of [api] is still to be called and never returns. *)
Example stuck_run :
  trace (SVC_Run (Some (TSignal SIGTERM)) stuckSVC) =
    [ELog InfoLevel "Starting up service" None;
     ELog DebugLevel "Initializing worker" (Some "api"); EInit "api" None;
     ELog DebugLevel "Initializing worker" (Some "db"); EInit "db" None;
     ELaunch "api"; ELaunch "db";
     ESelect (TSignal SIGTERM); ELog WarnLevel "Caught signal" (Some "terminated");
     ELog InfoLevel "Shutting down service" (Some "termination_grace_period");
     ELog InfoLevel "Terminating workers down service" (Some "termination_grace_period");
     ETerminator [{| tcName := "db"; tcStart := 0; tcEnd := Some 5%N; tcErr := None |};
                  {| tcName := "api"; tcStart := 5; tcEnd := None; tcErr := None |}] None;
     EWaited 0;
     ELog InfoLevel "All workers terminated" None;
     ELog InfoLevel "Service shutdown completed" None].
Proof. vm_compute. reflexivity. Qed.

(** The failure answers of the two probes differ in one header: the ready
    probe sets the content type after [WriteHeader], too late for it to go
    out. *)
Example failure_content_type :
  sentHeader (final (liveHandler jsonMarshalErrors logged [("disk", sick)] newResponse))
    !! "Content-Type" = Some "application/json" /\
  sentHeader (final (readyHandler jsonMarshalErrors logged [("disk", sick)] newResponse))
    !! "Content-Type" = None.
Proof. split; vm_compute; reflexivity. Qed.

(* ===================================================================== *)
(** ** Further properties: registration *)
(* ===================================================================== *)

(** [AddWorker] returns exactly on a free name and, when there is no
    logger, for a worker that implements both capabilities. *)
Lemma AddWorker_result (name : string) (w : Worker) (s : SVC) :
  result (AddWorker name w s) = Val tt <->
  workers s !! name = None /\ (logger s = None -> reportsBoth w = true).
Proof.
  destruct (workers s !! name) as [w'|] eqn:Hw.
  - rewrite AddWorker_taken by (rewrite Hw; eauto).
    split; [destruct (logger s); discriminate | intros [? _]; discriminate].
  - unfold AddWorker, bind, get, ret, modify, logMsg, reportsBoth, result.
    cbv beta iota. rewrite Hw. cbv beta iota.
    destruct (logger s) as [lg|] eqn:Hlg;
      destruct (implements (Healthy w)), (implements (Alive w));
      cbv beta iota; repeat (rewrite Hlg; cbv beta iota); simpl;
      split; try done; try (intros [_ H]; by specialize (H eq_refl)).
Qed.

Lemma register_state (r : Registration) (s s' : SVC) (t : list Event) :
  register r s = (t, s', Val tt) ->
  s' = match r with
       | Add name w => addWorkerEntry name w s
       | AddWithInitRetry name w retryOpts =>
           setInitRetryOpts name retryOpts (addWorkerEntry name w s)
       end.
Proof.
  destruct r as [name w | name w opts]; simpl.
  - intros H. by apply AddWorker_returns in H as [_ ->].
  - unfold AddWorkerWithInitRetry, bind, modify.
    destruct (AddWorker name w s) as [[t1 s1] [[]| | |]] eqn:HA; try discriminate.
    intros H. injection H as _ <-. by apply AddWorker_returns in HA as [_ ->].
Qed.

Lemma register_result (r : Registration) (s : SVC) :
  result (register r s) = Val tt <->
  workers s !! regName r = None /\ (logger s = None -> reportsBoth (regWorker r) = true).
Proof.
  destruct r as [name w | name w opts]; simpl; [apply AddWorker_result|].
  rewrite <- AddWorker_result. unfold AddWorkerWithInitRetry, bind, modify, result.
  destruct (AddWorker name w s) as [[t1 s1] [[]| | |]]; simpl; split; done.
Qed.

Lemma registerAll_free (regs : list Registration) : forall s s' t,
  registerAll regs s = (t, s', Val tt) ->
  forall n, n ∈ map regName regs -> workers s !! n = None.
Proof.
  induction regs as [|r regs IH]; intros s s' t H n Hn.
  - by apply elem_of_nil in Hn.
  - simpl in H. unfold bind in H.
    destruct (register r s) as [[t1 s1] [[]| | |]] eqn:Hr; try discriminate.
    destruct (registerAll regs s1) as [[t2 s2] r2] eqn:Hrest.
    injection H as _ <- ->.
    apply register_returns in Hr as (Hfree & _ & _ & Hkeys).
    simpl in Hn. apply elem_of_cons in Hn as [-> | Hn]; [exact Hfree|].
    pose proof (IH s1 s2 t2 Hrest n Hn) as Hnone.
    destruct (workers s !! n) as [w|] eqn:Hw; [|reflexivity].
    assert (Hsome : is_Some (workers s1 !! n)) by (apply Hkeys; right; eauto).
    rewrite Hnone in Hsome. by destruct Hsome.
Qed.

(** What a list of registrations that all return makes of any
    supervisor. *)
Lemma registerAll_lookup (regs : list Registration) : forall s s' t,
  registerAll regs s = (t, s', Val tt) ->
  (forall r, r ∈ regs ->
     workers s' !! regName r = Some (regWorker r) /\
     workerInitRetryOpts s' !! regName r =
       match regRetry r with
       | Some o => Some o
       | None => workerInitRetryOpts s !! regName r
       end) /\
  (forall n, n ∉ map regName regs ->
     workers s' !! n = workers s !! n /\
     workerInitRetryOpts s' !! n = workerInitRetryOpts s !! n) /\
  logger s' = logger s /\ Router s' = Router s /\ signals s' = signals s /\
  TerminationGracePeriod s' = TerminationGracePeriod s /\
  TerminationWaitPeriod s' = TerminationWaitPeriod s /\
  Name s' = Name s /\ Version s' = Version s /\
  workersInitialized s' = workersInitialized s.
Proof.
  induction regs as [|r regs IH]; intros s s' t H.
  - injection H as _ <-. split; [intros r Hr; by apply elem_of_nil in Hr|].
    repeat split; reflexivity.
  - simpl in H. unfold bind in H.
    destruct (register r s) as [[t1 s1] [[]| | |]] eqn:Hr; try discriminate.
    destruct (registerAll regs s1) as [[t2 s2] r2] eqn:Hrest.
    injection H as _ <- ->.
    pose proof (registerAll_free regs s1 s2 t2 Hrest) as Hfree.
    pose proof (register_returns r s s1 t1 Hr) as (_ & _ & _ & Hkeys).
    assert (Hnotin : regName r ∉ map regName regs).
    { intros Hin. apply Hfree in Hin.
      assert (Hsome : is_Some (workers s1 !! regName r)) by (apply Hkeys; by left).
      rewrite Hin in Hsome. by destruct Hsome. }
    apply register_state in Hr.
    destruct (IH s1 s2 t2 Hrest) as (Hin & Hout & Hl & Hro & Hsi & Hg & Hw & Hna & Hv & Hi).
    assert (Hs1 : workers s1 !! regName r = Some (regWorker r) /\
      workerInitRetryOpts s1 !! regName r =
        match regRetry r with
        | Some o => Some o
        | None => workerInitRetryOpts s !! regName r
        end).
    { subst s1. destruct r as [name w | name w opts]; simpl;
        rewrite ?lookup_insert_eq; auto. }
    assert (Hs1' : forall n, n <> regName r ->
      workers s1 !! n = workers s !! n /\
      workerInitRetryOpts s1 !! n = workerInitRetryOpts s !! n).
    { intros n Hn. subst s1. destruct r as [name w | name w opts]; simpl in *;
        rewrite ?lookup_insert_ne by congruence; auto. }
    split; [|split].
    + intros r' Hr'. apply elem_of_cons in Hr' as [-> | Hr'].
      * destruct (Hout (regName r) Hnotin) as [-> ->]. exact Hs1.
      * destruct (Hin r' Hr') as [Hw' Ho']. split; [exact Hw'|].
        rewrite Ho'. destruct (regRetry r'); [reflexivity|].
        apply Hs1'. intros Heq. apply Hnotin. rewrite <- Heq.
        apply list_elem_of_fmap. eauto.
    + intros n Hn. simpl in Hn. apply not_elem_of_cons in Hn as [Hne Hn].
      destruct (Hout n Hn) as [-> ->]. by apply Hs1'.
    + subst s1. destruct r as [name w | name w opts]; simpl in *;
        repeat split; assumption.
Qed.

(** X1.  Registrations that all return on a fresh supervisor can be read
    back: each name maps to the worker of its registration, has retry
    options exactly when it was registered with some, and its [Init] step
    is the worker's first [Init], or what [retry.Do] makes of the worker's
    [Init] under those options.  The names are kept in the order of the
    calls, no other name is registered, and the rest of the supervisor is
    as before. *)
Theorem registration_reads_back (regs : list Registration) (s0 s : SVC)
    (t : list Event) :
  fresh s0 ->
  registerAll regs s0 = (t, s, Val tt) ->
  workersAdded s = map regName regs /\
  (forall r, r ∈ regs ->
     workers s !! regName r = Some (regWorker r) /\
     workerInitRetryOpts s !! regName r = regRetry r /\
     initOf s (regName r) =
       Some match regRetry r with
            | Some opts => opts (Init (regWorker r))
            | None => Init (regWorker r) 0
            end) /\
  (forall n, n ∉ map regName regs ->
     workers s !! n = None /\ workerInitRetryOpts s !! n = None) /\
  logger s = logger s0 /\ Router s = Router s0 /\ signals s = signals s0 /\
  TerminationGracePeriod s = TerminationGracePeriod s0 /\
  TerminationWaitPeriod s = TerminationWaitPeriod s0 /\
  workersInitialized s = [].
Proof.
  intros Hfresh H.
  destruct (registered_wellRegistered regs s) as [_ Hadd]; [by exists s0, t|].
  destruct (registerAll_lookup regs s0 s t H)
    as (Hin & Hout & Hl & Hro & Hsi & Hg & Hw & _ & _ & Hi).
  destruct Hfresh as (Hw0 & Ho0 & _ & Hi0).
  assert (Hretry : forall r, r ∈ regs -> workerInitRetryOpts s !! regName r = regRetry r).
  { intros r Hr. destruct (Hin r Hr) as [_ ->].
    destruct (regRetry r); [reflexivity|]. rewrite Ho0. apply lookup_empty. }
  split; [exact Hadd|]. split; [|split].
  - intros r Hr. destruct (Hin r Hr) as [Hwr _]. split; [exact Hwr|].
    split; [by apply Hretry|]. pose proof (Hretry r Hr) as Ho.
    unfold initOf. unfold RetryOpts in *. rewrite Hwr, Ho. reflexivity.
  - intros n Hn. destruct (Hout n Hn) as [-> ->]. rewrite Hw0, Ho0.
    split; apply lookup_empty.
  - repeat split; congruence.
Qed.

Lemma registerAll_result (regs : list Registration) : forall s,
  result (registerAll regs s) = Val tt <->
  NoDup (map regName regs) /\
  (forall n, n ∈ map regName regs -> workers s !! n = None) /\
  (logger s = None -> forall r, r ∈ regs -> reportsBoth (regWorker r) = true).
Proof.
  induction regs as [|r regs IH]; intros s.
  - simpl. split; [intros _|reflexivity]. split; [constructor|].
    split; [intros n Hn; by apply elem_of_nil in Hn | intros _ r Hr; by apply elem_of_nil in Hr].
  - pose proof (register_result r s) as Hreg.
    simpl. unfold bind, result in *.
    destruct (register r s) as [[t1 s1] [[]| | |]] eqn:Hr; simpl in Hreg.
    + destruct (proj1 Hreg eq_refl) as [Hfree Hboth].
      pose proof (register_returns r s s1 t1 Hr) as (_ & _ & _ & Hkeys).
      assert (Hl : logger s1 = logger s).
      { apply register_state in Hr. subst s1. by destruct r. }
      specialize (IH s1). destruct (registerAll regs s1) as [[t2 s2] r2]. simpl in *.
      rewrite IH, Hl. split.
      * intros (Hnd & Hfree1 & Hboth1). split; [|split].
        -- constructor; [|exact Hnd]. intros Hin.
           specialize (Hfree1 _ Hin).
           assert (Hsome : is_Some (workers s1 !! regName r)) by (apply Hkeys; by left).
           rewrite Hfree1 in Hsome. by destruct Hsome.
        -- intros n Hn. apply elem_of_cons in Hn as [-> | Hn]; [exact Hfree|].
           specialize (Hfree1 n Hn).
           destruct (workers s !! n) as [w|] eqn:Hw; [|reflexivity].
           assert (Hsome : is_Some (workers s1 !! n)) by (apply Hkeys; right; eauto).
           rewrite Hfree1 in Hsome. by destruct Hsome.
        -- intros Hnil r' Hr'. apply elem_of_cons in Hr' as [-> | Hr']; auto.
      * intros (Hnd & Hfree0 & Hboth0). apply NoDup_cons in Hnd as [Hnotin Hnd].
        split; [exact Hnd|]. split.
        -- intros n Hn.
           destruct (workers s1 !! n) as [w|] eqn:Hw; [|reflexivity]. exfalso.
           assert (Hsome : is_Some (workers s1 !! n)) by eauto.
           apply Hkeys in Hsome as [-> | Hsome]; [done|].
           rewrite Hfree0 in Hsome by (by apply list_elem_of_further). by destruct Hsome.
        -- intros Hnil r' Hr'. apply Hboth0; [exact Hnil | by apply list_elem_of_further].
    + split; [discriminate|]. intros (Hnd & Hfree0 & Hboth0). exfalso.
      assert (Hgoal : @Panicked unit f = Val tt); [|discriminate].
      apply Hreg. split; [apply Hfree0, list_elem_of_here|].
      intros Hnil. apply Hboth0; [exact Hnil | apply list_elem_of_here].
    + split; [discriminate|]. intros (Hnd & Hfree0 & Hboth0). exfalso.
      assert (Hgoal : @Exited unit code = Val tt); [|discriminate].
      apply Hreg. split; [apply Hfree0, list_elem_of_here|].
      intros Hnil. apply Hboth0; [exact Hnil | apply list_elem_of_here].
    + split; [discriminate|]. intros (Hnd & Hfree0 & Hboth0). exfalso.
      assert (Hgoal : @Blocked unit = Val tt); [|discriminate].
      apply Hreg. split; [apply Hfree0, list_elem_of_here|].
      intros Hnil. apply Hboth0; [exact Hnil | apply list_elem_of_here].
Qed.

(** X2.  A list of registrations on a fresh supervisor goes through exactly
    when its names are distinct and, if the supervisor has no logger, every
    worker implements both [Healther] and [Aliver]: a worker that lacks one
    is registered only by a supervisor that can log the fact. *)
Theorem registration_succeeds_iff (regs : list Registration) (s0 : SVC) :
  fresh s0 ->
  (result (registerAll regs s0) = Val tt <->
   NoDup (map regName regs) /\
   (logger s0 = None -> forall r, r ∈ regs -> reportsBoth (regWorker r) = true)).
Proof.
  intros (Hw & _). rewrite registerAll_result. split.
  - intros (Hnd & _ & Hboth). auto.
  - intros (Hnd & Hboth). split; [exact Hnd|]. split; [|exact Hboth].
    intros n _. rewrite Hw. apply lookup_empty.
Qed.

(* ===================================================================== *)
(** ** Further properties: [Shutdown], [New] and [MustInit] *)
(* ===================================================================== *)

(** X3.  [Shutdown] only adds a [SIGTERM] to the buffered channel, and that
    channel holds three signals: on a supervisor whose [Run] is not
    receiving, [k] calls of [Shutdown] all return exactly when the signals
    already waiting and [k] make no more than three; the call that finds
    the buffer full never returns. *)
Theorem shutdown_capacity (k : nat) : forall s,
  (length (signals s) <= 3)%nat ->
  ((length (signals s) + k <= 3)%nat ->
   shutdowns k s = ([], setSignals (signals s ++ replicate k SIGTERM) s, Val tt)) /\
  ((3 < length (signals s) + k)%nat ->
   result (shutdowns k s) = Blocked /\
   length (signals (final (shutdowns k s))) = 3%nat).
Proof.
  induction k as [|k IH]; intros s Hcap.
  - split.
    + intros _. simpl. rewrite app_nil_r, setSignals_same. reflexivity.
    + intros H. lia.
  - assert (Hstep : shutdowns (S k) s =
      if (length (signals s) <? 3)%nat
      then shutdowns k (setSignals (signals s ++ [SIGTERM]) s)
      else ([], s, Blocked)).
    { simpl. unfold bind, Shutdown, bind, get, modify, block. cbv beta iota.
      destruct (length (signals s) <? 3)%nat; cbv beta iota; [|reflexivity].
      destruct (shutdowns k _) as [[t2 s2] r2]. reflexivity. }
    rewrite Hstep. clear Hstep.
    destruct (length (signals s) <? 3)%nat eqn:Hlt.
    + apply Nat.ltb_lt in Hlt.
      destruct (IH (setSignals (signals s ++ [SIGTERM]) s)) as [Hok Hfull].
      { simpl. rewrite length_app. simpl. lia. }
      simpl in Hok, Hfull. rewrite length_app in Hok, Hfull. simpl in Hok, Hfull.
      split.
      * intros Hle. rewrite Hok by lia. simpl. rewrite <- app_assoc. reflexivity.
      * intros Hgt. destruct Hfull as [Hres Hlen]; [lia|].
        destruct (shutdowns k _) as [[t2 s2] r2]. unfold result, final in *.
        simpl in *. split; [exact Hres | exact Hlen].
    + apply Nat.ltb_ge in Hlt. split; [intros Hle; lia|].
      intros _. unfold result, final. simpl. split; [reflexivity | lia].
Qed.

Lemma returnsOrPanics_modify (f : SVC -> SVC) : returnsOrPanics (modify f).
Proof. intros s. exact I. Qed.

Lemma returnsOrPanics_HandleFunc (pattern : string) (h : Handler) :
  returnsOrPanics (HandleFunc pattern h).
Proof.
  intros s. unfold HandleFunc, bind, get, result. cbv beta iota.
  destruct (Router s) as [mux|]; [|exact I].
  destruct (bool_decide _); exact I.
Qed.

Lemma returnsNilOrPanics_bind {A} (m : M A) (k : A -> M (option error)) :
  returnsOrPanics m -> (forall a, returnsNilOrPanics (k a)) ->
  returnsNilOrPanics (bind m k).
Proof.
  intros Hm Hk s. specialize (Hm s). unfold bind, result in *.
  destruct (m s) as [[t1 s1] [a| | |]]; simpl in *; try done.
  specialize (Hk a s1). unfold result in Hk.
  destruct (k a s1) as [[t2 s2] r]. exact Hk.
Qed.

Lemma returnsNilOrPanics_applyOption (o : Option) : returnsNilOrPanics (applyOption o).
Proof.
  destruct o; simpl;
    repeat (apply returnsNilOrPanics_bind;
            [first [apply returnsOrPanics_modify | apply returnsOrPanics_HandleFunc]
            | intros ?]);
    intros s; exact I.
Qed.

Lemma returnsNilOrPanics_applyOptions (opts : list Option) :
  returnsNilOrPanics (applyOptions opts).
Proof.
  induction opts as [|o opts IH]; simpl; [intros s; exact I|].
  intros s. pose proof (returnsNilOrPanics_applyOption o s) as Ho.
  unfold bind, result in *.
  destruct (applyOption o s) as [[t1 s1] [[e|]| | |]]; simpl in *; try done.
  specialize (IH s1). unfold result in IH.
  destruct (applyOptions opts s1) as [[t2 s2] r]. exact IH.
Qed.

(** X4.  [New] with the options of options.go never returns an error: it
    returns a supervisor and a nil error, or it panics.  So [MustInit]
    gives back every supervisor that [New] returns; and because that
    supervisor has no logger, [MustInit] called on it with an error of
    another origin panics with that error, without a [Fatal] log entry. *)
Theorem MustInit_after_New (name version : string) (opts : list Option) :
  match New name version opts with
  | Val (s, err) =>
      is_Some s /\ err = None /\ MustInit s err = MustReturns s /\
      forall e, MustInit s (Some e) = MustPanics e
  | Panicked _ => True
  | Exited _ | Blocked => False
  end.
Proof.
  unfold New.
  pose proof (returnsNilOrPanics_applyOptions opts (newSVC name version)) as Hr.
  destruct (keeps_applyOptions opts (newSVC name version)) as [Hl _].
  unfold result, final in *.
  destruct (applyOptions opts (newSVC name version)) as [[t s'] [[e|]| | |]];
    simpl in *; try done.
  repeat split; [eauto|]. intros e. rewrite Hl. reflexivity.
Qed.

(** *** The routes and the periods that the options leave *)

Lemma bind_assoc {A B C} (m : M A) (k : A -> M B) (h : B -> M C) (s : SVC) :
  bind (bind m k) h s = bind m (fun a => bind (k a) h) s.
Proof.
  unfold bind. destruct (m s) as [[t1 s1] [a| | |]]; try reflexivity.
  destruct (k a s1) as [[t2 s2] [b| | |]]; try reflexivity.
  destruct (h b s2) as [[t3 s3] r]. by rewrite app_assoc.
Qed.

Lemma bind_ext {A B} (m : M A) (k k' : A -> M B) :
  (forall a s, k a s = k' a s) -> forall s, bind m k s = bind m k' s.
Proof.
  intros H s. unfold bind. destruct (m s) as [[t1 s1] [a| | |]]; try reflexivity.
  by rewrite H.
Qed.

(** The options that add routes are a list of calls of [HandleFunc]. *)
Lemma applyOption_handleAll (o : Option) (s : SVC) :
  match o with WithPProfHandlers | WithHealthz => True | _ => False end ->
  applyOption o s = bind (handleAll (optionRoutes o)) (fun _ => ret None) s.
Proof.
  destruct o; try done; intros _; revert s; cbn [applyOption optionRoutes handleAll];
    repeat (intros s; rewrite bind_assoc; apply bind_ext; intros _; clear s);
    intros s; reflexivity.
Qed.

Lemma setRouter_same (s : SVC) (mux : ServeMux) :
  Router s = Some mux -> setRouter (Some mux) s = s.
Proof. destruct s; simpl. by intros ->. Qed.

Lemma HandleFunc_free (pattern : string) (h : Handler) (s : SVC) (mux : ServeMux) :
  Router s = Some mux -> pattern ∉ mux.*1 ->
  HandleFunc pattern h s = ([], setRouter (Some (mux ++ [(pattern, h)])) s, Val tt).
Proof.
  intros Hr Hfree. unfold HandleFunc, bind, get, modify. cbv beta iota. rewrite Hr.
  rewrite bool_decide_eq_false_2 by exact Hfree. reflexivity.
Qed.

Lemma HandleFunc_taken (pattern : string) (h : Handler) (s : SVC) (mux : ServeMux) :
  Router s = Some mux -> pattern ∈ mux.*1 ->
  HandleFunc pattern h s = ([], s, Panicked (MultipleRegistrations pattern)).
Proof.
  intros Hr Htaken. unfold HandleFunc, bind, get, panic. cbv beta iota. rewrite Hr.
  rewrite bool_decide_eq_true_2 by exact Htaken. reflexivity.
Qed.

Lemma handleAll_distinct (routes : list (string * Handler)) : forall s mux,
  Router s = Some mux ->
  NoDup (mux.*1 ++ routes.*1) ->
  handleAll routes s = ([], setRouter (Some (mux ++ routes)) s, Val tt).
Proof.
  induction routes as [|[p h] routes IH]; intros s mux Hr Hnd.
  - simpl. rewrite app_nil_r. by rewrite setRouter_same.
  - cbn [handleAll]. unfold bind.
    assert (Hfree : p ∉ mux.*1).
    { apply NoDup_app in Hnd as (_ & Hdisj & _). intros Hin.
      apply (Hdisj p Hin). simpl. apply list_elem_of_here. }
    rewrite (HandleFunc_free p h s mux Hr Hfree).
    rewrite (IH (setRouter (Some (mux ++ [(p, h)])) s) (mux ++ [(p, h)])).
    + simpl. rewrite <- app_assoc. reflexivity.
    + reflexivity.
    + rewrite fmap_app. simpl. rewrite <- app_assoc. exact Hnd.
Qed.

Lemma handleAll_repeated (routes : list (string * Handler)) : forall s mux,
  Router s = Some mux ->
  NoDup (mux.*1) ->
  ~ NoDup (mux.*1 ++ routes.*1) ->
  exists p s', handleAll routes s = ([], s', Panicked (MultipleRegistrations p)).
Proof.
  induction routes as [|[p h] routes IH]; intros s mux Hr Hmux Hnd.
  - exfalso. apply Hnd. simpl. by rewrite app_nil_r.
  - cbn [handleAll]. unfold bind.
    destruct (decide (p ∈ mux.*1)) as [Hin | Hfree].
    + rewrite (HandleFunc_taken p h s mux Hr Hin). eauto.
    + rewrite (HandleFunc_free p h s mux Hr Hfree).
      destruct (IH (setRouter (Some (mux ++ [(p, h)])) s) (mux ++ [(p, h)]))
        as (p' & s' & ->).
      * reflexivity.
      * rewrite fmap_app. simpl. apply NoDup_app. split; [exact Hmux|].
        split; [|apply NoDup_singleton].
        intros x Hx Hx'. apply list_elem_of_singleton in Hx' as ->. by apply Hfree.
      * rewrite fmap_app. simpl. rewrite <- app_assoc. exact Hnd.
      * simpl. eauto.
Qed.

Lemma applyOption_routes (o : Option) (s : SVC) (mux : ServeMux) :
  isRouterOption o = false ->
  Router s = Some mux ->
  NoDup (mux.*1) ->
  (NoDup (mux.*1 ++ (optionRoutes o).*1) ->
   exists s', applyOption o s = ([], s', Val None) /\
              Router s' = Some (mux ++ optionRoutes o)) /\
  (~ NoDup (mux.*1 ++ (optionRoutes o).*1) ->
   exists p s', applyOption o s = ([], s', Panicked (MultipleRegistrations p))).
Proof.
  intros Hopt Hr Hmux.
  assert (Hhandle : match o with WithPProfHandlers | WithHealthz => True | _ => False end ->
    (NoDup (mux.*1 ++ (optionRoutes o).*1) ->
     exists s', applyOption o s = ([], s', Val None) /\
                Router s' = Some (mux ++ optionRoutes o)) /\
    (~ NoDup (mux.*1 ++ (optionRoutes o).*1) ->
     exists p s', applyOption o s = ([], s', Panicked (MultipleRegistrations p)))).
  { intros Ho. rewrite (applyOption_handleAll o s Ho). unfold bind. split.
    - intros Hnd. rewrite (handleAll_distinct _ s mux Hr Hnd). simpl. eauto.
    - intros Hnd. destruct (handleAll_repeated _ s mux Hr Hmux Hnd) as (p & s' & ->).
      eauto. }
  destruct o; try discriminate; try (apply Hhandle; exact I).
  - simpl. rewrite app_nil_r. split; [|done]. intros _.
    eexists. split; [reflexivity|]. simpl. by rewrite app_nil_r.
  - simpl. rewrite app_nil_r. split; [|done]. intros _.
    eexists. split; [reflexivity|]. simpl. by rewrite app_nil_r.
Qed.

Lemma applyOptions_routes (opts : list Option) : forall s mux,
  Forall (fun o => isRouterOption o = false) opts ->
  Router s = Some mux ->
  NoDup (mux.*1) ->
  (NoDup (mux.*1 ++ (flat_map optionRoutes opts).*1) ->
   exists s', applyOptions opts s = ([], s', Val None) /\
              Router s' = Some (mux ++ flat_map optionRoutes opts)) /\
  (~ NoDup (mux.*1 ++ (flat_map optionRoutes opts).*1) ->
   exists p s', applyOptions opts s = ([], s', Panicked (MultipleRegistrations p))).
Proof.
  induction opts as [|o opts IH]; intros s mux Hopts Hr Hmux.
  - simpl. rewrite !app_nil_r. split; [|done]. intros _. eauto.
  - inversion Hopts as [|? ? Ho Hrest]; subst.
    destruct (applyOption_routes o s mux Ho Hr Hmux) as [Hok Hdup].
    cbn [flat_map applyOptions]. rewrite fmap_app, app_assoc. unfold bind.
    destruct (decide (NoDup (mux.*1 ++ (optionRoutes o).*1))) as [Hnd | Hnd].
    + destruct (Hok Hnd) as (s1 & -> & Hr1).
      destruct (IH s1 (mux ++ optionRoutes o) Hrest Hr1) as [Hok' Hdup'];
        [by rewrite fmap_app|].
      rewrite fmap_app in Hok', Hdup'. split.
      * intros Hall. destruct (Hok' Hall) as (s' & -> & Hr').
        exists s'. split; [reflexivity|]. by rewrite Hr', <- app_assoc.
      * intros Hall. destruct (Hdup' Hall) as (p & s' & ->). eauto.
    + destruct (Hdup Hnd) as (p & s' & ->). split; [|eauto].
      intros Hall. exfalso. apply Hnd. by apply NoDup_app in Hall as (? & _).
Qed.

(** X5.  On the router that [New] makes, the options register their routes
    in the order of the list: when no option replaces the router, [New]
    returns exactly when all the patterns of the options are distinct,
    which they are not when [WithHealthz] or [WithPProfHandlers] is given
    twice, and the router then holds those routes in order; otherwise
    [http.ServeMux] panics on the repeated pattern. *)
Theorem New_routes (name version : string) (opts : list Option) :
  Forall (fun o => isRouterOption o = false) opts ->
  (NoDup (flat_map optionRoutes opts).*1 ->
   exists s, New name version opts = Val (Some s, None) /\
             Router s = Some (flat_map optionRoutes opts)) /\
  (~ NoDup (flat_map optionRoutes opts).*1 ->
   exists p, New name version opts = Panicked (MultipleRegistrations p)).
Proof.
  intros Hopts. unfold New.
  destruct (applyOptions_routes opts (newSVC name version) [] Hopts eq_refl)
    as [Hok Hdup]; [constructor|].
  simpl in Hok, Hdup. split.
  - intros Hnd. destruct (Hok Hnd) as (s' & -> & Hr). eauto.
  - intros Hnd. destruct (Hdup Hnd) as (p & s' & ->). eauto.
Qed.

Section Leaves.
Context {B : Type} (proj : SVC -> B).
Hypothesis proj_setRouter : forall r s, proj (setRouter r s) = proj s.

Lemma leaves_ret {A} (a : A) : leaves proj (ret a).
Proof. intros s. reflexivity. Qed.

Lemma leaves_bind {A C} (m : M A) (k : A -> M C) :
  leaves proj m -> (forall a, leaves proj (k a)) -> leaves proj (bind m k).
Proof.
  intros Hm Hk s. unfold bind. specialize (Hm s).
  destruct (m s) as [[t1 s1] [a| | |]]; unfold final in *; simpl in *; try exact Hm.
  specialize (Hk a s1). destruct (k a s1) as [[t2 s2] r]. unfold final in Hk.
  simpl in *. congruence.
Qed.

Lemma leaves_HandleFunc (pattern : string) (h : Handler) :
  leaves proj (HandleFunc pattern h).
Proof.
  intros s. unfold HandleFunc, bind, get, modify, panic, final. cbv beta iota.
  destruct (Router s) as [mux|]; [|reflexivity].
  destruct (bool_decide _); [reflexivity | apply proj_setRouter].
Qed.

Lemma leaves_applyOption (o : Option) :
  (forall s, proj (final (applyOption o s)) = proj s) \/
  match o with
  | WithTerminationWaitPeriod _ | WithTerminationGracePeriod _ => True
  | _ => False
  end.
Proof.
  destruct o; try (by right); left.
  - intros s. apply proj_setRouter.
  - simpl. repeat (apply leaves_bind; [apply leaves_HandleFunc | intros ?]).
    apply leaves_ret.
  - simpl. repeat (apply leaves_bind; [apply leaves_HandleFunc | intros ?]).
    apply leaves_ret.
Qed.
End Leaves.

Lemma applyOptions_split (pre : list Option) (o : Option) (post : list Option) :
  forall s0 s t,
  applyOptions (pre ++ o :: post) s0 = (t, s, Val None) ->
  exists t1 s1 t2 s2 t3,
    applyOptions pre s0 = (t1, s1, Val None) /\
    applyOption o s1 = (t2, s2, Val None) /\
    applyOptions post s2 = (t3, s, Val None).
Proof.
  induction pre as [|o' pre IH]; intros s0 s t H.
  - simpl in H. unfold bind in H.
    destruct (applyOption o s0) as [[t2 s2] [[e|]| | |]] eqn:Ho;
      try (simpl in H; discriminate).
    destruct (applyOptions post s2) as [[t3 s3] r3] eqn:Hpost.
    injection H as _ <- ->. exists [], s0, t2, s2, t3. auto.
  - simpl in H. unfold bind in H.
    destruct (applyOption o' s0) as [[t0 s0'] [[e|]| | |]] eqn:Ho';
      try (simpl in H; discriminate).
    destruct (applyOptions (pre ++ o :: post) s0') as [[t' s'] r'] eqn:Hrest.
    injection H as _ <- ->.
    destruct (IH s0' s' t' Hrest) as (t1 & s1 & t2 & s2 & t3 & Hpre & Ho & Hpost).
    exists (t0 ++ t1), s1, t2, s2, t3. split; [|auto].
    simpl. unfold bind. rewrite Ho', Hpre. reflexivity.
Qed.

Lemma applyOptions_leaves_grace (opts : list Option) :
  Forall (fun o => isGraceOption o = false) opts ->
  forall s, TerminationGracePeriod (final (applyOptions opts s)) = TerminationGracePeriod s.
Proof.
  induction 1 as [|o opts Ho _ IH]; intros s; [reflexivity|].
  simpl. unfold bind, final in *.
  assert (Hkeep : TerminationGracePeriod (applyOption o s).1.2 = TerminationGracePeriod s).
  { destruct (leaves_applyOption TerminationGracePeriod (fun _ _ => eq_refl) o) as [H|H];
      [apply H|]. destruct o; try done. }
  destruct (applyOption o s) as [[t1 s1] [[e|]| | |]]; simpl in *; try exact Hkeep.
  specialize (IH s1). destruct (applyOptions opts s1) as [[t2 s2] r]. simpl in *. congruence.
Qed.

Lemma applyOptions_leaves_wait (opts : list Option) :
  Forall (fun o => isWaitOption o = false) opts ->
  forall s, TerminationWaitPeriod (final (applyOptions opts s)) = TerminationWaitPeriod s.
Proof.
  induction 1 as [|o opts Ho _ IH]; intros s; [reflexivity|].
  simpl. unfold bind, final in *.
  assert (Hkeep : TerminationWaitPeriod (applyOption o s).1.2 = TerminationWaitPeriod s).
  { destruct (leaves_applyOption TerminationWaitPeriod (fun _ _ => eq_refl) o) as [H|H];
      [apply H|]. destruct o; try done. }
  destruct (applyOption o s) as [[t1 s1] [[e|]| | |]]; simpl in *; try exact Hkeep.
  specialize (IH s1). destruct (applyOptions opts s1) as [[t2 s2] r]. simpl in *. congruence.
Qed.

(** X6.  The supervisor that [New] returns has the default periods, a
    grace period of 15 seconds and a wait period of zero, unless an option
    sets them; when options set a period, the last one of the list that
    does so decides it, whatever the other options are. *)
Theorem New_periods (name version : string) (opts : list Option) (s : SVC)
    (err : option error) :
  New name version opts = Val (Some s, err) ->
  (Forall (fun o => isGraceOption o = false) opts ->
   TerminationGracePeriod s = 15000000000%Z) /\
  (Forall (fun o => isWaitOption o = false) opts ->
   TerminationWaitPeriod s = 0%Z) /\
  (forall pre d post, opts = pre ++ WithTerminationGracePeriod d :: post ->
     Forall (fun o => isGraceOption o = false) post ->
     TerminationGracePeriod s = d) /\
  (forall pre d post, opts = pre ++ WithTerminationWaitPeriod d :: post ->
     Forall (fun o => isWaitOption o = false) post ->
     TerminationWaitPeriod s = d).
Proof.
  intros HN. unfold New in HN.
  destruct (applyOptions opts (newSVC name version)) as [[t s'] [[e|]| | |]] eqn:Happ;
    try discriminate.
  injection HN as <- <-.
  split; [|split; [|split]].
  - intros Hall. pose proof (applyOptions_leaves_grace opts Hall (newSVC name version)) as H.
    rewrite Happ in H. exact H.
  - intros Hall. pose proof (applyOptions_leaves_wait opts Hall (newSVC name version)) as H.
    rewrite Happ in H. exact H.
  - intros pre d post -> Hpost.
    destruct (applyOptions_split pre _ post _ _ _ Happ)
      as (t1 & s1 & t2 & s2 & t3 & _ & Ho & Hrest).
    pose proof (applyOptions_leaves_grace post Hpost s2) as H. rewrite Hrest in H.
    unfold final in H. simpl in H. rewrite H.
    simpl in Ho. unfold bind, modify, ret in Ho. by injection Ho as _ <-.
  - intros pre d post -> Hpost.
    destruct (applyOptions_split pre _ post _ _ _ Happ)
      as (t1 & s1 & t2 & s2 & t3 & _ & Ho & Hrest).
    pose proof (applyOptions_leaves_wait post Hpost s2) as H. rewrite Hrest in H.
    unfold final in H. simpl in H. rewrite H.
    simpl in Ho. unfold bind, modify, ret in Ho. by injection Ho as _ <-.
Qed.

(* ===================================================================== *)
(** ** Further properties: the run *)
(* ===================================================================== *)

Lemma keys_registered (s : SVC) :
  wellRegistered s -> (map_to_list (workers s)).*1 ≡ₚ workersAdded s.
Proof.
  intros (_ & Hnd & Hkeys). apply NoDup_Permutation.
  - apply NoDup_fst_map_to_list.
  - exact Hnd.
  - intros n. rewrite Hkeys, list_elem_of_fmap. split.
    + intros ([n' w] & -> & Hin). apply elem_of_map_to_list in Hin. eauto.
    + intros [w Hw]. exists (n, w). split; [reflexivity|]. by apply elem_of_map_to_list.
Qed.

(** X7.  [Run] starts the goroutines of all the registered workers or of
    none: when one worker's [Run] is started, every registered worker's is,
    once each, the [Init] steps of all the workers have been made in
    registration order, and all of them returned nil. *)
Theorem launch_is_all_or_nothing (regs : list Registration) (first : option Terminal)
    (s : SVC) (name : string) :
  registered regs s ->
  ELaunch name ∈ trace (SVC_Run first s) ->
  launches (trace (SVC_Run first s)) ≡ₚ map regName regs /\
  NoDup (launches (trace (SVC_Run first s))) /\
  initCalls (trace (SVC_Run first s)) = map (fun n => (n, None)) (map regName regs) /\
  workersInitialized (final (SVC_Run first s)) = map regName regs.
Proof.
  intros Hreg Hin.
  destruct (registered_wellRegistered regs s Hreg) as [Hwf Hnames].
  rewrite <- Hnames. apply elem_of_launches in Hin.
  pose proof (keys_registered s Hwf) as Hperm.
  pose proof (NoDup_fst_map_to_list (workers s)) as Hnd.
  destruct (Run_shape first s Hwf) as [Hlg | Hlg Hok Hf | t Hlg Hok Hf Hex
    | t Hlg Hok Hf Hex | pre post name' e Hlg Hadd Hpre Hname];
    unfold trace, final in *; cbn [fst snd withInitialized workersInitialized] in *;
    autorewrite with shows in Hin; autorewrite with shows;
    try (by apply elem_of_nil in Hin); auto.
Qed.

(** X8.  When the case of the [select] that fires is a signal or the end of
    all the workers, [Run] goes through the shutdown path and returns:
    every registered worker was initialised, [Terminate] is called on
    initialised workers only, from the last to the first, on all of them
    when every [Terminate] returns, and nothing ends the process. *)
Theorem signal_or_finish_shuts_down (regs : list Registration)
    (first : option Terminal) (s : SVC) (t : Terminal) :
  registered regs s ->
  ESelect t ∈ trace (SVC_Run first s) ->
  (forall err, t <> TError err) ->
  result (SVC_Run first s) = Val tt /\
  workersInitialized (final (SVC_Run first s)) = map regName regs /\
  selections (trace (SVC_Run first s)) = [t] /\
  terminated (trace (SVC_Run first s)) `prefix_of` rev (map regName regs) /\
  (terminatesAll s -> terminated (trace (SVC_Run first s)) = rev (map regName regs)).
Proof.
  intros Hreg Hin Ht.
  destruct (registered_wellRegistered regs s Hreg) as [Hwf Hnames].
  rewrite <- Hnames. apply elem_of_selections in Hin.
  assert (Hnoexit : selectExits t = false) by (destruct t; [by destruct (Ht err)|done..]).
  destruct (Run_shape first s Hwf) as [Hlg | Hlg Hok Hf | t' Hlg Hok Hf Hex
    | t' Hlg Hok Hf Hex | pre post name e Hlg Hadd Hpre Hname];
    unfold trace, final, result in *; cbn [fst snd withInitialized workersInitialized] in *;
    autorewrite with shows in Hin; try (by apply elem_of_nil in Hin).
  - apply list_elem_of_singleton in Hin as <-. congruence.
  - apply list_elem_of_singleton in Hin as <-.
    pose proof (initialized_present s (workersAdded s) Hok) as Hpresent.
    rewrite (terminated_shutdownEvents _ (withInitialized (workersAdded s) s))
      by (autorewrite with shows; reflexivity).
    split; [reflexivity|]. split; [reflexivity|].
    split; [autorewrite with shows; reflexivity|]. split.
    + unfold terminator. rewrite pushDefers_rev.
      apply runDeferred_prefix, Forall_rev, Hpresent.
    + intros Hret.
      destruct (terminator_all (withInitialized (workersAdded s) s) Hpresent Hret)
        as (calls & f & -> & Hn & _). exact Hn.
Qed.

(** *** Periods and times of the shutdown *)

Lemma totalTook_app (s : SVC) (l k : list string) :
  totalTook s (l ++ k) = (totalTook s l + totalTook s k)%N.
Proof.
  induction l as [|n l IH]; simpl; [lia|].
  fold (totalTook s (l ++ k)). fold (totalTook s l). rewrite IH. lia.
Qed.

Lemma totalTook_rev (s : SVC) (l : list string) : totalTook s (rev l) = totalTook s l.
Proof.
  induction l as [|n l IH]; [reflexivity|].
  simpl rev. rewrite totalTook_app, IH. simpl. fold (totalTook s l). lia.
Qed.

Lemma runDeferred_total (s : SVC) (stack : list string) :
  Forall (fun n => exists w, workers s !! n = Some w /\ Terminate w <> TerminateBlocks) stack ->
  forall now, (runDeferred (workers s) stack now).1.2 = Some (now + totalTook s stack)%N.
Proof.
  induction 1 as [|name below (w & Hw & Hret) _ IH]; intros now; simpl.
  - f_equal. lia.
  - fold (totalTook s below). unfold terminateTook. rewrite Hw.
    destruct (Terminate w) as [err took|]; [|congruence].
    specialize (IH (now + took)%N).
    destruct (runDeferred (workers s) below (now + took)) as [[calls fin] crashed].
    simpl in *. rewrite IH. f_equal. lia.
Qed.

(** X9.  No [Terminate] is called before the termination wait period is
    over: every call of the shutdown starts at that time or later (a
    negative period counts as zero).  The grace period runs during the
    wait period too: when the grace period is not longer than the wait
    period, [Run] stops waiting at the end of the grace period, when no
    [Terminate] has been called yet. *)
Theorem terminate_waits_for_wait_period (regs : list Registration)
    (first : option Terminal) (s : SVC) (calls : list TerminateCall) (fin : option N) :
  registered regs s ->
  ETerminator calls fin ∈ trace (SVC_Run first s) ->
  Forall (fun c => (Z.to_N (TerminationWaitPeriod s) <= tcStart c)%N) calls /\
  (forall f, fin = Some f -> (Z.to_N (TerminationWaitPeriod s) <= f)%N) /\
  ((TerminationGracePeriod s <= TerminationWaitPeriod s)%Z ->
   waits (trace (SVC_Run first s)) = [Z.to_N (TerminationGracePeriod s)] /\
   Forall (fun c => (Z.to_N (TerminationGracePeriod s) <= tcStart c)%N) calls).
Proof.
  intros Hreg Hin.
  destruct (Run_terminator regs first s calls fin Hreg Hin)
    as (names & q & Hok & HR & Hterm & Hwaits).
  assert (Hcalls : calls = (terminator (withInitialized names s)).1.1) by by rewrite Hterm.
  assert (Hfin : fin = (terminator (withInitialized names s)).1.2) by by rewrite Hterm.
  assert (Hstarts : Forall (fun c => (Z.to_N (TerminationWaitPeriod s) <= tcStart c)%N) calls).
  { rewrite Hcalls. unfold terminator.
    eapply chained_starts, runDeferred_chained. }
  assert (Hf : forall f, fin = Some f -> (Z.to_N (TerminationWaitPeriod s) <= f)%N).
  { intros f Hf. rewrite Hfin in Hf. unfold terminator in Hf.
    by apply runDeferred_finished in Hf as [Hle _]. }
  split; [exact Hstarts|]. split; [exact Hf|].
  intros Hle. split.
  - rewrite Hwaits. f_equal. unfold waitGroupTimeout.
    destruct fin as [f|]; [|reflexivity]. specialize (Hf f eq_refl). lia.
  - eapply Forall_impl; [exact Hstarts|]. intros c Hc. simpl in Hc. lia.
Qed.

(** X10.  When every [Terminate] returns, the terminating goroutine is done
    after the wait period and the times of the [Terminate] calls of the
    initialised workers, added up, and [Run] waits that long or, when it
    is shorter, the grace period: the workers share one grace period, they
    do not each have their own. *)
Theorem shutdown_takes_the_sum (regs : list Registration)
    (first : option Terminal) (s : SVC) (calls : list TerminateCall) (fin : option N) :
  registered regs s ->
  ETerminator calls fin ∈ trace (SVC_Run first s) ->
  terminatesAll s ->
  fin = Some (Z.to_N (TerminationWaitPeriod s)
              + totalTook s (workersInitialized (final (SVC_Run first s))))%N /\
  waits (trace (SVC_Run first s)) =
    [(Z.to_N (TerminationWaitPeriod s)
      + totalTook s (workersInitialized (final (SVC_Run first s))))%N
     `min` Z.to_N (TerminationGracePeriod s)]%N.
Proof.
  intros Hreg Hin Hret.
  destruct (Run_terminator regs first s calls fin Hreg Hin)
    as (names & q & Hok & HR & Hterm & Hwaits).
  assert (Hfinal : workersInitialized (final (SVC_Run first s)) = names)
    by (rewrite HR; reflexivity).
  rewrite Hfinal.
  assert (Hfin : fin = Some (Z.to_N (TerminationWaitPeriod s) + totalTook s names)%N).
  { assert (Hf : fin = (terminator (withInitialized names s)).1.2) by by rewrite Hterm.
    rewrite Hf. unfold terminator. rewrite pushDefers_rev.
    cbn [withInitialized workersInitialized workers TerminationWaitPeriod].
    rewrite <- (totalTook_rev s names).
    apply (runDeferred_total s). apply Forall_rev.
    eapply Forall_impl; [exact Hok|]. intros n Hn.
    destruct (initOf_present s n None Hn) as [w Hw].
    exists w. split; [exact Hw | eapply Hret, Hw]. }
  split; [exact Hfin|]. rewrite Hwaits, Hfin. reflexivity.
Qed.

(** *** The race of the [select] *)

(** X11.  The case "all workers have finished" can fire exactly when every
    worker's [Run] returns nil or panics.  A worker whose [Run] returns an
    error keeps it from firing, because its goroutine waits in the send
    before it marks the wait group done; a worker that panics does not,
    because [recoverWait] marks the wait group done before it sends, so
    that the error of a panic can go unreceived. *)
Theorem all_done_selectable_iff (s : SVC) :
  selectable s TAllDone <->
  forall n w, workers s !! n = Some w ->
    Run w = RunReturns None \/ exists r, Run w = RunPanics r.
Proof.
  unfold selectable. split; intros H n w Hw; specialize (H n w Hw).
  - unfold runUnit in H. destruct (Run w) as [[e|]|r|]; [discriminate|auto|eauto|discriminate].
  - unfold runUnit. destruct H as [-> | [r ->]]; reflexivity.
Qed.

(** X12.  The errors that [Run] can receive from the channel are these and
    no others: for a worker whose [Run] returns an error, that error under
    the text "worker <name> exited: ", wrapped so that it is a cancellation
    exactly when the returned error is one; for a worker that panics with
    a value that is no error, an error made of the text of the value; and,
    on a supervisor with a logger, for a worker that panics with an error,
    that error itself. *)
Theorem errors_that_reach_Run (s : SVC) (err : error) :
  (selectable s (TError err) <->
   exists n w, workers s !! n = Some w /\
     ((exists e, Run w = RunReturns (Some e) /\ err = errorfExited n e) \/
      (exists text, Run w = RunPanics (PanicOther text) /\ err = ErrText text) \/
      (exists e, Run w = RunPanics (PanicError e) /\ logger s <> None /\ err = e))) /\
  (forall n e, isCanceled (errorfExited n e) = isCanceled e /\
               carriesName n (errorfExited n e) = true).
Proof.
  split.
  - unfold selectable. split.
    + intros (n & w & Hw & Hin). exists n, w. split; [exact Hw|].
      unfold runUnit, recoverWait in Hin.
      destruct (Run w) as [[e|]|[e|text]|]; simpl in Hin.
      * apply list_elem_of_singleton in Hin. left. eauto.
      * by apply elem_of_nil in Hin.
      * destruct (logger s) as [lg|] eqn:Hlg; simpl in Hin.
        -- apply list_elem_of_singleton in Hin. right. right.
           exists e. split; [reflexivity|]. split; [congruence | exact Hin].
        -- by apply elem_of_nil in Hin.
      * apply list_elem_of_singleton in Hin. right. left. eauto.
      * by apply elem_of_nil in Hin.
    + intros (n & w & Hw & Hcase). exists n, w. split; [exact Hw|].
      unfold runUnit, recoverWait.
      destruct Hcase as [(e & -> & ->) | [(text & -> & ->) | (e & -> & Hlg & ->)]];
        simpl; try apply list_elem_of_here.
      destruct (logger s); [apply list_elem_of_here | done].
  - intros n e. split; [reflexivity|].
    unfold carriesName, errorfExited. cbn [errorText]. rewrite !append_assoc.
    apply (contains_app n "worker " (" exited: " ++ errorText e)).
Qed.

(** *** What [Run] leaves of the supervisor *)




(** X14.  The shutdown path is deferred, so it also runs when the
    initialisation loop panics: on a supervisor with a logger where a
    registered name has no worker in the map (a nil interface), [Run]
    initialises the workers before that name, starts no goroutine, calls
    [Terminate] on the workers it initialised, last first, and then goes on
    panicking with the nil dereference. *)
Theorem nil_worker_panics_after_shutdown (first : option Terminal) (s : SVC)
    (pre post : list string) (name : string) :
  logger s <> None ->
  workersInitialized s = [] ->
  workersAdded s = pre ++ name :: post ->
  Forall (fun n => initOf s n = Some None) pre ->
  workers s !! name = None ->
  result (SVC_Run first s) = Panicked NilDereference /\
  workersInitialized (final (SVC_Run first s)) = pre /\
  launches (trace (SVC_Run first s)) = [] /\
  initCalls (trace (SVC_Run first s)) = map (fun n => (n, None)) pre /\
  terminated (trace (SVC_Run first s)) `prefix_of` rev pre /\
  (terminatesAll s -> terminated (trace (SVC_Run first s)) = rev pre).
Proof.
  intros Hlg Hinit Hadd Hpre Hname.
  destruct (logger s) as [lg|] eqn:Hlg'; [|done].
  assert (Hn : initOf s name = None) by (unfold initOf; by rewrite Hname).
  pose proof (Run_init_missing lg first s pre post name Hlg' Hadd Hpre Hn) as HR.
  cbv zeta in HR. rewrite Hinit, app_nil_l in HR.
  pose proof (initialized_present s pre Hpre) as Hpresent.
  rewrite (shutdownPath_ok lg (withInitialized pre s) Hlg' Hpresent) in HR.
  unfold trace, result in HR. cbn [fst snd] in HR.
  change (startEvent :: initEvents pre ++ [ELog DebugLevel "Initializing worker" (Some name)])
    with ((startEvent :: initEvents pre) ++ [ELog DebugLevel "Initializing worker" (Some name)])
    in HR.
  set (t0 := (startEvent :: initEvents pre)
               ++ [ELog DebugLevel "Initializing worker" (Some name)]) in HR.
  assert (Hshow : initCalls t0 = map (fun n => (n, None)) pre /\ launches t0 = [] /\
                  terminators t0 = []).
  { unfold t0. autorewrite with shows. repeat split; reflexivity. }
  destruct Hshow as (Hic & Hla & Hte).
  rewrite HR. unfold trace, final, result. cbn [fst snd withInitialized workersInitialized].
  assert (Ht : terminated (t0 ++ shutdownEvents (withInitialized pre s)) =
               map tcName (terminator (withInitialized pre s)).1.1).
  { apply terminated_shutdownEvents. rewrite terminators_app, Hte.
    autorewrite with shows. reflexivity. }
  rewrite Ht.
  split; [reflexivity|]. split; [reflexivity|].
  split; [rewrite launches_app, Hla; autorewrite with shows; reflexivity|].
  split; [rewrite initCalls_app, Hic; autorewrite with shows; by rewrite ?app_nil_r|].
  split.
  - unfold terminator. rewrite pushDefers_rev.
    apply runDeferred_prefix, Forall_rev, Hpresent.
  - intros Hret.
    assert (Hret' : terminatesAll (withInitialized pre s)) by exact Hret.
    destruct (terminator_all (withInitialized pre s) Hpresent Hret')
      as (calls & f & -> & Hcalls & _). exact Hcalls.
Qed.

(* ===================================================================== *)
(** ** Further properties: the probes *)
(* ===================================================================== *)

(** X15.  The ready probe calls [Healthy] only on the workers that
    implement [Healther].  It collects the errors of the workers whose
    [Healthy] returns one, each with the text "worker <name>: <error>";
    when there is none it writes nothing at all, so that the answer is the
    200 and the empty body that the server sends for a handler that
    returns without writing.  When there is one it never answers 200:
    without a logger it panics in the log call before it touches the
    response; with a logger it answers 503 with what the encoder returns,
    or 500 with the text of the encoder's error, and with the encoder of
    encoding/json the body is one empty object for each error, without the
    names of the workers or the errors. *)
Theorem ready_probe_verdict (jsonMarshal : list error -> string + error)
    (s : SVC) (iter : list (string * Worker)) (rw : ResponseWriter) :
  ranges s iter ->
  wroteHeader rw = false ->
  (forall e, e ∈ readyErrs iter [] <->
     exists n w err, workers s !! n = Some w /\ Healthy w = Some (Some err) /\
                     e = ErrText ("worker " ++ n ++ ": " ++ errorText err)%string) /\
  readyErrs (filter (fun nw => implements (Healthy nw.2) = true) iter) [] =
    readyErrs iter [] /\
  (readyErrs iter [] = [] ->
   readyHandler jsonMarshal s iter rw = ([], rw, Val tt) /\
   answer (readyHandler jsonMarshal s iter rw) = Some (200%Z, body rw)) /\
  (readyErrs iter [] <> [] ->
   answerStatus (readyHandler jsonMarshal s iter rw) <> Some 200%Z /\
   (logger s = None ->
    readyHandler jsonMarshal s iter rw = ([], rw, Panicked NilDereference)) /\
   (logger s <> None ->
    answer (readyHandler jsonMarshalErrors s iter rw) =
      Some (StatusServiceUnavailable,
            (body rw ++ errorsJSON (length (readyErrs iter [])))%string) /\
    (forall b, jsonMarshal (readyErrs iter []) = inl b ->
       answer (readyHandler jsonMarshal s iter rw) =
         Some (StatusServiceUnavailable, (body rw ++ b)%string)) /\
    (forall err, jsonMarshal (readyErrs iter []) = inr err ->
       answer (readyHandler jsonMarshal s iter rw) =
         Some (StatusInternalServerError,
               (body rw ++ errorText err ++ newline)%string)))).
Proof.
  intros Hiter Hrw. split; [|split; [|split]].
  - intros e. rewrite readyErrs_probe, elem_of_probeErrs.
    split; intros (n & w & err & Hin & Hcap & ->); exists n, w, err;
      (split; [by apply (elem_of_ranges s iter)|]); (split; [exact Hcap|]);
      [|symmetry]; apply errorfWorker_text.
  - rewrite !readyErrs_probe. apply probeErrs_skip.
  - intros Hnil. split.
    + unfold readyHandler. rewrite Hnil. reflexivity.
    + rewrite (readyHandler_answer jsonMarshal s iter rw Hrw), Hnil. reflexivity.
  - intros Hsome. split; [|split].
    + unfold answerStatus. rewrite (readyHandler_answer jsonMarshal s iter rw Hrw).
      destruct (readyErrs iter []) as [|e errs]; [done|].
      destruct (logger s) as [lg|]; simpl; [|discriminate].
      destruct (jsonMarshal (e :: errs)); discriminate.
    + intros Hlg. exact (readyHandler_nil_logger jsonMarshal s iter rw Hsome Hlg).
    + intros Hlg. rewrite (readyHandler_reports s iter rw Hrw).
      rewrite (readyHandler_answer jsonMarshal s iter rw Hrw).
      destruct (readyErrs iter []) as [|e errs]; [done|].
      destruct (logger s) as [lg|]; [|done].
      split; [reflexivity|]. split; intros x Hx; rewrite Hx; reflexivity.
Qed.

(** X16.  The order in which [range] yields the workers of the map does not
    change the verdict of a probe: two runs of the loop over the same map
    collect the same errors, in an order that may differ, and the handler
    returns in both or panics in both, with the answer 200 in both or in
    neither. *)
Theorem probe_verdict_ignores_order (jsonMarshal : list error -> string + error)
    (s : SVC) (iter1 iter2 : list (string * Worker)) (rw : ResponseWriter) :
  ranges s iter1 ->
  ranges s iter2 ->
  wroteHeader rw = false ->
  (liveErrs iter1 [] ≡ₚ liveErrs iter2 [] /\
   result (liveHandler jsonMarshal s iter1 rw) = result (liveHandler jsonMarshal s iter2 rw) /\
   (answerStatus (liveHandler jsonMarshal s iter1 rw) = Some 200%Z <->
    answerStatus (liveHandler jsonMarshal s iter2 rw) = Some 200%Z)) /\
  (readyErrs iter1 [] ≡ₚ readyErrs iter2 [] /\
   result (readyHandler jsonMarshal s iter1 rw) = result (readyHandler jsonMarshal s iter2 rw) /\
   (answerStatus (readyHandler jsonMarshal s iter1 rw) = Some 200%Z <->
    answerStatus (readyHandler jsonMarshal s iter2 rw) = Some 200%Z)).
Proof.
  intros H1 H2 Hrw. unfold ranges in H1, H2.
  assert (Hperm : iter1 ≡ₚ iter2) by (by rewrite H1, H2).
  pose proof (probeErrs_order Alive iter1 iter2 Hperm) as Hlive.
  pose proof (probeErrs_order Healthy iter1 iter2 Hperm) as Hready.
  rewrite <- !liveErrs_probe in Hlive. rewrite <- !readyErrs_probe in Hready.
  unfold answerStatus.
  rewrite !(liveHandler_answer jsonMarshal s _ rw Hrw),
    !(readyHandler_answer jsonMarshal s _ rw Hrw),
    !liveHandler_result, !readyHandler_result.
  split; (split; [assumption|]).
  - destruct (liveErrs iter1 []) as [|e1 l1], (liveErrs iter2 []) as [|e2 l2].
    + split; reflexivity.
    + by apply Permutation_nil_cons in Hlive.
    + symmetry in Hlive. by apply Permutation_nil_cons in Hlive.
    + split; [reflexivity|]. destruct (logger s); simpl; [|split; discriminate].
      destruct (jsonMarshal (e1 :: l1)), (jsonMarshal (e2 :: l2)); split; discriminate.
  - destruct (readyErrs iter1 []) as [|e1 l1], (readyErrs iter2 []) as [|e2 l2].
    + split; reflexivity.
    + by apply Permutation_nil_cons in Hready.
    + symmetry in Hready. by apply Permutation_nil_cons in Hready.
    + split; [reflexivity|]. destruct (logger s); simpl; [|split; discriminate].
      destruct (jsonMarshal (e1 :: l1)), (jsonMarshal (e2 :: l2)); split; discriminate.
Qed.

(** X17.  The headers of the failure answers.  When the errors are
    encoded, the live probe sets the content type before [WriteHeader], so
    the 503 goes out with "application/json"; the ready probe calls
    [WriteHeader] first, so its 503 goes out with the headers that the
    response had before, and the content type that it then sets stays in
    the header map without being sent. *)
Theorem failure_headers (jsonMarshal : list error -> string + error)
    (s : SVC) (live ready : list (string * Worker)) (rw : ResponseWriter)
    (bl br : string) :
  wroteHeader rw = false ->
  logger s <> None ->
  liveErrs live [] <> [] ->
  jsonMarshal (liveErrs live []) = inl bl ->
  readyErrs ready [] <> [] ->
  jsonMarshal (readyErrs ready []) = inl br ->
  sentHeader (final (liveHandler jsonMarshal s live rw)) =
    <["Content-Type" := "application/json"]> (header rw) /\
  status (final (liveHandler jsonMarshal s live rw)) = StatusServiceUnavailable /\
  sentHeader (final (readyHandler jsonMarshal s ready rw)) = header rw /\
  header (final (readyHandler jsonMarshal s ready rw)) =
    <["Content-Type" := "application/json"]> (header rw) /\
  status (final (readyHandler jsonMarshal s ready rw)) = StatusServiceUnavailable.
Proof.
  intros Hrw Hlg Hl Hml Hr Hmr.
  destruct (logger s) as [lg|] eqn:Hlogger; [clear Hlg | done].
  unfold liveHandler, readyHandler. rewrite Hlogger. cbv zeta. rewrite Hml, Hmr.
  destruct (liveErrs live []) as [|el ls]; [done|].
  destruct (readyErrs ready []) as [|er rs]; [done|].
  cbn [length Nat.eqb Nat.ltb Nat.leb]. unfold final. cbn [fst snd].
  unfold write, writeHeader, headerSet.
  cbn [wroteHeader status sentHeader header body]. rewrite Hrw.
  cbn [wroteHeader status sentHeader header body].
  repeat split; reflexivity.
Qed.

(* ===================================================================== *)
(** ** The further properties on the examples *)
(* ===================================================================== *)

Lemma registration_reads_back_witness :
  fresh logged /\
  registerAll brokenRegs logged = (trace (registerAll brokenRegs logged), brokenSVC, Val tt) /\
  workersAdded brokenSVC = ["api"; "cache"; "db"] /\
  workersInitialized brokenSVC = [].
Proof.
  assert (Hf : fresh logged) by (repeat split; reflexivity).
  assert (Hreg : registerAll brokenRegs logged =
    (trace (registerAll brokenRegs logged), brokenSVC, Val tt)) by (vm_compute; reflexivity).
  split; [exact Hf|]. split; [exact Hreg|].
  destruct (registration_reads_back brokenRegs logged brokenSVC _ Hf Hreg)
    as (Hadd & _ & _ & _ & _ & _ & _ & _ & Hinit).
  split; [exact Hadd | exact Hinit].
Defined.

Lemma registration_succeeds_iff_witness :
  fresh logged /\
  NoDup (map regName sickRegs).
Proof.
  assert (Hf : fresh logged) by (repeat split; reflexivity).
  split; [exact Hf|].
  apply (proj1 (registration_succeeds_iff sickRegs logged Hf)).
  vm_compute. reflexivity.
Defined.

Lemma shutdown_capacity_witness :
  (length (signals logged) <= 3)%nat /\
  shutdowns 3 logged = ([], setSignals [SIGTERM; SIGTERM; SIGTERM] logged, Val tt) /\
  result (shutdowns 4 logged) = Blocked.
Proof.
  assert (Hlen : (length (signals logged) <= 3)%nat) by (simpl; lia).
  split; [exact Hlen|]. split.
  - apply (proj1 (shutdown_capacity 3 logged Hlen)). simpl; lia.
  - apply (proj2 (shutdown_capacity 4 logged Hlen)). simpl; lia.
Defined.

Lemma New_routes_witness :
  Forall (fun o => isRouterOption o = false) periodOptions /\
  exists s, New "svc" "v1" periodOptions = Val (Some s, None) /\
            Router s = Some [("/live", HLive); ("/ready", HReady)].
Proof.
  assert (Hopts : Forall (fun o => isRouterOption o = false) periodOptions)
    by (repeat constructor).
  split; [exact Hopts|].
  apply (proj1 (New_routes "svc" "v1" periodOptions Hopts)).
  apply (bool_decide_unpack _). vm_compute. reflexivity.
Defined.

Lemma New_periods_witness :
  New "svc" "v1" periodOptions = Val (Some periodSVC, None) /\
  TerminationGracePeriod periodSVC = 7%Z /\
  TerminationWaitPeriod periodSVC = 3%Z.
Proof.
  assert (HN : New "svc" "v1" periodOptions = Val (Some periodSVC, None))
    by (vm_compute; reflexivity).
  split; [exact HN|].
  destruct (New_periods "svc" "v1" periodOptions periodSVC None HN) as (_ & _ & Hg & Hw).
  split.
  - apply (Hg [] 7%Z [WithHealthz; WithTerminationWaitPeriod 3]); [reflexivity|].
    repeat constructor.
  - apply (Hw [WithTerminationGracePeriod 7; WithHealthz] 3%Z []); [reflexivity|].
    constructor.
Defined.

Lemma launch_is_all_or_nothing_witness :
  registered canceledRegs canceledSVC /\
  ELaunch "api" ∈ trace (SVC_Run (Some TAllDone) canceledSVC) /\
  workersInitialized (final (SVC_Run (Some TAllDone) canceledSVC)) = ["api"; "sub"].
Proof.
  assert (Hreg : registered canceledRegs canceledSVC)
    by by_registration logged canceledRegs.
  assert (Hin : ELaunch "api" ∈ trace (SVC_Run (Some TAllDone) canceledSVC)) by in_trace.
  split; [exact Hreg|]. split; [exact Hin|].
  exact (proj2 (proj2 (proj2
    (launch_is_all_or_nothing canceledRegs (Some TAllDone) canceledSVC "api" Hreg Hin)))).
Defined.

Lemma signal_or_finish_shuts_down_witness :
  registered stuckRegs stuckSVC /\
  ESelect (TSignal SIGTERM) ∈ trace (SVC_Run (Some (TSignal SIGTERM)) stuckSVC) /\
  result (SVC_Run (Some (TSignal SIGTERM)) stuckSVC) = Val tt.
Proof.
  assert (Hreg : registered stuckRegs stuckSVC) by by_registration hasty stuckRegs.
  assert (Hin : ESelect (TSignal SIGTERM)
                  ∈ trace (SVC_Run (Some (TSignal SIGTERM)) stuckSVC)) by in_trace.
  split; [exact Hreg|]. split; [exact Hin|].
  apply (signal_or_finish_shuts_down stuckRegs (Some (TSignal SIGTERM)) stuckSVC
           (TSignal SIGTERM) Hreg Hin).
  intros err. discriminate.
Defined.

Lemma terminate_waits_for_wait_period_witness :
  registered stuckRegs stuckSVC /\
  ETerminator [{| tcName := "db"; tcStart := 0; tcEnd := Some 5%N; tcErr := None |};
               {| tcName := "api"; tcStart := 5; tcEnd := None; tcErr := None |}] None
    ∈ trace (SVC_Run (Some (TSignal SIGTERM)) stuckSVC) /\
  waits (trace (SVC_Run (Some (TSignal SIGTERM)) stuckSVC)) =
    [Z.to_N (TerminationGracePeriod stuckSVC)].
Proof.
  assert (Hreg : registered stuckRegs stuckSVC) by by_registration hasty stuckRegs.
  assert (Hin : ETerminator [{| tcName := "db"; tcStart := 0; tcEnd := Some 5%N; tcErr := None |};
               {| tcName := "api"; tcStart := 5; tcEnd := None; tcErr := None |}] None
    ∈ trace (SVC_Run (Some (TSignal SIGTERM)) stuckSVC)) by in_trace.
  split; [exact Hreg|]. split; [exact Hin|].
  destruct (terminate_waits_for_wait_period stuckRegs (Some (TSignal SIGTERM)) stuckSVC _ _
              Hreg Hin) as (_ & _ & Hgrace).
  apply Hgrace. vm_compute. discriminate.
Defined.

Lemma shutdown_takes_the_sum_witness :
  registered canceledRegs canceledSVC /\
  ETerminator [{| tcName := "sub"; tcStart := 0; tcEnd := Some 5%N; tcErr := None |};
               {| tcName := "api"; tcStart := 5; tcEnd := Some 10%N; tcErr := None |}] (Some 10%N)
    ∈ trace (SVC_Run (Some TAllDone) canceledSVC) /\
  terminatesAll canceledSVC /\
  Some 10%N =
    Some (Z.to_N (TerminationWaitPeriod canceledSVC)
          + totalTook canceledSVC
              (workersInitialized (final (SVC_Run (Some TAllDone) canceledSVC))))%N.
Proof.
  assert (Hreg : registered canceledRegs canceledSVC)
    by by_registration logged canceledRegs.
  assert (Hin : ETerminator [{| tcName := "sub"; tcStart := 0; tcEnd := Some 5%N; tcErr := None |};
               {| tcName := "api"; tcStart := 5; tcEnd := Some 10%N; tcErr := None |}] (Some 10%N)
    ∈ trace (SVC_Run (Some TAllDone) canceledSVC)) by in_trace.
  assert (Hret : terminatesAll canceledSVC) by all_terminate.
  split; [exact Hreg|]. split; [exact Hin|]. split; [exact Hret|].
  exact (proj1 (shutdown_takes_the_sum canceledRegs (Some TAllDone) canceledSVC _ _
                  Hreg Hin Hret)).
Defined.


Lemma nil_worker_panics_after_shutdown_witness :
  logger ghostSVC <> None /\
  workersAdded ghostSVC = ["api"; "db"] ++ "ghost" :: ["cache"] /\
  workers ghostSVC !! "ghost" = None /\
  result (SVC_Run None ghostSVC) = Panicked NilDereference /\
  terminated (trace (SVC_Run None ghostSVC)) = ["db"; "api"].
Proof.
  assert (Hlg : logger ghostSVC <> None) by discriminate.
  assert (Hadd : workersAdded ghostSVC = ["api"; "db"] ++ "ghost" :: ["cache"])
    by reflexivity.
  assert (Hpre : Forall (fun n => initOf ghostSVC n = Some None) ["api"; "db"])
    by (repeat constructor).
  assert (Hn : workers ghostSVC !! "ghost" = None) by (vm_compute; reflexivity).
  split; [exact Hlg|]. split; [exact Hadd|]. split; [exact Hn|].
  destruct (nil_worker_panics_after_shutdown None ghostSVC ["api"; "db"] ["cache"] "ghost"
              Hlg eq_refl Hadd Hpre Hn) as (Hres & _ & _ & _ & _ & Hall).
  split; [exact Hres|]. apply Hall. all_terminate.
Defined.

Lemma ready_probe_verdict_witness :
  ranges sickSVC (map_to_list (workers sickSVC)) /\
  wroteHeader newResponse = false /\
  readyErrs (map_to_list (workers sickSVC)) [] = [ErrText "worker disk: disk full"] /\
  answer (readyHandler jsonMarshalErrors sickSVC (map_to_list (workers sickSVC)) newResponse)
    = Some (StatusServiceUnavailable, (body newResponse ++ errorsJSON 1)%string).
Proof.
  assert (Hr : ranges sickSVC (map_to_list (workers sickSVC)))
    by (unfold ranges; reflexivity).
  split; [exact Hr|]. split; [reflexivity|]. split; [vm_compute; reflexivity|].
  destruct (ready_probe_verdict jsonMarshalErrors sickSVC (map_to_list (workers sickSVC))
              newResponse Hr eq_refl) as (_ & _ & _ & Hfail).
  destruct Hfail as (_ & _ & Hsent); [vm_compute; discriminate|].
  destruct Hsent as [Hsent _]; [discriminate|]. exact Hsent.
Defined.

Lemma probe_verdict_ignores_order_witness :
  ranges sickSVC (map_to_list (workers sickSVC)) /\
  ranges sickSVC (reverse (map_to_list (workers sickSVC))) /\
  liveErrs (map_to_list (workers sickSVC)) [] ≡ₚ
    liveErrs (reverse (map_to_list (workers sickSVC))) [].
Proof.
  assert (H1 : ranges sickSVC (map_to_list (workers sickSVC)))
    by (unfold ranges; reflexivity).
  assert (H2 : ranges sickSVC (reverse (map_to_list (workers sickSVC))))
    by (unfold ranges; apply reverse_Permutation).
  split; [exact H1|]. split; [exact H2|].
  exact (proj1 (proj1 (probe_verdict_ignores_order jsonMarshalErrors sickSVC _ _ newResponse
                         H1 H2 eq_refl))).
Defined.

Lemma failure_headers_witness :
  wroteHeader newResponse = false /\
  logger logged <> None /\
  liveErrs [("disk", sick)] [] <> [] /\
  readyErrs [("disk", sick)] [] <> [] /\
  sentHeader (final (readyHandler jsonMarshalErrors logged [("disk", sick)] newResponse))
    = header newResponse.
Proof.
  assert (Hlg : logger logged <> None) by discriminate.
  assert (Hl : liveErrs [("disk", sick)] [] <> []) by discriminate.
  assert (Hr : readyErrs [("disk", sick)] [] <> []) by discriminate.
  split; [reflexivity|]. split; [exact Hlg|]. split; [exact Hl|]. split; [exact Hr|].
  exact (proj1 (proj2 (proj2
    (failure_headers jsonMarshalErrors logged [("disk", sick)] [("disk", sick)] newResponse
       _ _ eq_refl Hlg Hl eq_refl Hr eq_refl)))).
Defined.

(* ===================================================================== *)
(** ** Further properties: the example programs *)
(* ===================================================================== *)

(** Without a logger a registration writes nothing, and it returns or
    dereferences the nil logger. *)
Lemma register_nil_logger (r : Registration) (s : SVC) :
  logger s = None ->
  trace (register r s) = [] /\
  logger (final (register r s)) = None /\
  (result (register r s) = Val tt \/ result (register r s) = Panicked NilDereference).
Proof.
  intros Hlg.
  assert (HA : forall name w,
    trace (AddWorker name w s) = [] /\
    logger (final (AddWorker name w s)) = None /\
    (result (AddWorker name w s) = Val tt \/
     result (AddWorker name w s) = Panicked NilDereference)).
  { intros name w. unfold AddWorker, bind, get, ret, modify, logMsg, trace, final, result.
    cbv beta iota.
    destruct (workers s !! name); cbv beta iota; repeat (rewrite Hlg; cbv beta iota);
      [simpl; auto|].
    destruct (implements (Healthy w)); cbv beta iota; repeat (rewrite Hlg; cbv beta iota);
      [|simpl; auto].
    destruct (implements (Alive w)); cbv beta iota; repeat (rewrite Hlg; cbv beta iota);
      simpl; auto. }
  destruct r as [name w | name w opts]; simpl; [apply HA|].
  specialize (HA name w). unfold AddWorkerWithInitRetry, bind, modify, trace, final, result in *.
  destruct (AddWorker name w s) as [[t1 s1] [[]| | |]]; simpl in *;
    destruct HA as (-> & Hl & Hr); auto.
Qed.

Lemma registerAll_nil_logger (regs : list Registration) : forall s,
  logger s = None ->
  trace (registerAll regs s) = [] /\
  logger (final (registerAll regs s)) = None /\
  (result (registerAll regs s) = Val tt \/
   result (registerAll regs s) = Panicked NilDereference).
Proof.
  induction regs as [|r regs IH]; intros s Hlg; [simpl; auto|].
  destruct (register_nil_logger r s Hlg) as (Ht & Hl & Hr).
  simpl. unfold bind, trace, final, result in *.
  destruct (register r s) as [[t1 s1] [[]| | |]]; simpl in *; subst t1; auto;
    try (destruct Hr; discriminate).
  destruct (IH s1 Hl) as (Ht2 & Hl2 & Hr2).
  destruct (registerAll regs s1) as [[t2 s2] r2]. simpl in *. auto.
Qed.

(** The panics of the options: a nil router or a pattern given twice. *)
Lemma HandleFunc_faults (pattern : string) (h : Handler) (s : SVC) (f : Fault) :
  result (HandleFunc pattern h s) = Panicked f ->
  f = NilDereference \/ exists p, f = MultipleRegistrations p.
Proof.
  unfold HandleFunc, bind, get, panic, modify, result. cbv beta iota.
  destruct (Router s) as [mux|]; [|intros [= <-]; auto].
  destruct (bool_decide _); [intros [= <-]; eauto | discriminate].
Qed.

Lemma handleAll_faults (routes : list (string * Handler)) : forall s f,
  result (bind (handleAll routes) (fun _ => ret (@None error)) s) = Panicked f ->
  f = NilDereference \/ exists p, f = MultipleRegistrations p.
Proof.
  induction routes as [|[pattern h] routes IH]; intros s f; [discriminate|].
  cbn [handleAll]. rewrite bind_assoc. pose proof (HandleFunc_faults pattern h s f) as Hh.
  specialize (IH (final (HandleFunc pattern h s)) f).
  unfold bind at 1. unfold result, final in *.
  destruct (HandleFunc pattern h s) as [[t1 s1] [[]| | |]]; simpl in *;
    try discriminate; [|intros [= <-]; by apply Hh].
  destruct (bind (handleAll routes) (fun _ => ret (@None error)) s1) as [[t2 s2] r]. exact IH.
Qed.

Lemma applyOption_faults (o : Option) (s : SVC) (f : Fault) :
  result (applyOption o s) = Panicked f ->
  f = NilDereference \/ exists p, f = MultipleRegistrations p.
Proof.
  destruct o as [d|d|router| |]; try discriminate.
  - rewrite applyOption_handleAll by exact I. apply handleAll_faults.
  - rewrite applyOption_handleAll by exact I. apply handleAll_faults.
Qed.

Lemma applyOptions_faults (opts : list Option) : forall s f,
  result (applyOptions opts s) = Panicked f ->
  f = NilDereference \/ exists p, f = MultipleRegistrations p.
Proof.
  induction opts as [|o opts IH]; intros s f; [discriminate|].
  simpl. pose proof (applyOption_faults o s f) as Ho.
  unfold bind, result in *.
  destruct (applyOption o s) as [[t1 s1] [[e|]| | |]]; simpl in *; try discriminate; auto.
  specialize (IH s1 f). destruct (applyOptions opts s1) as [[t2 s2] r]. exact IH.
Qed.

(** X18.  A program of the shape of the examples, which makes a supervisor
    with [New] and the options of options.go, checks it with [MustInit],
    registers workers and calls [Run], always ends in a panic, whatever
    the options and the workers are, and logs nothing: nothing sets the
    logger, so when [New] returns the program dereferences the nil logger
    in [AddWorker], or at the latest in the first log call of [Run],
    before the [Init] of any worker; when [New] does not return, an option
    has panicked, on a nil router or on a route given twice. *)
Theorem example_main_panics (name version : string) (opts : list Option)
    (regs : list Registration) (first : option Terminal) :
  exists f,
    exampleMain name version opts regs first = ([], MainEnds (Panicked f)) /\
    (f = NilDereference \/
     exists p, f = MultipleRegistrations p /\ New name version opts = Panicked f) /\
    (forall s, New name version opts = Val (Some s, None) -> f = NilDereference).
Proof.
  unfold exampleMain, New.
  pose proof (returnsNilOrPanics_applyOptions opts (newSVC name version)) as Hr.
  pose proof (applyOptions_faults opts (newSVC name version)) as Hf.
  destruct (keeps_applyOptions opts (newSVC name version)) as [Hl _].
  unfold result, final in *.
  destruct (applyOptions opts (newSVC name version)) as [[t s'] [[e|]| f| |]];
    simpl in *; try done.
  - destruct (registerAll_nil_logger regs s' Hl) as (Ht & Hl2 & Hres).
    unfold bind, trace, final, result in *.
    destruct (registerAll regs s') as [[t1 s1] [[]| | |]]; simpl in *; subst t1.
    + rewrite (Run_nil_logger first s1 Hl2). simpl. exists NilDereference. auto.
    + destruct Hres as [Hres | Hres]; [discriminate|]. injection Hres as ->.
      exists NilDereference. auto.
    + destruct Hres; discriminate.
    + destruct Hres; discriminate.
  - exists f. split; [reflexivity|]. split; [|intros s; discriminate].
    destruct (Hf f eq_refl) as [-> | [p ->]]; [auto | right; eauto].
Qed.

Lemma example_main_panics_witness :
  exampleMain "minimal-service" "1.0.0" [] [Add "dummy-worker" dummyWorker] None =
    ([], MainEnds (Panicked NilDereference)).
Proof.
  destruct (example_main_panics "minimal-service" "1.0.0" [] [Add "dummy-worker" dummyWorker]
              None) as (f & Hmain & _ & Hnil).
  rewrite Hmain, (Hnil (newSVC "minimal-service" "1.0.0") eq_refl). reflexivity.
Defined.

